(** * libpjf: the mmatic allocation manager and the xstr string buffer

    A shallow embedding of [mmatic.c] and [xstr.c].  The C heap is an
    explicit store: chunk headers with their payload cells, and manager
    records, each living at an address.  Every C function becomes a
    function on that store returning either a fault (the process was
    aborted, or the C code stepped outside defined behaviour) or the new
    store together with the C return value. *)

From Stdlib Require Import ZArith List Ascii String Lia Bool.
From stdpp Require Import base option list gmap.

Local Open Scope Z_scope.
Set Warnings "-clear-no-such-hyp".

(** ** Faults and the error monad *)

Inductive fault : Type :=
| Died          (* die(...) was called *)
| AssertFailed  (* asnsert(...) did not hold *)
| NullDeref     (* a NULL pointer was dereferenced *)
| Dangling      (* a pointer to storage that is not live was dereferenced *)
| OutOfBounds   (* a read or write ran past the end of a payload *)
| Uninitialised (* an indeterminate byte was read *)
| Confused      (* storage was used as a structure that it does not hold *).

Inductive res (A : Type) : Type :=
| Ok (a : A)
| Err (f : fault).
Arguments Ok {A} a.
Arguments Err {A} f.

Definition rbind {A B : Type} (m : res A) (k : A → res B) : res B :=
  match m with
  | Ok a => k a
  | Err f => Err f
  end.

Global Instance res_bind : MBind res := fun A B k m => rbind m k.
Global Instance res_ret : MRet res := @Ok.

Definition is_ok {A : Type} (m : res A) : bool :=
  match m with Ok _ => true | Err _ => false end.

(** ** The store *)

(** Addresses. *)
Abbreviation addr := positive (only parsing).

(** A payload cell: [None] is an indeterminate byte of fresh storage. *)
Abbreviation cell := (option ascii) (only parsing).

Definition NUL : ascii := Ascii.zero.

Definition TAG_MGR : Z := 0xBABBA777.
Definition TAG_CHUNK : Z := 0xABBA1234.

(** [struct mmchunk]; [cfile] and [cline] only feed diagnostics and are
    left out.  The payload that follows the header in memory is kept with
    it; a payload pointer is the address of its chunk. *)
Record mmchunk : Type := MkChunk {
  tag : Z;
  shared : bool;
  alloc : Z;
  next : option addr;
  prev : option addr;
  mgr : option addr;
  payload : list cell
}.

(** [struct mmatic]. *)
Record mmatic : Type := MkMgr {
  mtag : Z;
  first : option addr;
  last : option addr;
  totalloc : Z
}.

(** The heap: live chunks, live managers, and the next address the
    system allocator hands out. *)
Record heap : Type := MkHeap {
  chunks : gmap addr mmchunk;
  mgrs : gmap addr mmatic;
  brk : addr
}.

Definition empty_heap : heap := MkHeap ∅ ∅ 1%positive.

Definition set_next (n : option addr) (c : mmchunk) : mmchunk :=
  MkChunk (tag c) (shared c) (alloc c) n (prev c) (mgr c) (payload c).
Definition set_prev (p : option addr) (c : mmchunk) : mmchunk :=
  MkChunk (tag c) (shared c) (alloc c) (next c) p (mgr c) (payload c).
Definition set_payload (d : list cell) (c : mmchunk) : mmchunk :=
  MkChunk (tag c) (shared c) (alloc c) (next c) (prev c) (mgr c) d.
Definition set_last (l : option addr) (m : mmatic) : mmatic :=
  MkMgr (mtag m) (first m) l (totalloc m).
Definition set_totalloc (t : Z) (m : mmatic) : mmatic :=
  MkMgr (mtag m) (first m) (last m) t.

Definition upd_chunks (f : gmap addr mmchunk → gmap addr mmchunk) (h : heap) : heap :=
  MkHeap (f (chunks h)) (mgrs h) (brk h).
Definition upd_mgrs (f : gmap addr mmatic → gmap addr mmatic) (h : heap) : heap :=
  MkHeap (chunks h) (f (mgrs h)) (brk h).

(** Dereferencing. *)
Definition get_chunk (h : heap) (p : option addr) : res mmchunk :=
  match p with
  | None => Err NullDeref
  | Some a => match chunks h !! a with
              | Some c => Ok c
              | None => Err Dangling
              end
  end.

(** The fields of a manager record read through [p].  When [p] points
    to a payload the code reads the payload as if it were a record, which
    the model does not follow. *)
Definition get_mgr (h : heap) (p : option addr) : res mmatic :=
  match p with
  | None => Err NullDeref
  | Some a => match mgrs h !! a with
              | Some m => Ok m
              | None => match chunks h !! a with
                        | Some _ => Err Confused
                        | None => Err Dangling
                        end
              end
  end.

(** The tag is the first field of both structures.  Read through a
    pointer to a payload it is the first bytes of the payload: four of
    them, the least significant first (the layout of a 32-bit tag on the
    little-endian machines the library is built for; [lib.h] has the
    declaration). *)
Definition sizeof_tag : nat := 4.

Fixpoint le_value (bs : list ascii) : Z :=
  match bs with
  | [] => 0
  | b :: bs' => Z.of_nat (nat_of_ascii b) + 256 * le_value bs'
  end.

Fixpoint determinate (d : list cell) : option (list ascii) :=
  match d with
  | [] => Some []
  | Some c :: d' =>
      match determinate d' with
      | Some cs => Some (c :: cs)
      | None => None
      end
  | None :: _ => None
  end.

Definition payload_tag (d : list cell) : res Z :=
  if (length d <? sizeof_tag)%nat then Err OutOfBounds else
  match determinate (take sizeof_tag d) with
  | Some bs => Ok (le_value bs)
  | None => Err Uninitialised
  end.

(** [IS_MGR(mgr)]: [(mgr) && (mgr)->tag == TAG_MGR].  The pointer is a
    manager handle, or whatever the caller handed in as owner: through a
    payload pointer the test reads the first bytes of the payload. *)
Definition IS_MGR (h : heap) (p : option addr) : res bool :=
  match p with
  | None => Ok false
  | Some a =>
      match mgrs h !! a with
      | Some m => Ok (mtag m =? TAG_MGR)
      | None =>
          match chunks h !! a with
          | Some c => t ← payload_tag (payload c); Ok (t =? TAG_MGR)
          | None => Err Dangling
          end
      end
  end.

(** [IS_CHUNK(PTR_TO_CHUNK(ptr))]: the tag of the header in front of the
    payload [ptr] points to.  In front of a manager record there is no
    header, and a released chunk is not there to be read. *)
Definition IS_CHUNK (h : heap) (p : option addr) : res bool :=
  match p with
  | None => Ok false
  | Some a =>
      match chunks h !! a with
      | Some c => Ok (tag c =? TAG_CHUNK)
      | None =>
          match mgrs h !! a with
          | Some _ => Err OutOfBounds
          | None => Err Dangling
          end
      end
  end.

(** A result satisfies [P]: the call returned, and [P] holds of what it
    returned. *)
Definition holds_after {A : Type} (r : res A) (P : A → Prop) : Prop :=
  match r with
  | Ok a => P a
  | Err _ => False
  end.

(** A 32-bit [totalloc] counter, for the sample runs. *)
Definition word32 : Z := 2 ^ 32.

Section Libpjf.

(** The declaration of [struct mmatic] is in [lib.h]; the width of its
    unsigned [totalloc] counter is a parameter: the counter lives in
    [0, totalloc_mod). *)
Variable totalloc_mod : Z.

Definition wrap (z : Z) : Z := z mod totalloc_mod.

(** The system allocator: the next unused address.  It never runs out:
    the [die("Out of memory")] exits are not part of the model.  An address
    is handed out once: a pointer to released storage stays dangling, and
    every use of it is a fault. *)
Definition malloc (h : heap) : addr * heap :=
  (brk h, MkHeap (chunks h) (mgrs h) (Pos.succ (brk h))).

(** [mmatic_create]: a manager with a zeroed sentinel chunk. *)
Definition mmatic_create (h : heap) : heap * option addr :=
  let '(m, h1) := malloc h in
  let '(f, h2) := malloc h1 in
  let sentinel := MkChunk 0 false 0 None None (Some m) [] in
  let M := MkMgr TAG_MGR (Some f) (Some f) 0 in
  (MkHeap (<[f := sentinel]> (chunks h2)) (<[m := M]> (mgrs h2)) (brk h2), Some m).

(** The owner resolution at the head of [mmatic_allocate] and
    [mmatic_free_]. *)
Definition resolve_owner (h : heap) (mgr_or_mem : option addr) : res (option addr) :=
  IS_MGR h mgr_or_mem ≫= λ is_mgr : bool,
  if is_mgr then Ok mgr_or_mem
  else
    IS_CHUNK h mgr_or_mem ≫= λ is_chunk : bool,
    if is_chunk then c ← get_chunk h mgr_or_mem; Ok (mgr c)
    else Err Died.

(** [mmatic_allocate]; [start] and [flags] only steer [mmap]. *)
Definition mmatic_allocate (size : Z) (mgr_or_mem : option addr) (zero shared_ : bool)
    (h : heap) : res (heap * option addr) :=
  m ← resolve_owner h mgr_or_mem;
  M ← get_mgr h m;
  let '(a, h1) := malloc h in
  lastc ← get_chunk h (last M);
  let fill : cell := if zero then Some NUL else None in
  let chunk := MkChunk TAG_CHUNK shared_ size None (last M) m
                       (replicate (Z.to_nat size) fill) in
  match m, last M with
  | Some ma, Some la =>
      let cs := <[la := set_next (Some a) lastc]> (<[a := chunk]> (chunks h1)) in
      let M' := set_totalloc (wrap (totalloc M + size)) (set_last (Some a) M) in
      Ok (MkHeap cs (<[ma := M']> (mgrs h1)) (brk h1), Some a)
  | _, _ => Err NullDeref
  end.

(** [mmatic_freeptr_]; the caller's pointer variable is nulled, which the
    store does not see.  Modelled from the spec: [asnsert] of [lib.h] is
    the validation of the input, which stops the call when it fails. *)
Definition mmatic_freeptr_ (mem : option addr) (h : heap) : res heap :=
  IS_CHUNK h mem ≫= λ is_chunk : bool,
  if negb is_chunk then Err AssertFailed else
  chunk ← get_chunk h mem;
  pc ← get_chunk h (prev chunk);
  match mem, prev chunk with
  | Some a, Some pa =>
      let cs1 := <[pa := set_next (next chunk) pc]> (chunks h) in
      h2 ← match next chunk with
           | Some na =>
               nc ← get_chunk (MkHeap cs1 (mgrs h) (brk h)) (Some na);
               Ok (MkHeap (<[na := set_prev (prev chunk) nc]> cs1) (mgrs h) (brk h))
           | None =>
               M ← get_mgr h (mgr chunk);
               match mgr chunk with
               | Some ma =>
                   Ok (MkHeap cs1 (<[ma := set_last (prev chunk) M]> (mgrs h)) (brk h))
               | None => Err NullDeref
               end
           end;
      M ← get_mgr h2 (mgr chunk);
      match mgr chunk with
      | Some ma =>
          let M' := set_totalloc (wrap (totalloc M - alloc chunk)) M in
          Ok (MkHeap (delete a (chunks h2)) (<[ma := M']> (mgrs h2)) (brk h2))
      | None => Err NullDeref
      end
  | _, _ => Err NullDeref
  end.

(** [memcpy(dst, src, n)] between two payloads. *)
Definition memcpy (dst src : option addr) (n : Z) (h : heap) : res heap :=
  d ← get_chunk h dst;
  s ← get_chunk h src;
  if (Z.of_nat (length (payload s)) <? n) || (Z.of_nat (length (payload d)) <? n)
  then Err OutOfBounds
  else match dst with
       | Some da =>
           let bytes := take (Z.to_nat n) (payload s) ++ drop (Z.to_nat n) (payload d) in
           Ok (upd_chunks (<[da := set_payload bytes d]>) h)
       | None => Err NullDeref
       end.

(** [mmatic_realloc_]. *)
Definition mmatic_realloc_ (mem : option addr) (size : Z) (mgr_or_mem : option addr)
    (h : heap) : res (heap * option addr) :=
  IS_CHUNK h mem ≫= λ is_chunk : bool,
  if negb is_chunk then Err AssertFailed else
  chunk ← get_chunk h mem;
  let mgr_or_mem := match mgr_or_mem with None => mgr chunk | Some _ => mgr_or_mem end in
  let size := if size =? 0 then alloc chunk else size in
  '(h1, newmem) ← mmatic_allocate size mgr_or_mem false (shared chunk) h;
  h2 ← memcpy newmem mem (alloc chunk) h1;
  h3 ← mmatic_freeptr_ mem h2;
  Ok (h3, newmem).

(** [mmatic_free_]: release every chunk of the manager, then the manager. *)
Fixpoint free_chain (fuel : nat) (c : option addr) (cs : gmap addr mmchunk)
    : gmap addr mmchunk :=
  match fuel, c with
  | S k, Some a =>
      match cs !! a with
      | Some ch => free_chain k (next ch) (delete a cs)
      | None => cs
      end
  | _, _ => cs
  end.

Definition mmatic_free_ (mgr_or_mem : option addr) (h : heap) : res heap :=
  m ← resolve_owner h mgr_or_mem;
  IS_MGR h m ≫= λ is_mgr : bool,
  if negb is_mgr then Err AssertFailed else
  M ← get_mgr h m;
  match m with
  | Some ma =>
      Ok (MkHeap (free_chain (size (chunks h)) (first M) (chunks h))
                 (delete ma (mgrs h)) (brk h))
  | None => Err NullDeref
  end.

(** The traversal of [mmatic_summary]: the chunks after the sentinel, in
    list order. *)
Fixpoint walk (fuel : nat) (cs : gmap addr mmchunk) (c : option addr) : list addr :=
  match fuel, c with
  | S k, Some a =>
      match cs !! a with
      | Some ch => a :: walk k cs (next ch)
      | None => []
      end
  | _, _ => []
  end.

Definition mmatic_summary (h : heap) (m : addr) : list addr :=
  match mgrs h !! m with
  | Some M =>
      match get_chunk h (first M) with
      | Ok s => walk (size (chunks h)) (chunks h) (next s)
      | Err _ => []
      end
  | None => []
  end.

(** ** C strings in payload cells *)

(** The characters of the C string that starts the cells [d]: reading
    stops at the first NUL; it faults on an indeterminate cell or when the
    cells end before a NUL is met. *)
Fixpoint cstr (d : list cell) : res (list ascii) :=
  match d with
  | [] => Err OutOfBounds
  | None :: _ => Err Uninitialised
  | Some c :: d' =>
      if decide (c = NUL) then Ok [] else r ← cstr d'; Ok (c :: r)
  end.

(** At most [n] characters of the string that starts [d], as [strncat]
    and [strncpy] read them. *)
Fixpoint strn_read (n : nat) (d : list cell) : res (list ascii) :=
  match n with
  | O => Ok []
  | S k =>
      match d with
      | [] => Err OutOfBounds
      | None :: _ => Err Uninitialised
      | Some c :: d' =>
          if decide (c = NUL) then Ok [] else r ← strn_read k d'; Ok (c :: r)
      end
  end.

(** Overwrite the cells of [d] from offset [off] with [bytes]. *)
Definition write_at (off : Z) (bytes : list cell) (d : list cell) : res (list cell) :=
  if (off <? 0) || (Z.of_nat (length d) <? off + Z.of_nat (length bytes))
  then Err OutOfBounds
  else Ok (take (Z.to_nat off) d ++ bytes ++
           drop (Z.to_nat off + length bytes) d).

Definition read_at (off : Z) (d : list cell) : res ascii :=
  if off <? 0 then Err OutOfBounds else
  match d !! Z.to_nat off with
  | None => Err OutOfBounds
  | Some None => Err Uninitialised
  | Some (Some c) => Ok c
  end.

Definition terminated (t : list ascii) : list cell := map Some t ++ [Some NUL].

Definition load_payload (h : heap) (p : option addr) : res (list cell) :=
  c ← get_chunk h p; Ok (payload c).

Definition store_payload (p : option addr) (d : list cell) (h : heap) : res heap :=
  c ← get_chunk h p;
  match p with
  | Some a => Ok (upd_chunks (<[a := set_payload d c]>) h)
  | None => Err NullDeref
  end.

(** A [const char *] argument: NULL, or the bytes readable from it. *)
Definition cptr := option (list ascii).

Definition src_cells (s : cptr) : res (list cell) :=
  match s with
  | None => Err NullDeref
  | Some bytes => Ok (map Some bytes)
  end.

Definition strlen (s : cptr) : res Z :=
  d ← src_cells s; t ← cstr d; Ok (Z.of_nat (length t)).

Definition strcpy_cells (dst : option addr) (src : list cell) (h : heap) : res heap :=
  t ← cstr src;
  d ← load_payload h dst;
  d' ← write_at 0 (terminated t) d;
  store_payload dst d' h.

Definition strcat_cells (dst : option addr) (src : list cell) (h : heap) : res heap :=
  d ← load_payload h dst;
  t0 ← cstr d;
  t ← cstr src;
  d' ← write_at (Z.of_nat (length t0)) (terminated t) d;
  store_payload dst d' h.

(** The count of [strncat] and [strncpy] is a [size_t]: a negative [int]
    handed in is a count no source and no payload reaches. *)
Definition strncat_cells (dst : option addr) (src : list cell) (n : Z) (h : heap) : res heap :=
  d ← load_payload h dst;
  t0 ← cstr d;
  t ← (if n <? 0 then cstr src else strn_read (Z.to_nat n) src);
  d' ← write_at (Z.of_nat (length t0)) (terminated t) d;
  store_payload dst d' h.

(** [strncpy] writes exactly [n] bytes: the characters read, then NULs. *)
Definition strncpy_cells (dst : option addr) (src : list cell) (n : Z) (h : heap) : res heap :=
  d ← load_payload h dst;
  if n <? 0 then Err OutOfBounds else
  t ← strn_read (Z.to_nat n) src;
  d' ← write_at 0 (map Some t ++ replicate (Z.to_nat n - length t) (Some NUL)) d;
  store_payload dst d' h.

Definition store_char (p : option addr) (i : Z) (c : ascii) (h : heap) : res heap :=
  d ← load_payload h p;
  d' ← write_at i [Some c] d;
  store_payload p d' h.

Definition load_char (p : option addr) (i : Z) (h : heap) : res ascii :=
  d ← load_payload h p; read_at i d.

(** [isgraph] in the C locale. *)
Definition isgraph (c : ascii) : bool :=
  let n := nat_of_ascii c in (33 <=? n)%nat && (n <=? 126)%nat.

(** [vsnprintf(buf + off, n, ...)] where the format renders to [r]: at most
    [n - 1] characters and a NUL are written; the full length is returned. *)
Definition vsnprintf (p : option addr) (off n : Z) (r : list ascii) (h : heap) : res (heap * Z) :=
  if n <=? 0 then Ok (h, Z.of_nat (length r)) else
  d ← load_payload h p;
  d' ← write_at off (terminated (take (Z.to_nat (n - 1)) r)) d;
  h' ← store_payload p d' h;
  Ok (h', Z.of_nat (length r)).

(** ** The string buffer *)

(** [struct xstr], declared in [lib.h]. *)
Record xstr : Type := MkXstr {
  s : option addr;
  len : Z;
  a : Z;
  mm : option addr
}.

(** [sizeof(xstr)], which [lib.h] fixes. *)
Variable sizeof_xstr : Z.

(** Modelled from the spec: the macros [mmatic_alloc] and [mmfreeptr] of
    [lib.h] (allocate(size, owner) with no zero fill on the ordinary heap,
    and freeOne(pointer)). *)
Definition mmatic_alloc (size : Z) (m : option addr) (h : heap) : res (heap * option addr) :=
  mmatic_allocate size m false false h.

Definition mmfreeptr (p : option addr) (h : heap) : res heap :=
  mmatic_freeptr_ p h.

(** [xstr_reserve].  A negative [int] handed in for the [size_t l] is a
    huge size whose [l + 1] no payload can hold. *)
Definition xstr_reserve (xs : xstr) (l : Z) (h : heap) : res (heap * xstr) :=
  if l <? 0 then Err OutOfBounds else
  if a xs >? l then Ok (h, xs) else
  '(h1, new_str) ← mmatic_alloc (l + 1) (mm xs) h;
  match s xs with
  | Some _ =>
      old ← load_payload h1 (s xs);
      h2 ← strcpy_cells new_str old h1;
      h3 ← mmfreeptr (s xs) h2;
      Ok (h3, MkXstr new_str (len xs) l (mm xs))
  | None =>
      h2 ← store_char new_str 0 NUL h1;
      Ok (h2, MkXstr new_str 0 l (mm xs))
  end.

Definition xstr_append (sx : xstr) (str : cptr) (h : heap) : res (heap * xstr) :=
  match str with
  | None => Ok (h, sx)
  | Some _ =>
      slen ← strlen str;
      if slen =? 0 then Ok (h, sx) else
      let slen := slen + len sx in
      '(h1, sx1) ← xstr_reserve sx slen h;
      src ← src_cells str;
      h2 ← strcat_cells (s sx1) src h1;
      Ok (h2, MkXstr (s sx1) slen (a sx1) (mm sx1))
  end.

Definition xstr_append_size (sx : xstr) (str : cptr) (size : Z) (h : heap)
    : res (heap * xstr) :=
  match str with
  | None => Ok (h, sx)
  | Some _ =>
      if size =? 0 then Ok (h, sx) else
      let slen := len sx + size in
      '(h1, sx1) ← xstr_reserve sx slen h;
      src ← src_cells str;
      h2 ← strncat_cells (s sx1) src size h1;
      Ok (h2, MkXstr (s sx1) slen (a sx1) (mm sx1))
  end.

(** [MAX(len + 2, 1.5 * len)] converted to [size_t]. *)
Definition grow_target (n : Z) : Z := Z.max (n + 2) (3 * n / 2).

(** [xstr_append_char].  The [if (sx->len + 2 >= sx->a);] guards an empty
    statement, so the call of [xstr_reserve] is not conditional. *)
Definition xstr_append_char (sx : xstr) (c : ascii) (h : heap) : res (heap * xstr) :=
  if decide (c = NUL) then Ok (h, sx) else
  '(h1, sx1) ← xstr_reserve sx (grow_target (len sx)) h;
  h2 ← store_char (s sx1) (len sx1) c h1;
  h3 ← store_char (s sx1) (len sx1 + 1) NUL h2;
  Ok (h3, MkXstr (s sx1) (len sx1 + 1) (a sx1) (mm sx1)).

Definition xstr_set (xs : xstr) (str : cptr) (h : heap) : res (heap * xstr) :=
  l ← strlen str;
  '(h1, xs1) ← xstr_reserve xs l h;
  src ← src_cells str;
  h2 ← strcpy_cells (s xs1) src h1;
  Ok (h2, MkXstr (s xs1) l (a xs1) (mm xs1)).

Definition xstr_set_size (xs : xstr) (str : cptr) (size : Z) (h : heap)
    : res (heap * xstr) :=
  '(h1, xs1) ← xstr_reserve xs size h;
  src ← src_cells str;
  h2 ← strncpy_cells (s xs1) src size h1;
  h3 ← store_char (s xs1) size NUL h2;
  Ok (h3, MkXstr (s xs1) size (a xs1) (mm xs1)).

Definition xstr_free (xs : xstr) (h : heap) : res (heap * xstr) :=
  match s xs with
  | Some _ =>
      h1 ← mmfreeptr (s xs) h;
      Ok (h1, MkXstr None 0 0 (mm xs))
  | None => Ok (h, xs)
  end.

Definition xstr_init_val (ch : cptr) (m : option addr) (h : heap) : res (heap * xstr) :=
  xstr_set (MkXstr None 0 0 m) ch h.

Definition xstr_init (m : option addr) (h : heap) : res (heap * xstr) :=
  xstr_init_val (Some [NUL]) m h.

(** [xstr_create]: the structure itself is a chunk of the manager. *)
Definition xstr_create (str : cptr) (m : option addr) (h : heap)
    : res (heap * option addr * xstr) :=
  '(h1, new) ← mmatic_alloc sizeof_xstr m h;
  '(h2, xs) ← xstr_init_val (match str with Some _ => str | None => Some [NUL] end) m h1;
  Ok (h2, new, xs).

(** The three loops of [xstr_strip]. *)
Fixpoint strip_fwd (n : nat) (i : Z) (p : option addr) (h : heap) : res Z :=
  match n with
  | O => Ok i
  | S k => c ← load_char p i h; if isgraph c then Ok i else strip_fwd k (i + 1) p h
  end.

Fixpoint strip_bwd (n : nat) (j : Z) (p : option addr) (h : heap) : res Z :=
  match n with
  | O => Ok j
  | S k => c ← load_char p j h; if isgraph c then Ok j else strip_bwd k (j - 1) p h
  end.

Fixpoint strip_copy (n : nat) (i b : Z) (p ret : option addr) (h : heap) : res (heap * Z) :=
  match n with
  | O => Ok (h, b)
  | S k =>
      d ← load_payload h p;
      if i <? 0 then Err OutOfBounds else
      match d !! Z.to_nat i with
      | None => Err OutOfBounds
      | Some c =>
          r ← load_payload h ret;
          r' ← write_at b [c] r;
          h' ← store_payload ret r' h;
          strip_copy k (i + 1) (b + 1) p ret h'
      end
  end.

Definition xstr_strip (xs : xstr) (h : heap) : res (heap * option addr) :=
  i ← strip_fwd (Z.to_nat (len xs)) 0 (s xs) h;
  j ← strip_bwd (Z.to_nat (len xs - i + 1)) (len xs) (s xs) h;
  '(h1, ret) ← mmatic_alloc (j - i + 2) (mm xs) h;
  '(h2, b) ← strip_copy (Z.to_nat (j + 1 - i)) i 0 (s xs) ret h1;
  h3 ← store_char ret b NUL h2;
  Ok (h3, ret).

(** [xstr_set_format]; the format renders to [r1] in the measuring pass
    and to [r2] in the writing pass. *)
Definition xstr_set_format (xs : xstr) (r1 r2 : list ascii) (h : heap)
    : res (heap * xstr * Z) :=
  let n := Z.of_nat (length r1) in
  '(h1, xs1) ← xstr_reserve xs n h;
  '(h2, n2) ← vsnprintf (s xs1) 0 (a xs1 + 1) r2 h1;
  let n := if n2 =? n then n else -1 in
  Ok (h2, if n >? 0 then MkXstr (s xs1) n (a xs1) (mm xs1) else xs1, n).

Definition xstr_append_format (xs : xstr) (r1 r2 : list ascii) (h : heap)
    : res (heap * xstr * Z) :=
  let n := Z.of_nat (length r1) in
  '(h1, xs1) ← xstr_reserve xs (len xs + n) h;
  '(h2, n2) ← vsnprintf (s xs1) (len xs1) (a xs1 - len xs1 + 1) r2 h1;
  let n := if n2 =? n then n else -1 in
  Ok (h2, if n >? 0 then MkXstr (s xs1) (len xs1 + n) (a xs1) (mm xs1) else xs1, n).

(** ** The chunk-list invariant *)

(** [dll cs p prv l]: chunk [p] has [prev = prv]; following [next] from it
    visits exactly [l] and then reaches NULL, every [prev] pointing back. *)
Fixpoint dll (cs : gmap addr mmchunk) (p : addr) (prv : option addr) (l : list addr) : Prop :=
  match l with
  | [] => ∃ c, cs !! p = Some c ∧ prev c = prv ∧ next c = None
  | q :: l' => ∃ c, cs !! p = Some c ∧ prev c = prv ∧ next c = Some q ∧
                    dll cs q (Some p) l'
  end.

Definition alloc_at (cs : gmap addr mmchunk) (a : addr) : Z :=
  match cs !! a with Some c => alloc c | None => 0 end.

Fixpoint sum_alloc (cs : gmap addr mmchunk) (l : list addr) : Z :=
  match l with
  | [] => 0
  | a :: l' => alloc_at cs a + sum_alloc cs l'
  end.

Fixpoint remove_addr (a : addr) (l : list addr) : list addr :=
  match l with
  | [] => []
  | x :: l' => if decide (x = a) then l' else x :: remove_addr a l'
  end.

Definition live_chunk (c : mmchunk) : Prop :=
  tag c = TAG_CHUNK ∧ 0 ≤ alloc c ∧ length (payload c) = Z.to_nat (alloc c).

(** Manager [m], whose record is [M] and whose sentinel is [f], tracks
    exactly the chunks [l], oldest first. *)
Record mgr_wf (h : heap) (m : addr) (M : mmatic) (f : addr) (l : list addr) : Prop := {
  wf_tag : mtag M = TAG_MGR;
  wf_first : first M = Some f;
  wf_dll : dll (chunks h) f None l;
  wf_last : last M = Some (List.last l f);
  wf_total : totalloc M = sum_alloc (chunks h) l;
  wf_range : totalloc M < totalloc_mod;
  wf_nodup : NoDup (f :: l);
  wf_live : ∀ a, a ∈ l → ∃ c, chunks h !! a = Some c ∧ live_chunk c;
  wf_owner : ∀ a, (∃ c, chunks h !! a = Some c ∧ mgr c = Some m) ↔ a ∈ f :: l
}.

Definition mgr_inv (h : heap) (m : addr) (l : list addr) : Prop :=
  ∃ M f, mgrs h !! m = Some M ∧ mgr_wf h m M f l.

(** The whole store: every manager satisfies its invariant for the list
    [L m] of its live chunks, and the system allocator has never handed out
    an address at or above [brk]. *)
Record heap_inv (h : heap) (L : addr → list addr) : Prop := {
  hi_mgrs : ∀ m, is_Some (mgrs h !! m) → mgr_inv h m (L m);
  hi_chunks_fresh : ∀ a, is_Some (chunks h !! a) → (a < brk h)%positive;
  hi_mgrs_fresh : ∀ a, is_Some (mgrs h !! a) → (a < brk h)%positive;
  hi_owned : ∀ a c, chunks h !! a = Some c →
             ∃ m, mgr c = Some m ∧ is_Some (mgrs h !! m)
}.

(** [p] is the handle of a manager: a manager record that carries the
    manager tag lives at [p]. *)
Definition is_manager (h : heap) (p : option addr) : bool :=
  match p with
  | None => false
  | Some a => match mgrs h !! a with
              | Some m => mtag m =? TAG_MGR
              | None => false
              end
  end.

(** The owner argument [o] stands for the manager [m]: the resolution at
    the head of [mmatic_allocate] yields [m], and a manager record lives
    there.  This is the case when [o] is the handle of [m], and when [o]
    points to the payload of a chunk of [m] whose first bytes can be read
    and are not the manager tag. *)
Definition owner_of (h : heap) (o : option addr) (m : addr) : Prop :=
  resolve_owner h o = Ok (Some m) ∧ is_Some (mgrs h !! m).

(** Two states of a chunk that differ at most in the list links. *)
Definition same_data (o o' : option mmchunk) : Prop :=
  match o, o' with
  | Some c, Some c' =>
      tag c' = tag c ∧ shared c' = shared c ∧ alloc c' = alloc c ∧
      mgr c' = mgr c ∧ payload c' = payload c
  | None, None => True
  | _, _ => False
  end.

(** Two states of a chunk that differ at most in the payload bytes. *)
Definition same_header (o o' : option mmchunk) : Prop :=
  match o, o' with
  | Some c, Some c' =>
      tag c' = tag c ∧ shared c' = shared c ∧ alloc c' = alloc c ∧
      next c' = next c ∧ prev c' = prev c ∧ mgr c' = mgr c ∧
      length (payload c') = length (payload c)
  | None, None => True
  | _, _ => False
  end.

Definition upd_live (m : addr) (l : list addr) (L : addr → list addr) : addr → list addr :=
  fun x => if decide (x = m) then l else L x.

Definition links (o : option mmchunk) : option (option addr * option addr) :=
  (fun c => (next c, prev c)) <$> o.

(** ** The buffer invariant *)

(** Buffer [xs] of manager [m] holds the string [t]: its length field is
    the length of [t], and either the buffer is released (no storage, no
    capacity, empty content) or its storage is a live chunk of [m] with
    [a xs + 1] payload bytes that start with the characters of [t] and a
    NUL. *)
Record xinv (h : heap) (L : addr → list addr) (m : addr) (xs : xstr) (t : list ascii)
    : Prop := {
  xi_mm : mm xs = Some m;
  xi_mgr : is_manager h (Some m) = true;
  xi_len : len xs = Z.of_nat (length t);
  xi_nul : NUL ∉ t;
  xi_store :
    match s xs with
    | Some p => p ∈ L m ∧
        ∃ c rest, chunks h !! p = Some c ∧ payload c = terminated t ++ rest ∧
                  Z.of_nat (length (payload c)) = a xs + 1
    | None => t = [] ∧ a xs = 0
    end
}.

(** The content of a buffer as C sees it. *)
Definition xstr_content (h : heap) (xs : xstr) : res (list ascii) :=
  d ← load_payload h (s xs); cstr d.

(** The counter can take [n] more bytes for manager [m]. *)
Definition fits (h : heap) (L : addr → list addr) (m : addr) (n : Z) : Prop :=
  sum_alloc (chunks h) (L m) + n < totalloc_mod.

(** ** What [strip] is to return *)

(** After the spec's words: the content with its leading characters that
    are not printable removed ... *)
Fixpoint skip_ungraph (t : list ascii) : list ascii :=
  match t with
  | [] => []
  | c :: t' => if isgraph c then t else skip_ungraph t'
  end.

(** ... and the trailing ones as well. *)
Definition stripped (t : list ascii) : list ascii :=
  rev (skip_ungraph (rev (skip_ungraph t))).

(** ** What the spec asks of a buffer, and sample runs *)

(** After the spec's words: capacity ≥ length, and the backing storage,
    when non-null, holds a terminated sequence of [len] characters. *)
Definition xstr_ok (h : heap) (xs : xstr) : Prop :=
  len xs ≤ a xs ∧
  match s xs with
  | Some _ => ∃ t, xstr_content h xs = Ok t ∧ Z.of_nat (length t) = len xs
  | None => True
  end.

(** A loop of [xstr_append_char] calls over the characters of [cs]. *)
Fixpoint append_chars (xs : xstr) (cs : list ascii) (h : heap) : res (heap * xstr) :=
  match cs with
  | [] => Ok (h, xs)
  | c :: cs' => '(h1, xs1) ← xstr_append_char xs c h; append_chars xs1 cs' h1
  end.

(** The number of chunks the system allocator handed out between two
    stores. *)
Definition allocations (h h' : heap) : Z := Z.pos (brk h') - Z.pos (brk h).

(** A manager on the empty store, a buffer of that manager initialised
    with [str], and an allocation of [n] zeroed bytes. *)
Definition fresh_mgr : heap * option addr := mmatic_create empty_heap.

Definition buffer_of (str : string) : res (heap * xstr) :=
  xstr_init_val (Some (list_ascii_of_string str ++ [NUL])) (snd fresh_mgr) (fst fresh_mgr).

Definition block_of (n : Z) : res (heap * option addr) :=
  mmatic_allocate n (snd fresh_mgr) true false (fst fresh_mgr).

(** A store in good order together with a buffer of manager [m] that
    holds [t]. *)
Definition buffer_state (h : heap) (L : addr → list addr) (m : addr) (xs : xstr)
    (t : list ascii) : Prop :=
  heap_inv h L ∧ xinv h L m xs t.

(** The live chunks of the sample manager once it has a buffer. *)
Definition sample_live : addr → list addr :=
  fun x => if decide (x = 1%positive) then [3%positive] else [].

(** ** The remaining functions of [mmatic.c] and [xstr.c] *)

(** [BUFSIZ] of [stdio.h]. *)
Variable BUFSIZ : Z.

(** Modelled from the spec: the macro [mmalloc] of [lib.h], which is
    [mmatic_alloc] with the variable [mm] of the calling function as
    owner. *)
Definition mmalloc (size : Z) (mm_ : option addr) (h : heap) : res (heap * option addr) :=
  mmatic_alloc size mm_ h.

(** [mmatic_freeptrs]: [mmatic_freeptr_] on the address of its argument. *)
Definition mmatic_freeptrs (ptr : option addr) (h : heap) : res heap :=
  mmatic_freeptr_ ptr h.

(** [mmatic_strdup_]. *)
Definition mmatic_strdup_ (str : cptr) (mgr_ : option addr) (h : heap)
    : res (heap * option addr) :=
  match str with
  | None => Ok (h, None)
  | Some _ =>
      n ← strlen str;
      '(h1, newm) ← mmatic_allocate (n + 1) mgr_ false false h;
      src ← src_cells str;
      h2 ← strcpy_cells newm src h1;
      Ok (h2, newm)
  end.

(** [mmatic_printf_], the format rendering to [r]. *)
Definition mmatic_printf_ (mm_ : option addr) (r : list ascii) (h : heap)
    : res (heap * option addr) :=
  '(h1, buf) ← mmalloc BUFSIZ mm_ h;
  '(h2, _) ← vsnprintf buf 0 BUFSIZ r h1;
  Ok (h2, buf).

(** [xstr_to_char]. *)
Definition xstr_to_char (sx : xstr) : option addr := s sx.

(** [xstr_dup]: the copy is a chunk of the manager [mm_] handed in. *)
Definition xstr_dup (sx : xstr) (mm_ : option addr) (h : heap) : res (heap * option addr) :=
  '(h1, ret) ← mmalloc (len sx + 1) mm_ h;
  src ← load_payload h1 (s sx);
  h2 ← strcpy_cells ret src h1;
  Ok (h2, ret).

(** [xstr_stripch]: a buffer on the stack is initialised, set, stripped
    and released. *)
Definition xstr_stripch (str : cptr) (mm_ : option addr) (h : heap)
    : res (heap * option addr) :=
  '(h1, xs) ← xstr_init mm_ h;
  '(h2, xs) ← xstr_set xs str h1;
  '(h3, ret) ← xstr_strip xs h2;
  '(h4, _) ← xstr_free xs h3;
  Ok (h4, ret).

(** * Proofs *)

Hypothesis totalloc_mod_pos : 0 < totalloc_mod.

(** ** Lists of chunks *)

Lemma last_cons_default (q p : addr) (l : list addr) :
  List.last (q :: l) p = List.last l q.
Proof.
  revert p q. induction l as [|x l IH]; intros p q; [done|].
  change (List.last (q :: x :: l) p) with (List.last (x :: l) p).
  by rewrite !IH.
Qed.

Lemma last_elem (p : addr) (l : list addr) : List.last l p ∈ p :: l.
Proof.
  revert p. induction l as [|x l IH]; intros p.
  - simpl. left.
  - rewrite last_cons_default. right. apply IH.
Qed.

Lemma dll_ext cs cs' l : ∀ p prv,
  (∀ x, x ∈ p :: l → links (cs' !! x) = links (cs !! x)) →
  dll cs p prv l → dll cs' p prv l.
Proof.
  induction l as [|q l IH]; intros p prv Hag; simpl.
  - intros (c & Hc & Hp & Hn).
    specialize (Hag p (list_elem_of_here _ _)). rewrite Hc in Hag.
    destruct (cs' !! p) as [c'|]; [|done]. simpl in Hag.
    exists c'. split; [done|]. injection Hag as H1 H2. split; congruence.
  - intros (c & Hc & Hp & Hn & Hd).
    pose proof (Hag p (list_elem_of_here _ _)) as Hp'. rewrite Hc in Hp'.
    destruct (cs' !! p) as [c'|]; [|done]. simpl in Hp'.
    exists c'. split; [done|]. injection Hp' as H1 H2.
    repeat split; [congruence..|].
    apply IH; [|done]. intros x Hx. apply Hag. by right.
Qed.

Lemma dll_lookup cs l : ∀ p prv x,
  dll cs p prv l → x ∈ p :: l → is_Some (cs !! x).
Proof.
  induction l as [|q l IH]; intros p prv x; simpl.
  - intros (c & Hc & _) Hx. apply list_elem_of_singleton in Hx as ->. by eexists.
  - intros (c & Hc & _ & _ & Hd) Hx.
    apply elem_of_cons in Hx as [->|Hx]; [by eexists|]. by eapply IH.
Qed.

Lemma dll_last cs l : ∀ p prv,
  dll cs p prv l → ∃ c, cs !! List.last l p = Some c ∧ next c = None.
Proof.
  induction l as [|q l IH]; intros p prv; cbn [dll].
  - intros (c & Hc & _ & Hn). by exists c.
  - intros (c & Hc & _ & _ & Hd). rewrite last_cons_default. by eapply IH.
Qed.

Lemma dll_snoc cs l a ca : ∀ p prv lc,
  dll cs p prv l → NoDup (p :: l) → a ∉ p :: l →
  cs !! List.last l p = Some lc →
  prev ca = Some (List.last l p) → next ca = None →
  dll (<[List.last l p := set_next (Some a) lc]> (<[a := ca]> cs)) p prv (l ++ [a]).
Proof.
  induction l as [|q l IH]; intros p prv lc; cbn [dll app].
  - intros (c & Hc & Hp & Hn) _ Ha Hl Hpa Hna. cbn [List.last] in *. simplify_eq.
    exists (set_next (Some a) c). rewrite lookup_insert_eq. repeat split; [done..|].
    exists ca. rewrite lookup_insert_ne by set_solver. by rewrite lookup_insert_eq.
  - intros (c & Hc & Hp & Hn & Hd) Hnd Ha.
    rewrite last_cons_default. intros Hl Hpa Hna.
    apply NoDup_cons in Hnd as [Hpl Hnd].
    exists c. split.
    { rewrite !lookup_insert_ne; [done|set_solver|].
      intros <-. apply Hpl, last_elem. }
    repeat split; [done..|].
    apply IH; try done. set_solver.
Qed.

Lemma last_elem_nonempty (p q : addr) (l : list addr) : List.last (q :: l) p ∈ q :: l.
Proof. rewrite last_cons_default. apply last_elem. Qed.

Lemma dll_head_ext cs cs' l n prv prv' c c' :
  dll cs n prv l → cs !! n = Some c → cs' !! n = Some c' →
  next c' = next c → prev c' = prv' →
  (∀ x, x ∈ l → links (cs' !! x) = links (cs !! x)) →
  dll cs' n prv' l.
Proof.
  destruct l as [|q l]; cbn [dll].
  - intros (c0 & Hc0 & Hp & Hn) Hc Hc' Hnx Hpv _. simplify_eq.
    exists c'. repeat split; congruence.
  - intros (c0 & Hc0 & Hp & Hn & Hd) Hc Hc' Hnx Hpv Hag. simplify_eq.
    exists c'. repeat split; [congruence..|].
    eapply dll_ext; [|done]. done.
Qed.

Lemma remove_addr_subseteq a l x : x ∈ remove_addr a l → x ∈ l.
Proof.
  induction l as [|y l IH]; simpl; [done|].
  destruct (decide (y = a)); set_solver.
Qed.

Lemma remove_addr_elem a l x : NoDup l → x ∈ remove_addr a l ↔ x ∈ l ∧ x ≠ a.
Proof.
  induction l as [|y l IH]; simpl; intros Hnd; [set_solver|].
  apply NoDup_cons in Hnd as [Hy Hnd].
  destruct (decide (y = a)) as [->|Hne]; [set_solver|].
  rewrite elem_of_cons, IH by done. set_solver.
Qed.

Lemma remove_addr_NoDup a l : NoDup l → NoDup (remove_addr a l).
Proof.
  induction l as [|y l IH]; simpl; intros Hnd; [done|].
  apply NoDup_cons in Hnd as [Hy Hnd].
  destruct (decide (y = a)); [done|].
  apply NoDup_cons. split; [|by apply IH].
  intros Hin. by apply Hy, (remove_addr_subseteq a).
Qed.

Lemma sum_alloc_ext cs cs' l :
  (∀ x, x ∈ l → alloc_at cs' x = alloc_at cs x) → sum_alloc cs' l = sum_alloc cs l.
Proof.
  induction l as [|y l IH]; simpl; intros Hag; [done|].
  rewrite Hag by left. rewrite IH; [done|]. intros x Hx. apply Hag. by right.
Qed.

Lemma sum_alloc_remove cs cs' l a :
  NoDup l → a ∈ l →
  (∀ x, x ∈ l → x ≠ a → alloc_at cs' x = alloc_at cs x) →
  sum_alloc cs' (remove_addr a l) = sum_alloc cs l - alloc_at cs a.
Proof.
  induction l as [|y l IH]; simpl; intros Hnd Ha Hag; [set_solver|].
  apply NoDup_cons in Hnd as [Hy Hnd].
  destruct (decide (y = a)) as [->|Hne].
  - rewrite (sum_alloc_ext cs cs'); [lia|]. intros x Hx. apply Hag; set_solver.
  - simpl. rewrite Hag; [|by left|done].
    rewrite IH; [lia|done|set_solver|]. intros x Hx Hxa. apply Hag; set_solver.
Qed.

Lemma sum_alloc_app cs l1 l2 :
  sum_alloc cs (l1 ++ l2) = sum_alloc cs l1 + sum_alloc cs l2.
Proof. induction l1 as [|y l IH]; simpl; lia. Qed.

Lemma sum_alloc_nonneg cs l :
  (∀ x, x ∈ l → 0 ≤ alloc_at cs x) → 0 ≤ sum_alloc cs l.
Proof.
  induction l as [|y l IH]; simpl; intros H; [lia|].
  pose proof (H y (list_elem_of_here _ _)).
  assert (0 ≤ sum_alloc cs l); [|lia]. apply IH. intros x Hx. apply H. by right.
Qed.

(** Unlinking [a] as [mmatic_freeptr_] does it: the predecessor's [next]
    skips [a], the successor's [prev] (when there is one) points back to
    the predecessor, and [a] leaves the store. *)
Lemma dll_unlink cs l a : ∀ p prv,
  dll cs p prv l → NoDup (p :: l) → a ∈ l →
  ∃ ca pa pc,
    cs !! a = Some ca ∧ prev ca = Some pa ∧ cs !! pa = Some pc ∧
    pa ∈ p :: l ∧ pa ≠ a ∧
    match next ca with
    | Some na =>
        ∃ nc, cs !! na = Some nc ∧ na ∈ l ∧ na ≠ a ∧ na ≠ pa ∧
          dll (delete a (<[na := set_prev (Some pa) nc]>
                           (<[pa := set_next (Some na) pc]> cs)))
              p prv (remove_addr a l) ∧
          List.last (remove_addr a l) p = List.last l p ∧ List.last l p ≠ a
    | None =>
        dll (delete a (<[pa := set_next None pc]> cs)) p prv (remove_addr a l) ∧
        List.last l p = a ∧ List.last (remove_addr a l) p = pa
    end.
Proof.
  induction l as [|q l IH]; intros p prv Hd Hnd Ha; [set_solver|].
  cbn [dll] in Hd. destruct Hd as (c & Hc & Hp & Hn & Hd).
  apply NoDup_cons in Hnd as [Hpl Hnd].
  assert (p ≠ q) as Hpq by set_solver.
  cbn [remove_addr]. destruct (decide (q = a)) as [->|Hqa].
  - apply NoDup_cons in Hnd as [Hal Hnd].
    destruct l as [|n l]; cbn [dll] in Hd.
    + destruct Hd as (ca & Hca & Hpa & Hna).
      exists ca, p, c. rewrite Hna. repeat split; try done; [set_solver|].
      exists (set_next None c).
      rewrite lookup_delete_ne, lookup_insert_eq by done. done.
    + destruct Hd as (ca & Hca & Hpa & Hna & Hd).
      assert (n ≠ a) by set_solver. assert (n ≠ p) by set_solver.
      destruct (dll_lookup _ _ _ _ n Hd (list_elem_of_here _ _)) as [nc Hnc].
      exists ca, p, c. rewrite Hna. repeat split; try done; [set_solver|].
      exists nc. repeat split; try done; [set_solver| |].
      * cbn [dll]. exists (set_next (Some n) c).
        rewrite lookup_delete_ne, lookup_insert_ne, lookup_insert_eq by done.
        repeat split; try done.
        eapply (dll_head_ext cs _ l n (Some a) (Some p) nc (set_prev (Some p) nc));
          try done.
        { rewrite lookup_delete_ne, lookup_insert_eq by done. done. }
        intros x Hx. assert (x ≠ a) by set_solver.
        assert (x ≠ n) by (apply NoDup_cons in Hnd as [? _]; set_solver).
        assert (x ≠ p) by set_solver.
        by rewrite lookup_delete_ne, !lookup_insert_ne.
      * pose proof (last_elem_nonempty p n l) as Hl.
        change (List.last (a :: n :: l) p) with (List.last (n :: l) p).
        set_solver.
  - assert (a ∈ l) as Hal by set_solver.
    destruct (IH q (Some p) Hd Hnd Hal) as (ca & pa & pc & Hca & Hpa & Hpc & Hin & Hne & Hm).
    assert (p ≠ a) by set_solver. assert (p ≠ pa) by set_solver.
    exists ca, pa, pc. repeat split; try done; [set_solver|].
    destruct (next ca) as [na|].
    + destruct Hm as (nc & Hnc & Hnl & Hna & Hnp & Hd' & Hl1 & Hl2).
      assert (p ≠ na) by set_solver.
      exists nc. repeat split; try done; [set_solver| | |].
      * cbn [dll]. exists c.
        rewrite lookup_delete_ne, !lookup_insert_ne by done. done.
      * by rewrite !last_cons_default.
      * by rewrite last_cons_default.
    + destruct Hm as (Hd' & Hl1 & Hl2). repeat split.
      * cbn [dll]. exists c.
        rewrite lookup_delete_ne, !lookup_insert_ne by done. done.
      * by rewrite last_cons_default.
      * by rewrite last_cons_default.
Qed.

(** ** Framing a manager's invariant *)

Lemma same_header_refl o : same_header o o.
Proof. destruct o; simpl; auto 10. Qed.

Lemma same_header_links o o' : same_header o o' → links o' = links o.
Proof.
  destruct o as [c|], o' as [c'|]; simpl; try done.
  intros (_ & _ & _ & -> & -> & _). done.
Qed.

Lemma same_header_alloc cs cs' x :
  same_header (cs !! x) (cs' !! x) → alloc_at cs' x = alloc_at cs x.
Proof.
  unfold alloc_at. destruct (cs !! x) as [c|], (cs' !! x) as [c'|]; simpl; try done.
  intros (_ & _ & -> & _). done.
Qed.

Lemma mgr_wf_frame h h' m M f l :
  mgr_wf h m M f l →
  (∀ x, x ∈ f :: l → same_header (chunks h !! x) (chunks h' !! x)) →
  (∀ x c', chunks h' !! x = Some c' → mgr c' = Some m →
           ∃ c, chunks h !! x = Some c ∧ mgr c = Some m) →
  mgr_wf h' m M f l.
Proof.
  intros [] Hsame Hown. split; try done.
  - eapply dll_ext; [|done]. intros x Hx. by apply same_header_links, Hsame.
  - rewrite wf_total0. symmetry. apply sum_alloc_ext.
    intros x Hx. apply same_header_alloc, Hsame. by right.
  - intros x Hx. destruct (wf_live0 x Hx) as (c & Hc & Ht & Ha & Hl).
    assert (x ∈ f :: l) as Hx' by by right.
    specialize (Hsame x Hx'). rewrite Hc in Hsame.
    destruct (chunks h' !! x) as [c'|]; [|done]. simpl in Hsame.
    destruct Hsame as (Ht' & _ & Ha' & _ & _ & _ & Hl').
    exists c'. split; [done|]. unfold live_chunk. rewrite Ht', Ha', Hl'. done.
  - intros x. rewrite <- wf_owner0. split.
    + intros (c' & Hc' & Hm). eauto.
    + intros (c & Hc & Hm).
      assert (x ∈ f :: l) as Hx by (apply wf_owner0; eauto).
      specialize (Hsame x Hx). rewrite Hc in Hsame.
      destruct (chunks h' !! x) as [c'|]; [|done]. simpl in Hsame.
      destruct Hsame as (_ & _ & _ & _ & _ & Hm' & _).
      exists c'. split; [done|]. congruence.
Qed.

(** Chunk lists of two managers do not meet. *)
Lemma mgr_wf_disjoint h m M f l m' M' f' l' x :
  mgr_wf h m M f l → mgr_wf h m' M' f' l' → m ≠ m' →
  x ∈ f :: l → x ∉ f' :: l'.
Proof.
  intros W W' Hne Hx Hx'.
  apply (wf_owner _ _ _ _ _ W) in Hx as (c & Hc & Hm).
  apply (wf_owner _ _ _ _ _ W') in Hx' as (c' & Hc' & Hm').
  congruence.
Qed.

(** ** [mmatic_allocate] *)

Ltac respecialize H x Hx :=
  let T := fresh in pose proof (H x Hx) as T; clear H; rename T into H.

Ltac rsimpl := unfold mbind, res_bind, rbind in *; cbn beta iota in *.

Lemma same_data_refl o : same_data o o.
Proof. destruct o; simpl; auto 10. Qed.

Lemma is_manager_Some h o :
  is_manager h o = true → ∃ m M, o = Some m ∧ mgrs h !! m = Some M ∧ mtag M = TAG_MGR.
Proof.
  unfold is_manager. destruct o as [m|]; [|done].
  destruct (mgrs h !! m) as [M|] eqn:HM; [|done].
  intros ?%Z.eqb_eq. eauto.
Qed.

(** On a manager handle the tag test reads the record. *)
Lemma is_manager_IS_MGR h o : is_manager h o = true → IS_MGR h o = Ok true.
Proof.
  unfold is_manager, IS_MGR. destruct o as [m|]; [|done].
  destruct (mgrs h !! m) as [M|]; [|done]. by intros ->.
Qed.

Lemma IS_CHUNK_Some h o :
  IS_CHUNK h o = Ok true →
  ∃ a c, o = Some a ∧ chunks h !! a = Some c ∧ tag c = TAG_CHUNK.
Proof.
  unfold IS_CHUNK. destruct o as [a|]; [|done].
  destruct (chunks h !! a) as [c|] eqn:Hc; [|by destruct (mgrs h !! a)].
  intros [= ?%Z.eqb_eq]. eauto.
Qed.

Lemma IS_CHUNK_live h a c :
  chunks h !! a = Some c → tag c = TAG_CHUNK → IS_CHUNK h (Some a) = Ok true.
Proof. intros Hc Ht. unfold IS_CHUNK. by rewrite Hc, Ht. Qed.

Lemma owner_of_live h L o m :
  heap_inv h L → owner_of h o m →
  ∃ M f, mgrs h !! m = Some M ∧ mgr_wf h m M f (L m).
Proof. intros HI [_ Hm]. by apply (hi_mgrs _ _ HI). Qed.

Lemma resolve_owner_mgr h m M :
  mgrs h !! m = Some M → mtag M = TAG_MGR → resolve_owner h (Some m) = Ok (Some m).
Proof.
  intros HM Ht. unfold resolve_owner, IS_MGR. rewrite HM, Ht. done.
Qed.

Lemma owner_of_mgr h m M :
  mgrs h !! m = Some M → mtag M = TAG_MGR → owner_of h (Some m) m.
Proof. intros HM Ht. split; [by eapply resolve_owner_mgr|by rewrite HM]. Qed.

Lemma wf_alloc_nonneg h m M f l x :
  mgr_wf h m M f l → x ∈ l → 0 ≤ alloc_at (chunks h) x.
Proof.
  intros W Hx. destruct (wf_live _ _ _ _ _ W x Hx) as (c & Hc & _ & Ha & _).
  unfold alloc_at. by rewrite Hc.
Qed.

Lemma wf_total_nonneg h m M f l : mgr_wf h m M f l → 0 ≤ totalloc M.
Proof.
  intros W. rewrite (wf_total _ _ _ _ _ W). apply sum_alloc_nonneg.
  intros x Hx. by eapply wf_alloc_nonneg.
Qed.

Lemma mmatic_allocate_spec h L size o zero sh m :
  heap_inv h L → 0 ≤ size → owner_of h o m →
  sum_alloc (chunks h) (L m) + size < totalloc_mod →
  ∃ h' c,
    mmatic_allocate size o zero sh h = Ok (h', Some (brk h)) ∧
    chunks h !! brk h = None ∧
    chunks h' !! brk h = Some c ∧ shared c = sh ∧ alloc c = size ∧
    payload c = replicate (Z.to_nat size) (if zero then Some NUL else None) ∧
    heap_inv h' (upd_live m (L m ++ [brk h]) L) ∧
    (∀ x, x ≠ brk h → same_data (chunks h !! x) (chunks h' !! x)) ∧
    (∀ x, mtag <$> mgrs h' !! x = mtag <$> mgrs h !! x) ∧
    brk h' = Pos.succ (brk h).
Proof.
  intros HI Hsz Hres Hfit.
  destruct (owner_of_live _ _ _ _ HI Hres) as (M & f & HM & W).
  pose proof (wf_total_nonneg _ _ _ _ _ W) as Htot.
  destruct (dll_last _ _ _ _ (wf_dll _ _ _ _ _ W)) as (lc & Hlc & Hlcn).
  set (a := brk h). set (la := List.last (L m) f) in *.
  assert (chunks h !! a = None) as Hafresh.
  { destruct (chunks h !! a) eqn:E; [|done].
    pose proof (hi_chunks_fresh _ _ HI a ltac:(eauto)). unfold a in *. lia. }
  assert (a ∉ f :: L m) as Hanew.
  { intros Hin. destruct (dll_lookup _ _ _ _ a (wf_dll _ _ _ _ _ W) Hin) as [? E].
    congruence. }
  assert (la ≠ a) as Hla by (intros E; apply Hanew; rewrite <- E; apply last_elem).
  set (chunk := MkChunk TAG_CHUNK sh size None (Some la) (Some m)
                  (replicate (Z.to_nat size) (if zero then Some NUL else None))).
  set (cs' := <[la := set_next (Some a) lc]> (<[a := chunk]> (chunks h))).
  set (M' := set_totalloc (wrap (totalloc M + size)) (set_last (Some a) M)).
  exists (MkHeap cs' (<[m := M']> (mgrs h)) (Pos.succ (brk h))), chunk.
  assert (∀ x, x ≠ a → same_data (chunks h !! x) (cs' !! x)) as Hdata.
  { intros x Hx. unfold cs'. destruct (decide (x = la)) as [->|Hxl].
    - rewrite lookup_insert_eq, Hlc. simpl. done.
    - rewrite !lookup_insert_ne by done. apply same_data_refl. }
  split.
  { unfold mmatic_allocate. rewrite (proj1 Hres). rsimpl. unfold get_mgr. rewrite HM.
    cbn [malloc]. rewrite (wf_last _ _ _ _ _ W). unfold get_chunk. fold la.
    rewrite Hlc. done. }
  split; [done|]. split.
  { cbn [chunks]. unfold cs'. by rewrite lookup_insert_ne, lookup_insert_eq. }
  do 3 (split; [done|]). split; [|split; [done|split; [|done]]].
  2:{ intros x. cbn [mgrs]. destruct (decide (x = m)) as [->|?].
      - by rewrite lookup_insert_eq, HM.
      - by rewrite lookup_insert_ne. }
  split; cbn [chunks mgrs brk].
  - (* every manager *)
    intros m' [M0 HM0]. unfold upd_live. destruct (decide (m' = m)) as [->|Hne].
    + rewrite lookup_insert_eq in HM0. injection HM0 as <-.
      exists M', f. cbn [mgrs]. rewrite lookup_insert_eq. split; [done|].
      destruct W. split; cbn [chunks mgrs mtag first last totalloc M' set_totalloc set_last].
      * done.
      * done.
      * apply dll_snoc; done.
      * by rewrite last_last.
      * rewrite sum_alloc_app. simpl. unfold wrap.
        rewrite Z.mod_small by (rewrite wf_total0; lia).
        rewrite (sum_alloc_ext (chunks h) cs').
        -- unfold alloc_at, cs'.
           rewrite lookup_insert_ne, lookup_insert_eq by done. simpl. lia.
        -- intros x Hx. assert (x ≠ a) as Hxa by set_solver.
           respecialize Hdata x Hxa. unfold alloc_at.
           destruct (chunks h !! x), (cs' !! x); simpl in *; try done.
           by destruct Hdata as (_ & _ & -> & _).
      * unfold wrap. rewrite Z.mod_small by (rewrite wf_total0; lia).
        rewrite wf_total0. lia.
      * apply NoDup_cons. apply NoDup_cons in wf_nodup0 as [Hf Hnd]. split.
        -- set_solver.
        -- apply NoDup_app. repeat split; [done| |apply NoDup_singleton].
           intros x Hx ->%list_elem_of_singleton. set_solver.
      * intros x [Hx| ->%list_elem_of_singleton]%elem_of_app.
        -- destruct (wf_live0 x Hx) as (c & Hc & Hl).
           assert (x ≠ a) as Hxa by set_solver.
           respecialize Hdata x Hxa. rewrite Hc in Hdata.
           destruct (cs' !! x) as [c'|]; [|done]. simpl in Hdata.
           destruct Hdata as (Ht & _ & Ha & _ & Hp).
           exists c'. split; [done|]. unfold live_chunk. rewrite Ht, Ha, Hp. done.
        -- exists chunk. split.
           { unfold cs'. by rewrite lookup_insert_ne, lookup_insert_eq. }
           unfold live_chunk. simpl. rewrite length_replicate. done.
      * intros x. destruct (decide (x = a)) as [->|Hxa].
        -- split; [set_solver|]. intros _. exists chunk. split; [|done].
           unfold cs'. by rewrite lookup_insert_ne, lookup_insert_eq.
        -- respecialize Hdata x Hxa.
           transitivity (x ∈ f :: L m); [|set_solver].
           rewrite <- wf_owner0.
           destruct (chunks h !! x) as [c|], (cs' !! x) as [c'|]; simpl in Hdata;
             try done; try (split; intros (? & ? & ?); done).
           destruct Hdata as (_ & _ & _ & Hmg & _).
           split; intros (? & [= <-] & ?); eexists; split; try done; congruence.
    + rewrite lookup_insert_ne in HM0 by done.
      destruct (hi_mgrs _ _ HI m' ltac:(eauto)) as (M1 & f1 & HM1 & W1).
      exists M1, f1. cbn [mgrs]. rewrite lookup_insert_ne by done. split; [done|].
      eapply mgr_wf_frame; [done| |]; cbn [chunks].
      * intros x Hx.
        assert (x ≠ a).
        { intros ->. destruct (dll_lookup _ _ _ _ a (wf_dll _ _ _ _ _ W1) Hx). congruence. }
        assert (x ≠ la).
        { intros ->. eapply (mgr_wf_disjoint h m M f (L m) m' M1 f1); try done.
          apply last_elem. }
        unfold cs'. rewrite !lookup_insert_ne by done. apply same_header_refl.
      * intros x c' Hc' Hmg.
        assert (x ≠ a).
        { intros ->. unfold cs' in Hc'.
          rewrite lookup_insert_ne, lookup_insert_eq in Hc' by done.
          injection Hc' as <-. simpl in Hmg. congruence. }
        respecialize Hdata x H. rewrite Hc' in Hdata.
        destruct (chunks h !! x) as [c|]; [|done]. simpl in Hdata.
        destruct Hdata as (_ & _ & _ & Hmg' & _). exists c. split; [done|]. congruence.
  - intros x [c Hc]. destruct (decide (x = a)) as [->|Hxa]; [unfold a; lia|].
    respecialize Hdata x Hxa. rewrite Hc in Hdata.
    destruct (chunks h !! x) as [c0|] eqn:E; [|done].
    pose proof (hi_chunks_fresh _ _ HI x ltac:(eauto)). lia.
  - intros x [M0 HM0]. destruct (decide (x = m)) as [->|Hxm].
    + pose proof (hi_mgrs_fresh _ _ HI m ltac:(eauto)). lia.
    + rewrite lookup_insert_ne in HM0 by done.
      pose proof (hi_mgrs_fresh _ _ HI x ltac:(eauto)). lia.
  - intros x c Hc. destruct (decide (x = a)) as [->|Hxa].
    + unfold cs' in Hc. rewrite lookup_insert_ne, lookup_insert_eq in Hc by done.
      injection Hc as <-. exists m. split; [done|]. rewrite lookup_insert_eq. eauto.
    + respecialize Hdata x Hxa. rewrite Hc in Hdata.
      destruct (chunks h !! x) as [c0|] eqn:E; [|done]. simpl in Hdata.
      destruct Hdata as (_ & _ & _ & Hmg & _).
      destruct (hi_owned _ _ HI _ _ E) as (m0 & Hm0 & Hl0).
      exists m0. split; [congruence|].
      destruct (decide (m0 = m)) as [->|?];
        [rewrite lookup_insert_eq|rewrite lookup_insert_ne by done]; eauto.
Qed.

(** ** [mmatic_freeptr_] *)

Lemma same_data_alloc cs cs' x :
  same_data (cs !! x) (cs' !! x) → alloc_at cs' x = alloc_at cs x.
Proof.
  unfold alloc_at. destruct (cs !! x) as [c|], (cs' !! x) as [c'|]; simpl; try done.
  intros (_ & _ & -> & _). done.
Qed.

Lemma same_data_Some (cs cs' : gmap addr mmchunk) x c :
  same_data (cs !! x) (cs' !! x) → cs !! x = Some c →
  ∃ c', cs' !! x = Some c' ∧ tag c' = tag c ∧ shared c' = shared c ∧
        alloc c' = alloc c ∧ mgr c' = mgr c ∧ payload c' = payload c.
Proof.
  intros H Hc. rewrite Hc in H. destruct (cs' !! x) as [c'|]; [|done].
  exists c'. split; [done|]. apply H.
Qed.

Lemma same_data_Some_inv (cs cs' : gmap addr mmchunk) x c' :
  same_data (cs !! x) (cs' !! x) → cs' !! x = Some c' →
  ∃ c, cs !! x = Some c ∧ tag c' = tag c ∧ shared c' = shared c ∧
       alloc c' = alloc c ∧ mgr c' = mgr c ∧ payload c' = payload c.
Proof.
  intros H Hc. rewrite Hc in H. destruct (cs !! x) as [c|]; [|done].
  exists c. split; [done|]. apply H.
Qed.

Lemma unlink_heap_inv h L m M f a cs' mg' M' :
  heap_inv h L → mgrs h !! m = Some M → mgr_wf h m M f (L m) → a ∈ L m →
  dll cs' f None (remove_addr a (L m)) →
  cs' !! a = None →
  (∀ x, x ≠ a → same_data (chunks h !! x) (cs' !! x)) →
  (∀ x, x ∉ f :: L m → cs' !! x = chunks h !! x) →
  mg' !! m = Some M' →
  (∀ x, x ≠ m → mg' !! x = mgrs h !! x) →
  mtag M' = mtag M → first M' = first M →
  last M' = Some (List.last (remove_addr a (L m)) f) →
  totalloc M' = totalloc M - alloc_at (chunks h) a →
  heap_inv (MkHeap cs' mg' (brk h)) (upd_live m (remove_addr a (L m)) L).
Proof.
  intros HI HM W Ha Hdll Hgone Hdata Hout HM' Hmg Htag Hfirst Hlast Htot.
  pose proof (wf_nodup _ _ _ _ _ W) as Hnd.
  apply NoDup_cons in Hnd as [Hf Hnd].
  assert (a ≠ f) as Haf by set_solver.
  split; cbn [chunks mgrs brk].
  - intros m' [M0 HM0]. unfold upd_live, mgr_inv. cbn [mgrs].
    destruct (decide (m' = m)) as [->|Hne].
    + exists M', f. split; [done|]. split; cbn [chunks].
      * rewrite Htag. apply W.
      * rewrite Hfirst. apply W.
      * done.
      * done.
      * rewrite Htot, (wf_total _ _ _ _ _ W). symmetry.
        apply sum_alloc_remove; try done.
        intros x _ Hx. by apply same_data_alloc, Hdata.
      * rewrite Htot. pose proof (wf_range _ _ _ _ _ W).
        pose proof (wf_alloc_nonneg _ _ _ _ _ a W Ha). lia.
      * apply NoDup_cons. split; [|by apply remove_addr_NoDup].
        intros Hin. by apply Hf, (remove_addr_subseteq a).
      * intros x [Hx Hxa]%remove_addr_elem; [|done].
        destruct (wf_live _ _ _ _ _ W x Hx) as (c & Hc & Ht & Hal & Hl).
        destruct (same_data_Some _ _ _ _ (Hdata x Hxa) Hc)
          as (c' & Hc' & Ht' & _ & Ha' & _ & Hp').
        exists c'. split; [done|]. unfold live_chunk. rewrite Ht', Ha', Hp'. done.
      * intros x. destruct (decide (x = a)) as [->|Hxa].
        -- rewrite Hgone. split; [by intros (? & ? & ?)|].
           intros [?|[_ ?]%remove_addr_elem]%elem_of_cons; done.
        -- transitivity (x ∈ f :: L m).
           ++ rewrite <- (wf_owner _ _ _ _ _ W). split.
              ** intros (c' & Hc' & Hm).
                 destruct (same_data_Some_inv _ _ _ _ (Hdata x Hxa) Hc')
                   as (c & Hc & _ & _ & _ & Hmc & _).
                 exists c. split; [done|]. congruence.
              ** intros (c & Hc & Hm).
                 destruct (same_data_Some _ _ _ _ (Hdata x Hxa) Hc)
                   as (c' & Hc' & _ & _ & _ & Hmc & _).
                 exists c'. split; [done|]. congruence.
           ++ rewrite !elem_of_cons, remove_addr_elem by done. tauto.
    + rewrite Hmg in HM0 by done.
      destruct (hi_mgrs _ _ HI m' ltac:(eauto)) as (M1 & f1 & HM1 & W1).
      exists M1, f1. rewrite Hmg by done. split; [done|].
      eapply mgr_wf_frame; [done| |]; cbn [chunks].
      * intros x Hx. rewrite Hout; [apply same_header_refl|].
        intros Hx'. by eapply (mgr_wf_disjoint h m M f (L m) m' M1 f1).
      * intros x c' Hc' Hm.
        assert (x ≠ a) as Hxa by congruence.
        destruct (same_data_Some_inv _ _ _ _ (Hdata x Hxa) Hc')
          as (c & Hc & _ & _ & _ & Hmc & _).
        exists c. split; [done|]. congruence.
  - intros x [c' Hc']. assert (x ≠ a) as Hxa by congruence.
    destruct (same_data_Some_inv _ _ _ _ (Hdata x Hxa) Hc') as (c & Hc & _).
    apply (hi_chunks_fresh _ _ HI). eauto.
  - intros x [M0 HM0]. apply (hi_mgrs_fresh _ _ HI).
    destruct (decide (x = m)) as [->|Hne]; [eauto|].
    rewrite Hmg in HM0 by done. eauto.
  - intros x c' Hc'. assert (x ≠ a) as Hxa by congruence.
    destruct (same_data_Some_inv _ _ _ _ (Hdata x Hxa) Hc')
      as (c & Hc & _ & _ & _ & Hmc & _).
    destruct (hi_owned _ _ HI _ _ Hc) as (m0 & Hm0 & Hl0).
    exists m0. split; [congruence|].
    destruct (decide (m0 = m)) as [->|Hne]; [eauto|]. by rewrite Hmg.
Qed.

Lemma mmatic_freeptr_spec h L m a :
  heap_inv h L → is_Some (mgrs h !! m) → a ∈ L m →
  ∃ h',
    mmatic_freeptr_ (Some a) h = Ok h' ∧
    chunks h' !! a = None ∧ brk h' = brk h ∧
    heap_inv h' (upd_live m (remove_addr a (L m)) L) ∧
    (∀ x, x ≠ a → same_data (chunks h !! x) (chunks h' !! x)) ∧
    (∀ x, mtag <$> mgrs h' !! x = mtag <$> mgrs h !! x).
Proof.
  intros HI Hm Ha.
  destruct (hi_mgrs _ _ HI m Hm) as (M & f & HM & W).
  pose proof (wf_nodup _ _ _ _ _ W) as Hnd.
  destruct (dll_unlink _ _ a _ _ (wf_dll _ _ _ _ _ W) Hnd Ha)
    as (ca & pa & pc & Hca & Hpa & Hpc & Hpin & Hpne & Hcase).
  destruct (wf_live _ _ _ _ _ W a Ha) as (ca' & Hca' & Htag & Hal & _).
  assert (ca' = ca) as -> by congruence.
  assert (mgr ca = Some m) as Hmg.
  { assert (a ∈ f :: L m) as Hin by by right.
    apply (wf_owner _ _ _ _ _ W) in Hin as (c & Hc & Hmc). congruence. }
  pose proof (wf_total_nonneg _ _ _ _ _ W) as Htot0.
  assert (alloc_at (chunks h) a = alloc ca) as Hala by (unfold alloc_at; by rewrite Hca).
  assert (0 ≤ totalloc M - alloc ca < totalloc_mod) as Hrange.
  { pose proof (wf_range _ _ _ _ _ W).
    assert (0 ≤ sum_alloc (chunks h) (remove_addr a (L m))).
    { apply sum_alloc_nonneg. intros x Hx%remove_addr_subseteq.
      by eapply wf_alloc_nonneg. }
    apply NoDup_cons in Hnd as [_ Hnd].
    rewrite (sum_alloc_remove (chunks h) (chunks h) _ a) in H0 by done.
    pose proof (wf_total _ _ _ _ _ W). lia. }
  unfold mmatic_freeptr_, IS_CHUNK. rewrite Hca, Htag. cbn [Z.eqb negb].
  rewrite Z.eqb_refl. cbn [negb]. rsimpl. unfold get_chunk at 1. rewrite Hca.
  rewrite Hpa. unfold get_chunk at 1. rewrite Hpc. rewrite Hmg.
  destruct (next ca) as [na|] eqn:Hna.
  - destruct Hcase as (nc & Hnc & Hnin & Hnna & Hnnp & Hdll & Hl1 & Hl2).
    unfold get_chunk, get_mgr. cbn [chunks mgrs brk].
    rewrite lookup_insert_ne, Hnc by done. cbn [chunks mgrs brk]. rewrite HM.
    eexists. split; [done|]. cbn [chunks brk].
    split; [by rewrite lookup_delete_eq|]. split; [done|].
    assert (∀ x, x ≠ a → same_data (chunks h !! x)
      (delete a (<[na:=set_prev (Some pa) nc]> (<[pa:=set_next (Some na) pc]> (chunks h))) !! x))
      as Hdata.
    { intros x Hx. rewrite lookup_delete_ne by done.
      destruct (decide (x = na)) as [->|?]; [rewrite lookup_insert_eq, Hnc; simpl; done|].
      rewrite lookup_insert_ne by done.
      destruct (decide (x = pa)) as [->|?]; [rewrite lookup_insert_eq, Hpc; simpl; done|].
      rewrite lookup_insert_ne by done. apply same_data_refl. }
    split; [|split; [done|]].
    2:{ intros x. cbn [mgrs]. destruct (decide (x = m)) as [->|?].
        - by rewrite lookup_insert_eq, HM.
        - by rewrite lookup_insert_ne. }
    eapply (unlink_heap_inv h L m M f a _ _
              (set_totalloc (wrap (totalloc M - alloc ca)) M)); try done.
    + by rewrite lookup_delete_eq.
    + intros x Hx. rewrite lookup_delete_ne, !lookup_insert_ne; set_solver.
    + by rewrite lookup_insert_eq.
    + intros x Hx. by rewrite lookup_insert_ne.
    + cbn. rewrite Hl1. apply W.
    + cbn. unfold wrap. rewrite Z.mod_small by done. by rewrite Hala.
  - destruct Hcase as (Hdll & Hl1 & Hl2).
    unfold get_mgr. cbn [chunks mgrs brk]. rewrite HM. cbn [mgrs].
    rewrite lookup_insert_eq.
    eexists. split; [done|]. cbn [chunks brk].
    split; [by rewrite lookup_delete_eq|]. split; [done|].
    assert (∀ x, x ≠ a → same_data (chunks h !! x)
      (delete a (<[pa:=set_next None pc]> (chunks h)) !! x)) as Hdata.
    { intros x Hx. rewrite lookup_delete_ne by done.
      destruct (decide (x = pa)) as [->|?]; [rewrite lookup_insert_eq, Hpc; simpl; done|].
      rewrite lookup_insert_ne by done. apply same_data_refl. }
    split; [|split; [done|]].
    2:{ intros x. cbn [mgrs]. destruct (decide (x = m)) as [->|?].
        - by rewrite lookup_insert_eq, HM.
        - by rewrite !lookup_insert_ne. }
    eapply (unlink_heap_inv h L m M f a _ _
              (set_totalloc (wrap (totalloc M - alloc ca)) (set_last (Some pa) M)));
      try done.
    + by rewrite lookup_delete_eq.
    + intros x Hx. rewrite lookup_delete_ne, !lookup_insert_ne; set_solver.
    + by rewrite lookup_insert_eq.
    + intros x Hx. by rewrite !lookup_insert_ne.
    + cbn. by rewrite Hl2.
    + cbn. unfold wrap. rewrite Z.mod_small by done. by rewrite Hala.
Qed.

(** ** Payload writes and [mmatic_create] *)

Lemma set_payload_inv h L a c d :
  heap_inv h L → chunks h !! a = Some c → length d = length (payload c) →
  heap_inv (upd_chunks (<[a := set_payload d c]>) h) L.
Proof.
  intros HI Hc Hlen.
  assert (∀ x, same_header (chunks h !! x) (<[a := set_payload d c]> (chunks h) !! x))
    as Hsame.
  { intros x. destruct (decide (x = a)) as [->|?].
    - rewrite lookup_insert_eq, Hc. simpl. auto 10.
    - rewrite lookup_insert_ne by done. apply same_header_refl. }
  unfold upd_chunks. split; cbn [chunks mgrs brk].
  - intros m Hm. destruct (hi_mgrs _ _ HI m Hm) as (M & f & HM & W).
    exists M, f. split; [done|].
    eapply mgr_wf_frame; [done|by intros|]; cbn [chunks].
    intros x c' Hc' Hm'. specialize (Hsame x). rewrite Hc' in Hsame.
    destruct (chunks h !! x) as [c0|]; [|done]. simpl in Hsame.
    destruct Hsame as (_ & _ & _ & _ & _ & Hmg & _).
    exists c0. split; [done|]. congruence.
  - intros x [c' Hc']. apply (hi_chunks_fresh _ _ HI).
    specialize (Hsame x). rewrite Hc' in Hsame.
    by destruct (chunks h !! x).
  - apply HI.
  - intros x c' Hc'. specialize (Hsame x). rewrite Hc' in Hsame.
    destruct (chunks h !! x) as [c0|] eqn:E; [|done]. simpl in Hsame.
    destruct Hsame as (_ & _ & _ & _ & _ & Hmg & _).
    destruct (hi_owned _ _ HI _ _ E) as (m & Hm & Hl). exists m. split; [congruence|done].
Qed.

Lemma store_payload_spec h L a c d :
  heap_inv h L → chunks h !! a = Some c → length d = length (payload c) →
  ∃ h', store_payload (Some a) d h = Ok h' ∧
        h' = upd_chunks (<[a := set_payload d c]>) h ∧ heap_inv h' L.
Proof.
  intros HI Hc Hlen. eexists. unfold store_payload. rsimpl.
  unfold get_chunk. rewrite Hc. split; [done|]. split; [done|].
  by apply set_payload_inv.
Qed.

Lemma mmatic_create_spec h L :
  heap_inv h L →
  let m := brk h in
  ∃ h', mmatic_create h = (h', Some m) ∧ mgrs h !! m = None ∧
        heap_inv h' (upd_live m [] L) ∧
        owner_of h' (Some m) m ∧
        (∀ x, is_Some (chunks h !! x) → chunks h' !! x = chunks h !! x).
Proof.
  intros HI m. set (f := Pos.succ (brk h)).
  assert (mgrs h !! m = None) as Hm.
  { destruct (mgrs h !! m) eqn:E; [|done].
    pose proof (hi_mgrs_fresh _ _ HI m ltac:(eauto)). unfold m in *. lia. }
  assert (chunks h !! f = None) as Hf.
  { destruct (chunks h !! f) eqn:E; [|done].
    pose proof (hi_chunks_fresh _ _ HI f ltac:(eauto)). unfold f in *. lia. }
  eexists. split; [done|]. split; [done|]. cbn [malloc chunks mgrs brk]. fold f m.
  split; [|split].
  - split; cbn [chunks mgrs brk].
    + intros m' [M0 HM0]. unfold upd_live. destruct (decide (m' = m)) as [->|Hne].
      * rewrite lookup_insert_eq in HM0. injection HM0 as <-.
        eexists _, f. cbn [mgrs]. rewrite lookup_insert_eq. split; [done|].
        split; cbn [chunks mtag first last totalloc dll sum_alloc List.last]; try done.
        -- eexists. rewrite lookup_insert_eq. done.
        -- apply NoDup_singleton.
        -- intros x Hx. by apply elem_of_nil in Hx.
        -- intros x. destruct (decide (x = f)) as [->|Hxf].
           ++ rewrite lookup_insert_eq. split; [set_solver|]. intros _. eauto.
           ++ rewrite lookup_insert_ne by done. split; [|set_solver].
              intros (c & Hc & Hmc).
              destruct (hi_owned _ _ HI _ _ Hc) as (m0 & Hm0 & [M1 HM1]). congruence.
      * rewrite lookup_insert_ne in HM0 by done.
        destruct (hi_mgrs _ _ HI m' ltac:(eauto)) as (M1 & f1 & HM1 & W1).
        exists M1, f1. cbn [mgrs]. rewrite lookup_insert_ne by done. split; [done|].
        eapply mgr_wf_frame; [done| |]; cbn [chunks].
        -- intros x Hx. rewrite lookup_insert_ne; [apply same_header_refl|].
           intros <-. destruct (dll_lookup _ _ _ _ f (wf_dll _ _ _ _ _ W1) Hx). congruence.
        -- intros x c' Hc' Hmg. destruct (decide (x = f)) as [->|Hxf].
           ++ rewrite lookup_insert_eq in Hc'. injection Hc' as <-. simpl in Hmg. congruence.
           ++ rewrite lookup_insert_ne in Hc' by done. eauto.
    + intros x [c Hc]. destruct (decide (x = f)) as [->|Hxf]; [unfold f; lia|].
      rewrite lookup_insert_ne in Hc by done.
      pose proof (hi_chunks_fresh _ _ HI x ltac:(eauto)). lia.
    + intros x [M0 HM0]. destruct (decide (x = m)) as [->|Hxm]; [unfold m; lia|].
      rewrite lookup_insert_ne in HM0 by done.
      pose proof (hi_mgrs_fresh _ _ HI x ltac:(eauto)). lia.
    + intros x c Hc. destruct (decide (x = f)) as [->|Hxf].
      * rewrite lookup_insert_eq in Hc. injection Hc as <-. exists m.
        split; [done|]. rewrite lookup_insert_eq. eauto.
      * rewrite lookup_insert_ne in Hc by done.
        destruct (hi_owned _ _ HI _ _ Hc) as (m0 & Hm0 & Hl0).
        exists m0. split; [done|].
        destruct (decide (m0 = m)) as [->|?];
          [rewrite lookup_insert_eq|rewrite lookup_insert_ne by done]; eauto.
  - split; [|cbn [mgrs]; rewrite lookup_insert_eq; eauto].
    unfold resolve_owner, IS_MGR. cbn [mgrs]. rewrite lookup_insert_eq. done.
  - intros x [c Hc]. rewrite lookup_insert_ne; [done|]. congruence.
Qed.

(** ** [mmatic_realloc_] *)

Lemma memcpy_spec h L da sa d sc n :
  heap_inv h L → chunks h !! da = Some d → chunks h !! sa = Some sc →
  n ≤ Z.of_nat (length (payload sc)) → n ≤ Z.of_nat (length (payload d)) →
  let bytes := take (Z.to_nat n) (payload sc) ++ drop (Z.to_nat n) (payload d) in
  ∃ h', memcpy (Some da) (Some sa) n h = Ok h' ∧
        h' = upd_chunks (<[da := set_payload bytes d]>) h ∧ heap_inv h' L.
Proof.
  intros HI Hd Hs Hns Hnd bytes. eexists. unfold memcpy. rsimpl.
  unfold get_chunk. rewrite Hd, Hs.
  replace (Z.of_nat (length (payload sc)) <? n) with false by lia.
  replace (Z.of_nat (length (payload d)) <? n) with false by lia.
  cbn [orb]. split; [done|]. split; [done|].
  apply set_payload_inv; [done..|]. unfold bytes.
  rewrite length_app, length_take, length_drop. lia.
Qed.

Lemma resolve_owner_mgr_frame h h' m :
  is_manager h (Some m) = true →
  (∀ x, mtag <$> mgrs h' !! x = mtag <$> mgrs h !! x) →
  is_manager h' (Some m) = true ∧ resolve_owner h' (Some m) = Ok (Some m) ∧
  is_Some (mgrs h' !! m).
Proof.
  intros Hm Hfr. assert (is_manager h' (Some m) = true) as Hm'.
  { unfold is_manager in *. specialize (Hfr m).
    destruct (mgrs h !! m) as [M|]; [|done].
    destruct (mgrs h' !! m) as [M'|]; [|done]. simpl in Hfr. congruence. }
  split; [done|]. unfold resolve_owner. rewrite (is_manager_IS_MGR _ _ Hm').
  split; [done|].
  apply is_manager_Some in Hm' as (? & ? & [= <-] & -> & _). eauto.
Qed.

(** Reallocation to the old size ([size = 0]) or to a larger one: a fresh
    chunk of the same backing kind that starts with the old payload; the old
    chunk is released. *)
Lemma mmatic_realloc_spec h L m a size o m' :
  heap_inv h L → is_Some (mgrs h !! m) → a ∈ L m →
  match o with None => m' = m | Some _ => owner_of h o m' end →
  let N := alloc_at (chunks h) a in
  let newsize := if size =? 0 then N else size in
  N ≤ newsize →
  sum_alloc (chunks h) (L m') + newsize < totalloc_mod →
  let L1 := upd_live m' (L m' ++ [brk h]) L in
  ∃ h' c c',
    mmatic_realloc_ (Some a) size o h = Ok (h', Some (brk h)) ∧
    chunks h !! a = Some c ∧ chunks h' !! a = None ∧
    chunks h' !! brk h = Some c' ∧ shared c' = shared c ∧ alloc c' = newsize ∧
    take (Z.to_nat N) (payload c') = payload c ∧
    heap_inv h' (upd_live m (remove_addr a (L1 m)) L1) ∧
    (∀ x, x ≠ a → x ≠ brk h → same_data (chunks h !! x) (chunks h' !! x)) ∧
    (∀ x, mtag <$> mgrs h' !! x = mtag <$> mgrs h !! x).
Proof.
  intros HI Hm Ha Ho N newsize HN Hfit L1.
  destruct (hi_mgrs _ _ HI m Hm) as (M & f & HM & W).
  destruct (wf_live _ _ _ _ _ W a Ha) as (c & Hc & Htag & Hal & Hlen).
  assert (mgr c = Some m) as Hmg.
  { assert (a ∈ f :: L m) as Hin by by right.
    apply (wf_owner _ _ _ _ _ W) in Hin as (c0 & Hc0 & Hmc). congruence. }
  assert (N = alloc c) as HNc by (unfold N, alloc_at; by rewrite Hc).
  assert (owner_of h (match o with None => mgr c | Some _ => o end) m')
    as Hres.
  { destruct o; [done|]. subst m'. rewrite Hmg.
    eapply owner_of_mgr; [done|apply W]. }
  assert (0 ≤ newsize) as Hnz by lia.
  destruct (mmatic_allocate_spec h L newsize _ false (shared c) m' HI Hnz Hres Hfit)
    as (h1 & cb & Hal1 & Hbfresh & Hcb & Hsh & Hsz & Hpl & HI1 & Hdata1 & Hmt1 & Hbrk1).
  set (b := brk h) in *.
  assert (a ≠ b) as Hab by congruence.
  destruct (same_data_Some _ _ _ _ (Hdata1 a Hab) Hc)
    as (c1 & Hc1 & Ht1 & Hs1 & Ha1 & Hm1 & Hp1).
  destruct (memcpy_spec h1 L1 b a cb c1 (alloc c) HI1 Hcb Hc1)
    as (h2 & Hcpy & Hh2 & HI2).
  { rewrite Hp1, Hlen. lia. }
  { rewrite Hpl, length_replicate. lia. }
  assert (a ∈ L1 m) as Ha1'.
  { unfold L1, upd_live. destruct (decide (m = m')) as [->|?]; [|done].
    apply elem_of_app. by left. }
  assert (is_Some (mgrs h2 !! m)) as Hm2.
  { rewrite Hh2. cbn. specialize (Hmt1 m). rewrite HM in Hmt1.
    destruct (mgrs h1 !! m); [eauto|done]. }
  destruct (mmatic_freeptr_spec h2 L1 m a HI2 Hm2 Ha1')
    as (h3 & Hfree & Hgone & Hbrk3 & HI3 & Hdata3 & Hmt3).
  assert (chunks h2 !! b =
          Some (set_payload (take (Z.to_nat (alloc c)) (payload c1) ++
                             drop (Z.to_nat (alloc c)) (payload cb)) cb)) as Hb2.
  { rewrite Hh2. cbn. by rewrite lookup_insert_eq. }
  destruct (same_data_Some _ _ _ _ (Hdata3 b ltac:(done)) Hb2)
    as (c3 & Hc3 & Ht3 & Hs3 & Ha3 & Hm3 & Hp3).
  exists h3, c, c3. split.
  { unfold mmatic_realloc_, IS_CHUNK. rewrite Hc, Htag, Z.eqb_refl. cbn [negb].
    rsimpl. unfold get_chunk at 1. rewrite Hc.
    assert (newsize = if size =? 0 then alloc c else size) as Hns
      by (unfold newsize; by rewrite HNc).
    rewrite Hns in Hal1. rewrite Hal1. rewrite Hcpy. rewrite Hfree. done. }
  do 3 (split; [done|]). split; [by rewrite Hs3|]. split; [by rewrite Ha3|].
  split.
  { rewrite Hp3. cbn. rewrite Hp1, HNc.
    rewrite take_app_le by (rewrite length_take; lia).
    rewrite take_take, Nat.min_id. apply take_ge. lia. }
  split; [done|]. split.
  - intros x Hxa Hxb. pose proof (Hdata1 x Hxb) as D1. pose proof (Hdata3 x Hxa) as D3.
    rewrite Hh2 in D3. cbn in D3. rewrite lookup_insert_ne in D3 by done.
    destruct (chunks h !! x), (chunks h1 !! x), (chunks h3 !! x); simpl in *; try done.
    destruct D1 as (? & ? & ? & ? & ?), D3 as (? & ? & ? & ? & ?).
    repeat split; congruence.
  - intros x. rewrite Hmt3, Hh2. cbn. apply Hmt1.
Qed.

(** ** The traversal from the sentinel *)

Lemma walk_dll cs l : ∀ p prv c fuel,
  dll cs p prv l → cs !! p = Some c → (length l ≤ fuel)%nat →
  walk fuel cs (next c) = l.
Proof.
  induction l as [|q l IH]; intros p prv c fuel; cbn [dll].
  - intros (c0 & Hc0 & _ & Hn) Hc _. simplify_eq. rewrite Hn. by destruct fuel.
  - intros (c0 & Hc0 & _ & Hn & Hd) Hc Hfuel. simplify_eq. rewrite Hn.
    destruct fuel as [|k]; [simpl in Hfuel; lia|]. cbn [walk].
    destruct (dll_lookup _ _ _ _ q Hd (list_elem_of_here _ _)) as [cq Hcq].
    rewrite Hcq. f_equal. eapply IH; [done..|]. simpl in Hfuel. lia.
Qed.

Lemma length_le_size (cs : gmap addr mmchunk) (l : list addr) :
  NoDup l → (∀ x, x ∈ l → is_Some (cs !! x)) → (length l ≤ size cs)%nat.
Proof.
  intros Hnd Hin. rewrite <- size_dom.
  unfold size, set_size. simpl.
  apply submseteq_length, NoDup_submseteq; [done|].
  intros x Hx. apply elem_of_elements, elem_of_dom. by apply Hin.
Qed.

Lemma mmatic_summary_spec h L m :
  heap_inv h L → is_Some (mgrs h !! m) → mmatic_summary h m = L m.
Proof.
  intros HI Hm. destruct (hi_mgrs _ _ HI m Hm) as (M & f & HM & W).
  unfold mmatic_summary. rewrite HM, (wf_first _ _ _ _ _ W).
  pose proof (wf_dll _ _ _ _ _ W) as Hd.
  destruct (dll_lookup _ _ _ _ f Hd (list_elem_of_here _ _)) as [c Hc].
  unfold get_chunk. rewrite Hc.
  eapply walk_dll; [done..|].
  pose proof (wf_nodup _ _ _ _ _ W) as Hnd. apply NoDup_cons in Hnd as [_ Hnd].
  apply length_le_size; [done|].
  intros x Hx. eapply dll_lookup; [done|]. by right.
Qed.

Lemma heap_inv_empty : heap_inv empty_heap (fun _ => []).
Proof.
  split; cbn; intros ?; rewrite ?lookup_empty; try by intros [? ?].
Qed.

Lemma remove_addr_middle a l1 l2 :
  a ∉ l1 → remove_addr a (l1 ++ a :: l2) = l1 ++ l2.
Proof.
  induction l1 as [|x l1 IH]; intros Hnot; simpl.
  - by rewrite decide_True.
  - rewrite decide_False by set_solver. f_equal. apply IH. set_solver.
Qed.

Lemma heap_inv_live_list h L m :
  heap_inv h L → is_Some (mgrs h !! m) →
  ∃ M f, mgrs h !! m = Some M ∧ first M = Some f ∧ is_Some (chunks h !! f) ∧
    NoDup (L m) ∧
    (∀ a, a ∈ L m ↔ a ≠ f ∧ ∃ c, chunks h !! a = Some c ∧ mgr c = Some m) ∧
    last M = Some (List.last (L m) f) ∧
    totalloc M = sum_alloc (chunks h) (L m).
Proof.
  intros HI Hm. destruct (hi_mgrs _ _ HI m Hm) as (M & f & HM & W).
  exists M, f. destruct W. split; [done|]. split; [done|].
  apply NoDup_cons in wf_nodup0 as [Hf Hnd].
  split; [by eapply dll_lookup; [|left]|]. split; [done|].
  split; [|done].
  intros x. rewrite wf_owner0, elem_of_cons. split.
  - intros Hx. split; [congruence|by right].
  - intros [Hne [?|?]]; done.
Qed.

(** C1, as the code has it.  Between calls every manager's chunk list,
    traversed from the sentinel, is the list of its live chunks in
    allocation order; the tail reference is the last chunk of that traversal
    and the running total is the sum of the live payload sizes.  The empty
    store has the property and create keeps it; so does freeOne of the
    first, an interior or the last chunk; so do allocate and reallocate
    when the owner stands for a manager (a manager handle, or a payload
    pointer whose first bytes can be read and are not the manager tag),
    the new total is within the range of the counter, and reallocate is
    asked for size 0 or for no less than the old size. *)
Theorem chunk_list_invariant :
  (∀ h L m, heap_inv h L → is_Some (mgrs h !! m) →
     mmatic_summary h m = L m ∧
     ∃ M f, mgrs h !! m = Some M ∧ first M = Some f ∧ is_Some (chunks h !! f) ∧
       NoDup (L m) ∧
       (∀ a, a ∈ L m ↔ a ≠ f ∧ ∃ c, chunks h !! a = Some c ∧ mgr c = Some m) ∧
       last M = Some (List.last (L m) f) ∧
       totalloc M = sum_alloc (chunks h) (L m)) ∧
  heap_inv empty_heap (fun _ => []) ∧
  (∀ h L, heap_inv h L →
     ∃ h', mmatic_create h = (h', Some (brk h)) ∧ mgrs h !! brk h = None ∧
           heap_inv h' (upd_live (brk h) [] L)) ∧
  (∀ h L size o zero sh m,
     heap_inv h L → 0 ≤ size → owner_of h o m →
     sum_alloc (chunks h) (L m) + size < totalloc_mod →
     ∃ h', mmatic_allocate size o zero sh h = Ok (h', Some (brk h)) ∧
           chunks h !! brk h = None ∧
           alloc_at (chunks h') (brk h) = size ∧
           heap_inv h' (upd_live m (L m ++ [brk h]) L)) ∧
  (∀ h L m l1 a l2,
     heap_inv h L → is_Some (mgrs h !! m) → L m = l1 ++ a :: l2 →
     ∃ h', mmatic_freeptr_ (Some a) h = Ok h' ∧ chunks h' !! a = None ∧
           heap_inv h' (upd_live m (l1 ++ l2) L)) ∧
  (∀ h L m a size o m',
     heap_inv h L → is_Some (mgrs h !! m) → a ∈ L m →
     match o with None => m' = m | Some _ => owner_of h o m' end →
     let N := alloc_at (chunks h) a in
     let newsize := if size =? 0 then N else size in
     N ≤ newsize →
     sum_alloc (chunks h) (L m') + newsize < totalloc_mod →
     let L1 := upd_live m' (L m' ++ [brk h]) L in
     ∃ h', mmatic_realloc_ (Some a) size o h = Ok (h', Some (brk h)) ∧
           chunks h' !! a = None ∧ alloc_at (chunks h') (brk h) = newsize ∧
           heap_inv h' (upd_live m (remove_addr a (L1 m)) L1)).
Proof.
  split; [|split; [|split; [|split; [|split]]]].
  - intros h L m HI Hm. split; [by apply mmatic_summary_spec|].
    by apply heap_inv_live_list.
  - apply heap_inv_empty.
  - intros h L HI. destruct (mmatic_create_spec h L HI) as (h' & ? & ? & ? & _).
    eauto.
  - intros h L size o zero sh m HI Hsz Hres Hfit.
    destruct (mmatic_allocate_spec h L size o zero sh m HI Hsz Hres Hfit)
      as (h' & c & ? & ? & Hc & ? & ? & ? & ? & _).
    exists h'. unfold alloc_at. rewrite Hc. done.
  - intros h L m l1 a l2 HI Hm HL.
    destruct (heap_inv_live_list h L m HI Hm) as (_ & _ & _ & _ & _ & Hnd & _).
    rewrite HL in Hnd. apply NoDup_app in Hnd as (_ & Hdis & _).
    destruct (mmatic_freeptr_spec h L m a HI Hm) as (h' & ? & ? & _ & HI' & _).
    { rewrite HL. set_solver. }
    exists h'. rewrite HL, remove_addr_middle in HI'; [done|].
    intros Hin. apply (Hdis a Hin). by left.
  - intros h L m a size o m' HI Hm Ha Ho N newsize HN Hfit L1.
    destruct (mmatic_realloc_spec h L m a size o m' HI Hm Ha Ho HN Hfit)
      as (h' & c & c' & ? & ? & ? & Hc' & ? & ? & ? & ? & _).
    exists h'. unfold alloc_at at 1. rewrite Hc'. done.
Qed.

(** ** C strings *)

Lemma length_terminated t : length (terminated t) = S (length t).
Proof. unfold terminated. rewrite length_app, length_map. simpl. lia. Qed.

Lemma cstr_terminated t rest : NUL ∉ t → cstr (terminated t ++ rest) = Ok t.
Proof.
  unfold terminated. induction t as [|c t IH]; intros Hn; simpl.
  - by destruct (decide (NUL = NUL)).
  - rewrite decide_False by set_solver. rsimpl.
    rewrite IH by set_solver. done.
Qed.

Lemma cstr_inv d t :
  cstr d = Ok t → (NUL ∉ t) ∧ (∃ rest, d = terminated t ++ rest).
Proof.
  revert t. induction d as [|[c|] d IH]; intros t; simpl; try done.
  destruct (decide (c = NUL)) as [->|Hc].
  - intros [= <-]. split; [set_solver|]. by exists d.
  - rsimpl. destruct (cstr d) as [r|] eqn:E; [|done]. intros [= <-].
    destruct (IH r eq_refl) as (Hn & rest & ->). split; [set_solver|].
    by exists rest.
Qed.

Lemma strn_read_exact t rest :
  NUL ∉ t → strn_read (length t) (map Some (t ++ rest)) = Ok t.
Proof.
  induction t as [|c t IH]; intros Hn; simpl; [done|].
  rewrite decide_False by set_solver. rsimpl.
  rewrite IH by set_solver. done.
Qed.

Lemma strn_read_short n t rest :
  NUL ∉ t → (length t < n)%nat → strn_read n (map Some (t ++ NUL :: rest)) = Ok t.
Proof.
  revert n. induction t as [|c t IH]; intros n Hn Hlt; simpl.
  - destruct n; [simpl in Hlt; lia|]. simpl. by destruct (decide (NUL = NUL)).
  - destruct n as [|n]; [simpl in Hlt; lia|]. simpl.
    rewrite decide_False by set_solver. rsimpl.
    rewrite IH; [done|set_solver|simpl in Hlt; lia].
Qed.

Lemma write_at_app (p q bytes : list cell) :
  (length bytes ≤ length q)%nat →
  write_at (Z.of_nat (length p)) bytes (p ++ q) = Ok (p ++ bytes ++ drop (length bytes) q).
Proof.
  intros Hle. unfold write_at.
  rewrite (proj2 (Z.ltb_ge _ 0)) by lia.
  rewrite (proj2 (Z.ltb_ge _ _)) by (rewrite length_app; lia).
  cbn [orb]. rewrite Nat2Z.id, take_app_length, drop_app_add. done.
Qed.

Lemma write_at_0 (q bytes : list cell) :
  (length bytes ≤ length q)%nat →
  write_at 0 bytes q = Ok (bytes ++ drop (length bytes) q).
Proof. intros Hle. by apply (write_at_app [] q bytes). Qed.

Lemma write_at_length off bytes d d' :
  write_at off bytes d = Ok d' → length d' = length d.
Proof.
  unfold write_at. destruct (_ || _) eqn:E; [done|]. intros [= <-].
  apply orb_false_iff in E as [E1 E2].
  rewrite !length_app, length_take, length_drop. lia.
Qed.

(** ** [xstr_reserve] *)

Lemma heap_inv_ext h L L' : (∀ x, L x = L' x) → heap_inv h L → heap_inv h L'.
Proof.
  intros HL [H1 H2 H3 H4]. split; try done.
  intros m Hm. rewrite <- HL. by apply H1.
Qed.

Lemma upd_live_eq m l L : upd_live m l L m = l.
Proof. unfold upd_live. by rewrite decide_True. Qed.

Lemma upd_live_twice m l l' L x : upd_live m l (upd_live m l' L) x = upd_live m l L x.
Proof. unfold upd_live. by destruct (decide (x = m)). Qed.

Lemma sum_alloc_same_data cs cs' l :
  (∀ x, x ∈ l → same_data (cs !! x) (cs' !! x)) → sum_alloc cs' l = sum_alloc cs l.
Proof. intros H. apply sum_alloc_ext. intros x Hx. by apply same_data_alloc, H. Qed.

Lemma xinv_a_nonneg h L m xs t : xinv h L m xs t → len xs ≤ a xs.
Proof.
  intros []. destruct (s xs).
  - destruct xi_store0 as (_ & c & rest & _ & Hp & Hl).
    rewrite Hp, length_app, length_terminated in Hl. lia.
  - destruct xi_store0 as [-> ->]. simpl in *. lia.
Qed.

Lemma heap_inv_NoDup h L m : heap_inv h L → is_Some (mgrs h !! m) → NoDup (L m).
Proof.
  intros HI Hm. destruct (hi_mgrs _ _ HI m Hm) as (M & f & _ & W).
  pose proof (wf_nodup _ _ _ _ _ W) as Hnd. by apply NoDup_cons in Hnd as [_ ?].
Qed.

Lemma is_manager_is_Some h m : is_manager h (Some m) = true → is_Some (mgrs h !! m).
Proof. intros (? & ? & [= <-] & -> & _)%is_manager_Some. eauto. Qed.

Lemma xstr_reserve_keep xs l h :
  0 ≤ l → l < a xs → xstr_reserve xs l h = Ok (h, xs).
Proof.
  intros H0 Hl. unfold xstr_reserve.
  rewrite (proj2 (Z.ltb_ge _ _)) by lia.
  by rewrite (proj2 (Z.gtb_gt _ _)) by lia.
Qed.

Lemma xstr_reserve_grow h L m xs t l :
  heap_inv h L → xinv h L m xs t → a xs ≤ l → fits h L m (l + 1) →
  let b := brk h in
  let xs' := MkXstr (Some b) (len xs) l (mm xs) in
  let L' := upd_live m (match s xs with
                        | Some p => remove_addr p (L m ++ [b])
                        | None => L m ++ [b]
                        end) L in
  ∃ h' c,
    xstr_reserve xs l h = Ok (h', xs') ∧
    heap_inv h' L' ∧ xinv h' L' m xs' t ∧
    brk h' = Pos.succ b ∧
    chunks h !! b = None ∧
    match s xs with Some p => chunks h' !! p = None | None => True end ∧
    chunks h' !! b = Some c ∧ alloc c = l + 1 ∧
    payload c = terminated t ++ replicate (Z.to_nat (l - len xs)) None ∧
    sum_alloc (chunks h') (L' m) =
      sum_alloc (chunks h) (L m) + (l + 1) -
      match s xs with Some p => a xs + 1 | None => 0 end.
Proof.
  intros HI X Hal Hfit b xs' L'. subst xs'.
  pose proof (xinv_a_nonneg _ _ _ _ _ X) as Hla.
  destruct X as [Hmm Hmgr Hlen Hnul Hst].
  assert (0 ≤ l + 1) as Hsz by lia.
  pose proof (is_manager_Some _ _ Hmgr) as (m0 & M & [= <-] & HM & HMt).
  pose proof (owner_of_mgr _ _ _ HM HMt) as Hres.
  destruct (mmatic_allocate_spec h L (l + 1) (Some m) false false m HI Hsz Hres Hfit)
    as (h1 & cb & Hal1 & Hbfresh & Hcb & Hsh & Hasz & Hpl & HI1 & Hdata1 & Hmt1 & Hbrk1).
  fold b in Hal1, Hbfresh, Hcb, HI1, Hdata1, Hbrk1.
  destruct (resolve_owner_mgr_frame _ _ _ Hmgr Hmt1) as (Hmgr1 & _ & Hm1).
  pose proof (heap_inv_NoDup _ _ m HI1 Hm1) as Hnd1. rewrite upd_live_eq in Hnd1.
  assert (sum_alloc (chunks h1) (L m ++ [b]) = sum_alloc (chunks h) (L m) + (l + 1))
    as Hsum1.
  { rewrite sum_alloc_app. simpl. unfold alloc_at at 1. rewrite Hcb, Hasz.
    rewrite (sum_alloc_same_data (chunks h)); [lia|].
    intros x Hx. apply Hdata1. intros ->. apply NoDup_app in Hnd1 as (_ & Hd & _).
    apply (Hd b Hx). by left. }
  unfold xstr_reserve, mmatic_alloc.
  rewrite (proj2 (Z.ltb_ge _ _)) by lia.
  replace (a xs >? l) with false by (symmetry; rewrite Z.gtb_ltb; apply Z.ltb_ge; lia).
  rewrite Hmm, Hal1. rsimpl.
  destruct (s xs) as [p|] eqn:Hs.
  - destruct Hst as (Hp & c & rest & Hc & Hpay & Hplen).
    assert (p ≠ b) as Hpb by congruence.
    destruct (same_data_Some _ _ _ _ (Hdata1 p Hpb) Hc)
      as (c1 & Hc1 & Ht1 & Hs1 & Ha1 & Hmc1 & Hp1).
    unfold load_payload at 1. rsimpl. unfold get_chunk at 1. rewrite Hc1.
    unfold strcpy_cells. rsimpl. rewrite Hp1, Hpay, cstr_terminated by done.
    unfold load_payload. rsimpl. unfold get_chunk at 1. rewrite Hcb.
    rewrite write_at_0
      by (rewrite Hpl, length_replicate, length_terminated; lia).
    set (d' := terminated t ++ drop (length (terminated t)) (payload cb)).
    destruct (store_payload_spec h1 _ b cb d' HI1 Hcb) as (h2 & Hst2 & Hh2 & HI2).
    { unfold d'. rewrite length_app, length_drop.
      rewrite Hpl, length_replicate, length_terminated. lia. }
    rewrite Hst2.
    assert (is_Some (mgrs h2 !! m)) as Hm2 by (by rewrite Hh2).
    assert (p ∈ upd_live m (L m ++ [b]) L m) as Hp2.
    { rewrite upd_live_eq. apply elem_of_app. by left. }
    destruct (mmatic_freeptr_spec h2 _ m p HI2 Hm2 Hp2)
      as (h3 & Hfree & Hgone & Hbrk3 & HI3 & Hdata3 & Hmt3).
    unfold mmfreeptr. rewrite Hfree.
    assert (chunks h2 !! b = Some (set_payload d' cb)) as Hb2.
    { rewrite Hh2. cbn. by rewrite lookup_insert_eq. }
    destruct (same_data_Some _ _ _ _ (Hdata3 b ltac:(done)) Hb2)
      as (c3 & Hc3 & Ht3 & Hs3 & Ha3 & Hm3 & Hp3).
    assert (payload c3 = terminated t ++ replicate (Z.to_nat (l - len xs)) None) as Hpay3.
    { rewrite Hp3. cbn. unfold d'. rewrite Hpl, drop_replicate, length_terminated.
      do 2 f_equal. lia. }
    rewrite upd_live_eq in HI3.
    assert (heap_inv h3 L') as HI3'.
    { eapply heap_inv_ext; [|done]. intros x. apply upd_live_twice. }
    assert (∀ x, mtag <$> mgrs h3 !! x = mtag <$> mgrs h !! x) as Hmt.
    { intros x. rewrite Hmt3, Hh2. cbn. apply Hmt1. }
    destruct (resolve_owner_mgr_frame _ _ _ Hmgr Hmt) as (Hmgr3 & _ & _).
    exists h3, c3. split; [done|]. split; [done|]. split.
    { split; cbn [s len a mm]; try done.
      split.
      - unfold L'. rewrite upd_live_eq. apply remove_addr_elem; [done|].
        split; [|done]. apply elem_of_app. right. by left.
      - exists c3, (replicate (Z.to_nat (l - len xs)) None).
        split; [done|]. split; [done|].
        rewrite Hpay3, length_app, length_terminated, length_replicate. lia. }
    split; [rewrite Hbrk3, Hh2; cbn; done|].
    do 3 (split; [done|]). split; [by rewrite Ha3|]. split; [done|].
    unfold L'. rewrite upd_live_eq.
    rewrite (sum_alloc_remove (chunks h2)); [| done | by apply elem_of_app; left |].
    + rewrite Hh2. cbn [upd_chunks chunks].
      rewrite (sum_alloc_ext (chunks h1)).
      * rewrite Hsum1. unfold alloc_at. rewrite lookup_insert_ne by done.
        rewrite Hc1, Ha1.
        destruct (hi_mgrs _ _ HI m ltac:(eauto)) as (M0 & f & _ & W).
        destruct (wf_live _ _ _ _ _ W p Hp) as (c0 & Hc0 & _ & _ & Hl0).
        assert (c0 = c) as -> by congruence. lia.
      * intros x Hx. unfold alloc_at. destruct (decide (x = b)) as [->|?].
        -- by rewrite lookup_insert_eq, Hcb.
        -- by rewrite lookup_insert_ne.
    + intros x Hx Hxp. symmetry. apply same_data_alloc.
      destruct (chunks h2 !! x) eqn:E2, (chunks h3 !! x) eqn:E3;
        pose proof (Hdata3 x Hxp) as D; rewrite E2, E3 in D; simpl in *; try done.
      destruct D as (? & ? & ? & ? & ?). repeat split; congruence.
  - destruct Hst as [-> Ha0]. simpl in Hlen.
    unfold store_char, load_payload. rsimpl. unfold get_chunk at 1. rewrite Hcb.
    rewrite write_at_0 by (rewrite Hpl, length_replicate; cbn [length]; lia).
    set (d' := [Some NUL] ++ drop (length [Some NUL]) (payload cb)).
    destruct (store_payload_spec h1 _ b cb d' HI1 Hcb) as (h2 & Hst2 & Hh2 & HI2).
    { unfold d'. rewrite length_app, length_drop, Hpl, !length_replicate.
      cbn [length]. lia. }
    rewrite Hst2.
    assert (chunks h2 !! b = Some (set_payload d' cb)) as Hb2.
    { rewrite Hh2. cbn. by rewrite lookup_insert_eq. }
    assert (∀ x, mtag <$> mgrs h2 !! x = mtag <$> mgrs h !! x) as Hmt.
    { intros x. rewrite Hh2. cbn. apply Hmt1. }
    destruct (resolve_owner_mgr_frame _ _ _ Hmgr Hmt) as (Hmgr2 & _ & _).
    assert (payload (set_payload d' cb) =
            terminated [] ++ replicate (Z.to_nat (l - len xs)) None) as Hpay2.
    { cbn. unfold d'. rewrite Hpl, drop_replicate. simpl. do 2 f_equal. lia. }
    exists h2, (set_payload d' cb). rewrite Hlen.
    split; [done|]. split; [done|]. split.
    { split; cbn [s len a mm]; try done. split.
      - unfold L'. rewrite upd_live_eq. apply elem_of_app. right. by left.
      - eexists _, _. split; [done|]. split; [done|].
        rewrite Hpay2, length_app, length_replicate. simpl. lia. }
    split; [rewrite Hh2; cbn; done|].
    do 3 (split; [done|]). split; [done|]. split; [by rewrite <- Hlen|].
    unfold L'. rewrite upd_live_eq, Hh2. cbn [upd_chunks chunks].
    rewrite (sum_alloc_ext (chunks h1)); [lia|].
    intros x Hx. unfold alloc_at. destruct (decide (x = b)) as [->|?].
    + by rewrite lookup_insert_eq, Hcb.
    + by rewrite lookup_insert_ne.
Qed.

Lemma xstr_reserve_spec h L m xs t l :
  heap_inv h L → xinv h L m xs t → 0 ≤ l → fits h L m (l + 1) →
  ∃ h' L' xs' p c rest,
    xstr_reserve xs l h = Ok (h', xs') ∧
    heap_inv h' L' ∧ xinv h' L' m xs' t ∧
    l ≤ a xs' ∧ len xs' = len xs ∧ mm xs' = mm xs ∧
    s xs' = Some p ∧ chunks h' !! p = Some c ∧
    payload c = terminated t ++ rest ∧
    Z.of_nat (length (payload c)) = a xs' + 1.
Proof.
  intros HI X Hl Hfit. destruct (decide (l < a xs)) as [Hlt|Hge].
  - rewrite xstr_reserve_keep by done.
    pose proof X as [_ _ _ _ Hst]. destruct (s xs) as [p|] eqn:Hs.
    + destruct Hst as (_ & c & rest & Hc & Hp & Hlen).
      exists h, L, xs, p, c, rest.
      do 3 (split; [done|]). split; [lia|]. do 5 (split; [done|]). done.
    + destruct Hst as [_ Ha]. lia.
  - destruct (xstr_reserve_grow h L m xs t l HI X ltac:(lia) Hfit)
      as (h' & c & Hr & HI' & X' & _ & _ & _ & Hc & Hal & Hp & _).
    eexists h', _, _, (brk h), c, _. split; [done|].
    split; [done|]. split; [done|]. cbn [a len mm s].
    split; [lia|]. do 5 (split; [done|]).
    pose proof X' as [_ _ _ _ Hst]. cbn [s a] in Hst.
    destruct Hst as (_ & c' & rest & Hc' & _ & Hlen). congruence.
Qed.

(** Overwriting the payload of a buffer's chunk with bytes that spell the
    terminated string [t']. *)
Lemma xinv_write h L m xs t p c d' t' rest' :
  heap_inv h L → xinv h L m xs t → s xs = Some p → chunks h !! p = Some c →
  d' = terminated t' ++ rest' → length d' = length (payload c) → NUL ∉ t' →
  Z.of_nat (length (payload c)) = a xs + 1 →
  ∃ h', store_payload (Some p) d' h = Ok h' ∧ heap_inv h' L ∧
        chunks h' !! p = Some (set_payload d' c) ∧
        xinv h' L m (MkXstr (Some p) (Z.of_nat (length t')) (a xs) (mm xs)) t'.
Proof.
  intros HI X Hs Hc Hd Hlen Hnul Hcap.
  destruct (store_payload_spec h L p c d' HI Hc Hlen) as (h' & Hst & Hh' & HI').
  exists h'. split; [done|]. split; [done|].
  assert (chunks h' !! p = Some (set_payload d' c)) as Hc'.
  { rewrite Hh'. cbn. by rewrite lookup_insert_eq. }
  split; [done|].
  destruct X as [Hmm Hmgr _ _ Hst']. rewrite Hs in Hst'. destruct Hst' as [Hin _].
  split; cbn [s len a mm]; try done.
  - by rewrite Hh'.
  - split; [done|]. exists (set_payload d' c), rest'. split; [done|].
    cbn [payload set_payload]. split; [done|]. rewrite Hlen. done.
Qed.

(** ** The mutators *)

Lemma src_cstr t junk : NUL ∉ t → cstr (map Some (t ++ NUL :: junk)) = Ok t.
Proof.
  intros Hn. rewrite map_app. cbn [map].
  change (map Some t ++ Some NUL :: map Some junk)
    with (map Some t ++ [Some NUL] ++ map Some junk).
  rewrite app_assoc. by apply cstr_terminated.
Qed.

Lemma strlen_src t junk :
  NUL ∉ t → strlen (Some (t ++ NUL :: junk)) = Ok (Z.of_nat (length t)).
Proof. intros Hn. unfold strlen, src_cells. rsimpl. by rewrite src_cstr. Qed.

Lemma terminated_app t t' : terminated (t ++ t') = map Some t ++ terminated t'.
Proof. unfold terminated. by rewrite map_app, app_assoc. Qed.

Lemma xstr_set_spec h L m xs t t' junk :
  heap_inv h L → xinv h L m xs t → NUL ∉ t' →
  fits h L m (Z.of_nat (length t') + 1) →
  ∃ h' L' xs',
    xstr_set xs (Some (t' ++ NUL :: junk)) h = Ok (h', xs') ∧
    heap_inv h' L' ∧ xinv h' L' m xs' t'.
Proof.
  intros HI X Hn Hfit. unfold xstr_set. rewrite strlen_src by done. rsimpl.
  destruct (xstr_reserve_spec h L m xs t (Z.of_nat (length t')) HI X ltac:(lia) Hfit)
    as (h1 & L1 & xs1 & p & c & rest & Hr & HI1 & X1 & Hcap & Hlen & Hmm & Hs & Hc & Hp & Hpl).
  rewrite Hr. cbn [src_cells]. unfold strcpy_cells. rsimpl.
  rewrite src_cstr by done. unfold load_payload. rsimpl.
  rewrite Hs. unfold get_chunk at 1. rewrite Hc.
  rewrite write_at_0 by (rewrite length_terminated; lia).
  destruct (xinv_write h1 L1 m xs1 t p c _ t'
              (drop (length (terminated t')) (payload c)) HI1 X1 Hs Hc eq_refl)
    as (h2 & Hst & HI2 & _ & X2); [|done|done|].
  { rewrite length_app, length_drop, length_terminated. lia. }
  rewrite Hst. eexists _, _, _. split; [done|]. split; done.
Qed.

Lemma xstr_append_spec h L m xs t t' junk :
  heap_inv h L → xinv h L m xs t → NUL ∉ t' → t' ≠ [] →
  fits h L m (Z.of_nat (length t') + len xs + 1) →
  ∃ h' L' xs',
    xstr_append xs (Some (t' ++ NUL :: junk)) h = Ok (h', xs') ∧
    heap_inv h' L' ∧ xinv h' L' m xs' (t ++ t').
Proof.
  intros HI X Hn Hne Hfit. unfold xstr_append. rewrite strlen_src by done. rsimpl.
  assert ((Z.of_nat (length t') =? 0) = false) as -> by (destruct t'; [done|simpl; lia]).
  pose proof (xi_len _ _ _ _ _ X) as Hlt.
  destruct (xstr_reserve_spec h L m xs t (Z.of_nat (length t') + len xs) HI X
              ltac:(lia) Hfit)
    as (h1 & L1 & xs1 & p & c & rest & Hr & HI1 & X1 & Hcap & Hlen & Hmm & Hs & Hc & Hp & Hpl).
  rewrite Hr. cbn [src_cells]. unfold strcat_cells, load_payload. rsimpl.
  rewrite Hs. unfold get_chunk at 1. rewrite Hc.
  assert (cstr (payload c) = Ok t) as Hcs by (rewrite Hp; apply cstr_terminated, X).
  rewrite Hcs. rewrite src_cstr by done.
  assert (payload c = map Some t ++ (Some NUL :: rest)) as Hp'.
  { rewrite Hp. unfold terminated. by rewrite <- app_assoc. }
  rewrite Hp' in Hpl. rewrite length_app, length_map in Hpl. cbn [length] in Hpl.
  rewrite Hp'.
  pose proof (write_at_app (map Some t) (Some NUL :: rest) (terminated t')) as Hw.
  rewrite length_map in Hw.
  rewrite Hw by (rewrite length_terminated; cbn [length]; lia). clear Hw.
  set (rest' := drop (length (terminated t')) (Some NUL :: rest)).
  destruct (xinv_write h1 L1 m xs1 t p c (map Some t ++ terminated t' ++ rest')
              (t ++ t') rest' HI1 X1 Hs Hc) as (h2 & Hst & HI2 & _ & X2).
  { by rewrite terminated_app, <- app_assoc. }
  { unfold rest'.
    rewrite Hp', !length_app, length_map, length_drop, length_terminated.
    cbn [length]. lia. }
  { pose proof (xi_nul _ _ _ _ _ X). set_solver. }
  { rewrite Hp', length_app, length_map. cbn [length]. lia. }
  rewrite Hst.
  rewrite length_app, Nat2Z.inj_add in X2.
  replace (Z.of_nat (length t') + len xs) with (Z.of_nat (length t) + Z.of_nat (length t'))
    by lia.
  eexists _, _, _. split; [done|]. split; done.
Qed.

Lemma xinv_intro h L m xs p c t rest :
  mm xs = Some m → is_manager h (Some m) = true → s xs = Some p → p ∈ L m →
  chunks h !! p = Some c → payload c = terminated t ++ rest → NUL ∉ t →
  len xs = Z.of_nat (length t) → Z.of_nat (length (payload c)) = a xs + 1 →
  xinv h L m xs t.
Proof.
  intros Hmm Hmgr Hs Hin Hc Hp Hn Hlen Hcap. split; try done.
  rewrite Hs. split; [done|]. by exists c, rest.
Qed.

Lemma xinv_store h L m xs t :
  xinv h L m xs t → ∀ p, s xs = Some p → p ∈ L m.
Proof. intros [_ _ _ _ Hst] p Hs. rewrite Hs in Hst. apply Hst. Qed.

Lemma store_char_spec h L p c i ch :
  heap_inv h L → chunks h !! p = Some c →
  0 ≤ i < Z.of_nat (length (payload c)) →
  let d' := take (Z.to_nat i) (payload c) ++ Some ch :: drop (S (Z.to_nat i)) (payload c) in
  ∃ h', store_char (Some p) i ch h = Ok h' ∧ heap_inv h' L ∧
        h' = upd_chunks (<[p := set_payload d' c]>) h ∧ length d' = length (payload c).
Proof.
  intros HI Hc Hi d'.
  assert (length d' = length (payload c)) as Hlen.
  { unfold d'. rewrite length_app, length_take. cbn [length]. rewrite length_drop. lia. }
  destruct (store_payload_spec h L p c d' HI Hc Hlen) as (h' & Hst & Hh' & HI').
  exists h'. split; [|done].
  unfold store_char, load_payload. rsimpl. unfold get_chunk at 1. rewrite Hc.
  unfold write_at. rewrite (proj2 (Z.ltb_ge _ 0)) by lia.
  rewrite (proj2 (Z.ltb_ge _ _)) by (cbn [length]; lia). cbn [orb length app].
  replace (Z.to_nat i + 1)%nat with (S (Z.to_nat i)) by lia. done.
Qed.

Lemma xstr_append_char_spec h L m xs t ch :
  heap_inv h L → xinv h L m xs t → ch ≠ NUL →
  fits h L m (grow_target (len xs) + 1) →
  ∃ h' L' xs',
    xstr_append_char xs ch h = Ok (h', xs') ∧
    heap_inv h' L' ∧ xinv h' L' m xs' (t ++ [ch]) ∧
    (grow_target (len xs) ≤ a xs' ) ∧
    (a xs ≤ grow_target (len xs) →
       a xs' = grow_target (len xs) ∧ s xs' = Some (brk h) ∧ brk h' = Pos.succ (brk h) ∧
       sum_alloc (chunks h') (L' m) =
         sum_alloc (chunks h) (L m) + (grow_target (len xs) + 1) -
         match s xs with Some _ => a xs + 1 | None => 0 end).
Proof.
  intros HI X Hch Hfit. unfold xstr_append_char. rewrite decide_False by done.
  pose proof (xi_len _ _ _ _ _ X) as Hlt.
  assert (len xs + 2 ≤ grow_target (len xs)) as Hg by (unfold grow_target; lia).
  assert (∃ h1 L1 xs1 p c rest,
    xstr_reserve xs (grow_target (len xs)) h = Ok (h1, xs1) ∧
    heap_inv h1 L1 ∧ xinv h1 L1 m xs1 t ∧ grow_target (len xs) ≤ a xs1 ∧
    len xs1 = len xs ∧ mm xs1 = mm xs ∧ s xs1 = Some p ∧ chunks h1 !! p = Some c ∧
    payload c = terminated t ++ rest ∧ Z.of_nat (length (payload c)) = a xs1 + 1 ∧
    (a xs ≤ grow_target (len xs) →
       a xs1 = grow_target (len xs) ∧ p = brk h ∧ brk h1 = Pos.succ (brk h) ∧
       sum_alloc (chunks h1) (L1 m) =
         sum_alloc (chunks h) (L m) + (grow_target (len xs) + 1) -
         match s xs with Some _ => a xs + 1 | None => 0 end))
    as (h1 & L1 & xs1 & p & c & rest & Hr & HI1 & X1 & Hcap & Hlen & Hmm & Hs & Hc & Hp & Hpl & Hgrow).
  { destruct (decide (grow_target (len xs) < a xs)) as [Hlt'|Hge].
    - destruct (xstr_reserve_spec h L m xs t (grow_target (len xs)) HI X ltac:(lia) Hfit)
        as (h1 & L1 & xs1 & p & c & rest & Hr & HI1 & X1 & Hcap & Hlen & Hmm & Hs & Hc & Hp & Hpl).
      exists h1, L1, xs1, p, c, rest. do 10 (split; [done|]). lia.
    - destruct (xstr_reserve_grow h L m xs t (grow_target (len xs)) HI X
                  ltac:(lia) Hfit)
        as (h1 & c & Hr & HI1 & X1 & Hb & _ & _ & Hc & Hal & Hp & Hsum).
      pose proof X1 as [_ _ _ _ Hst]. cbn [s a] in Hst.
      destruct Hst as (_ & c' & rest & Hc' & Hp' & Hlen).
      assert (c' = c) as -> by congruence.
      eexists h1, _, _, (brk h), c, rest. split; [done|]. split; [done|].
      split; [done|]. cbn [a len mm s]. split; [lia|]. do 6 (split; [done|]).
      intros _. split; [done|]. split; [done|]. split; [done|]. apply Hsum. }
  rewrite Hr. rsimpl. rewrite Hs, Hlen.
  assert (payload c = map Some t ++ (Some NUL :: rest)) as Hp'.
  { rewrite Hp. unfold terminated. by rewrite <- app_assoc. }
  assert (Z.of_nat (length rest) = a xs1 - len xs) as Hrest.
  { rewrite Hp', length_app, length_map in Hpl. cbn [length] in Hpl. lia. }
  destruct rest as [|r0 rest]; [cbn [length] in Hrest; lia|].
  destruct (store_char_spec h1 L1 p c (len xs) ch HI1 Hc ltac:(lia))
    as (h2 & Hst2 & HI2 & Hh2 & Hl2).
  rewrite Hst2.
  set (d2 := take (Z.to_nat (len xs)) (payload c) ++
             Some ch :: drop (S (Z.to_nat (len xs))) (payload c)) in *.
  assert (chunks h2 !! p = Some (set_payload d2 c)) as Hc2.
  { rewrite Hh2. cbn. by rewrite lookup_insert_eq. }
  destruct (store_char_spec h2 L1 p (set_payload d2 c) (len xs + 1) NUL HI2 Hc2)
    as (h3 & Hst3 & HI3 & Hh3 & Hl3).
  { cbn [payload set_payload]. lia. }
  rewrite Hst3. cbn [payload set_payload] in *.
  assert (d2 = map Some t ++ Some ch :: r0 :: rest) as Hd2.
  { unfold d2. rewrite Hp', Hlt, Nat2Z.id.
    rewrite take_app_length' by (by rewrite length_map).
    replace (S (length t)) with (length t + 1)%nat by lia.
    rewrite drop_app_add' by (by rewrite length_map). done. }
  set (d3 := take (Z.to_nat (len xs + 1)) d2 ++
             Some NUL :: drop (S (Z.to_nat (len xs + 1))) d2) in *.
  assert (d3 = terminated (t ++ [ch]) ++ rest) as Hd3.
  { unfold d3. rewrite Hd2, Hlt.
    replace (Z.to_nat (Z.of_nat (length t) + 1)) with (length (map Some t ++ [Some ch]))
      by (rewrite length_app, length_map; cbn [length]; lia).
    change (map Some t ++ Some ch :: r0 :: rest)
      with (map Some t ++ [Some ch] ++ r0 :: rest).
    rewrite app_assoc, take_app_length.
    replace (S (length (map Some t ++ [Some ch])))
      with (length (map Some t ++ [Some ch]) + 1)%nat by lia.
    rewrite drop_app_add. cbn [drop].
    unfold terminated. rewrite map_app. cbn [map]. by rewrite <- !app_assoc. }
  pose proof (xi_mm _ _ _ _ _ X1) as Hmm1. pose proof (xi_mgr _ _ _ _ _ X1) as Hmgr1.
  pose proof (xinv_store _ _ _ _ _ X1 p Hs) as Hin.
  exists h3, L1, (MkXstr (Some p) (len xs + 1) (a xs1) (mm xs1)).
  split; [done|]. split; [done|]. split.
  { eapply (xinv_intro h3 L1 m _ p (set_payload d3 (set_payload d2 c))); cbn [s len a mm payload set_payload]; try done.
    - by rewrite Hh3, Hh2.
    - rewrite Hh3. cbn. by rewrite lookup_insert_eq.
    - pose proof (xi_nul _ _ _ _ _ X). set_solver.
    - rewrite length_app. cbn [length]. lia.
    - lia. }
  cbn [a s]. split; [done|]. intros Hle.
  destruct (Hgrow Hle) as (? & -> & ? & ?). rewrite Hh3, Hh2. cbn [upd_chunks brk chunks].
  do 3 (split; [done|]).
  rewrite <- H1.
  transitivity (sum_alloc (<[brk h:=set_payload d2 c]> (chunks h1)) (L1 m)).
  - apply sum_alloc_ext. intros x Hx. unfold alloc_at.
    destruct (decide (x = brk h)) as [->|?].
    + by rewrite !lookup_insert_eq.
    + by rewrite !lookup_insert_ne.
  - apply sum_alloc_ext. intros x Hx. unfold alloc_at.
    destruct (decide (x = brk h)) as [->|?].
    + by rewrite lookup_insert_eq, Hc.
    + by rewrite lookup_insert_ne.
Qed.

Lemma buffer_write_start h L m xs t p c t' :
  heap_inv h L → xinv h L m xs t → s xs = Some p → chunks h !! p = Some c →
  Z.of_nat (length (payload c)) = a xs + 1 → NUL ∉ t' →
  Z.of_nat (length t') ≤ a xs →
  ∃ d' h',
    write_at 0 (terminated t') (payload c) = Ok d' ∧
    store_payload (Some p) d' h = Ok h' ∧ heap_inv h' L ∧
    xinv h' L m (MkXstr (Some p) (Z.of_nat (length t')) (a xs) (mm xs)) t'.
Proof.
  intros HI X Hs Hc Hpl Hn Hcap.
  rewrite write_at_0 by (rewrite length_terminated; lia).
  destruct (xinv_write h L m xs t p c _ t'
              (drop (length (terminated t')) (payload c)) HI X Hs Hc eq_refl)
    as (h2 & Hst & HI2 & _ & X2); [|done|done|].
  { rewrite length_app, length_drop, length_terminated. lia. }
  eexists _, _. split; [done|]. split; [done|]. split; done.
Qed.

Lemma buffer_write_end h L m xs t p c rest t' :
  heap_inv h L → xinv h L m xs t → s xs = Some p → chunks h !! p = Some c →
  payload c = terminated t ++ rest →
  Z.of_nat (length (payload c)) = a xs + 1 → NUL ∉ t' →
  len xs + Z.of_nat (length t') ≤ a xs →
  ∃ d' h',
    write_at (Z.of_nat (length t)) (terminated t') (payload c) = Ok d' ∧
    store_payload (Some p) d' h = Ok h' ∧ heap_inv h' L ∧
    xinv h' L m (MkXstr (Some p) (len xs + Z.of_nat (length t')) (a xs) (mm xs))
         (t ++ t').
Proof.
  intros HI X Hs Hc Hp Hpl Hn Hcap.
  pose proof (xi_len _ _ _ _ _ X) as Hlt.
  assert (payload c = map Some t ++ (Some NUL :: rest)) as Hp'.
  { rewrite Hp. unfold terminated. by rewrite <- app_assoc. }
  pose proof Hpl as Hpl'.
  rewrite Hp', length_app, length_map in Hpl'. cbn [length] in Hpl'.
  set (rest' := drop (length (terminated t')) (Some NUL :: rest)).
  assert (write_at (Z.of_nat (length t)) (terminated t') (payload c) =
          Ok (map Some t ++ terminated t' ++ rest')) as Hw'.
  { pose proof (write_at_app (map Some t) (Some NUL :: rest) (terminated t')) as Hw.
    rewrite length_map in Hw. rewrite Hp'. apply Hw.
    rewrite length_terminated. cbn [length]. lia. }
  rewrite Hw'.
  destruct (xinv_write h L m xs t p c (map Some t ++ terminated t' ++ rest')
              (t ++ t') rest' HI X Hs Hc) as (h2 & Hst & HI2 & _ & X2).
  { by rewrite terminated_app, <- app_assoc. }
  { unfold rest'.
    rewrite Hp', !length_app, length_map, length_drop, length_terminated.
    cbn [length]. lia. }
  { pose proof (xi_nul _ _ _ _ _ X). set_solver. }
  { done. }
  rewrite length_app, Nat2Z.inj_add, <- Hlt in X2.
  eexists _, _. split; [done|]. split; [done|]. split; done.
Qed.

Lemma xstr_free_spec h L m xs t p :
  heap_inv h L → xinv h L m xs t → s xs = Some p →
  let xs' := MkXstr None 0 0 (mm xs) in
  let L' := upd_live m (remove_addr p (L m)) L in
  ∃ h', xstr_free xs h = Ok (h', xs') ∧ heap_inv h' L' ∧ xinv h' L' m xs' [] ∧
        chunks h' !! p = None.
Proof.
  intros HI X Hs xs' L'. unfold xstr_free, mmfreeptr. rewrite Hs.
  pose proof (xinv_store _ _ _ _ _ X p Hs) as Hin.
  pose proof (xi_mgr _ _ _ _ _ X) as Hmgr.
  destruct (mmatic_freeptr_spec h L m p HI (is_manager_is_Some _ _ Hmgr) Hin)
    as (h' & Hfree & Hgone & _ & HI' & _ & Hmt).
  rewrite Hfree. rsimpl.
  exists h'. split; [done|]. split; [done|]. split; [|done].
  destruct (resolve_owner_mgr_frame _ _ _ Hmgr Hmt) as (Hmgr' & _ & _).
  split; cbn [s len a mm xs']; try done.
  - apply X.
  - apply not_elem_of_nil.
Qed.

Lemma xstr_free_released xs h : s xs = None → xstr_free xs h = Ok (h, xs).
Proof. intros Hs. unfold xstr_free. by rewrite Hs. Qed.

Lemma xinv_released h L m :
  is_manager h (Some m) = true → xinv h L m (MkXstr None 0 0 (Some m)) [].
Proof. intros Hm. split; cbn; try done. apply not_elem_of_nil. Qed.

Lemma xstr_init_val_spec h L m t junk :
  heap_inv h L → is_manager h (Some m) = true → NUL ∉ t →
  fits h L m (Z.of_nat (length t) + 1) →
  ∃ h' L' xs',
    xstr_init_val (Some (t ++ NUL :: junk)) (Some m) h = Ok (h', xs') ∧
    heap_inv h' L' ∧ xinv h' L' m xs' t.
Proof.
  intros HI Hm Hn Hfit. unfold xstr_init_val.
  by apply (xstr_set_spec h L m _ []); [|apply xinv_released|..].
Qed.

Lemma xstr_init_spec h L m :
  heap_inv h L → is_manager h (Some m) = true → fits h L m 1 →
  ∃ h' L' xs',
    xstr_init (Some m) h = Ok (h', xs') ∧ heap_inv h' L' ∧ xinv h' L' m xs' [].
Proof.
  intros HI Hm Hfit. unfold xstr_init.
  apply (xstr_init_val_spec h L m [] []); try done. apply not_elem_of_nil.
Qed.

Lemma xstr_append_size_spec h L m xs t t' junk :
  heap_inv h L → xinv h L m xs t → NUL ∉ t' → t' ≠ [] →
  fits h L m (len xs + Z.of_nat (length t') + 1) →
  ∃ h' L' xs',
    xstr_append_size xs (Some (t' ++ junk)) (Z.of_nat (length t')) h = Ok (h', xs') ∧
    heap_inv h' L' ∧ xinv h' L' m xs' (t ++ t').
Proof.
  intros HI X Hn Hne Hfit. unfold xstr_append_size.
  assert ((Z.of_nat (length t') =? 0) = false) as -> by (destruct t'; [done|simpl; lia]).
  pose proof (xi_len _ _ _ _ _ X) as Hlt.
  destruct (xstr_reserve_spec h L m xs t (len xs + Z.of_nat (length t')) HI X
              ltac:(lia) Hfit)
    as (h1 & L1 & xs1 & p & c & rest & Hr & HI1 & X1 & Hcap & Hlen & Hmm & Hs & Hc & Hp & Hpl).
  rewrite Hr. rsimpl. cbn [src_cells]. unfold strncat_cells, load_payload. rsimpl.
  rewrite Hs. unfold get_chunk at 1. rewrite Hc.
  assert (cstr (payload c) = Ok t) as Hcs by (rewrite Hp; apply cstr_terminated, X).
  rewrite Hcs. rsimpl. rewrite (proj2 (Z.ltb_ge (Z.of_nat (length t')) 0)) by lia.
  rewrite Nat2Z.id, strn_read_exact by done.
  destruct (buffer_write_end h1 L1 m xs1 t p c rest t' HI1 X1 Hs Hc Hp Hpl Hn)
    as (d' & h2 & Hw & Hst & HI2 & X2); [lia|].
  rewrite Hw, Hst. rewrite Hlen in X2.
  eexists _, _, _. split; [done|]. split; done.
Qed.

Lemma xstr_set_size_spec h L m xs t t' junk n :
  heap_inv h L → xinv h L m xs t → NUL ∉ t' →
  (Z.of_nat (length t') = n ∨ (Z.of_nat (length t') < n ∧ ∃ j, junk = NUL :: j)) →
  fits h L m (n + 1) →
  ∃ h' L' p c rest a',
    xstr_set_size xs (Some (t' ++ junk)) n h = Ok (h', MkXstr (Some p) n a' (mm xs)) ∧
    heap_inv h' L' ∧ chunks h' !! p = Some c ∧ n ≤ a' ∧
    payload c = map Some t' ++ replicate (Z.to_nat n - length t') (Some NUL) ++
                [Some NUL] ++ rest ∧
    Z.of_nat (length (payload c)) = a' + 1 ∧
    (Z.of_nat (length t') = n → xinv h' L' m (MkXstr (Some p) n a' (mm xs)) t').
Proof.
  intros HI X Hn Hsrc Hfit. unfold xstr_set_size.
  assert (0 ≤ n) as Hn0 by lia.
  destruct (xstr_reserve_spec h L m xs t n HI X Hn0 Hfit)
    as (h1 & L1 & xs1 & p & c & rest & Hr & HI1 & X1 & Hcap & Hlen & Hmm & Hs & Hc & Hp & Hpl).
  rewrite Hr. rsimpl. cbn [src_cells]. unfold strncpy_cells, load_payload. rsimpl.
  rewrite Hs. unfold get_chunk at 1. rewrite Hc.
  rewrite (proj2 (Z.ltb_ge n 0)) by lia.
  assert (strn_read (Z.to_nat n) (map Some (t' ++ junk)) = Ok t') as Hrd.
  { destruct Hsrc as [<-|(Hlt & j & ->)].
    - rewrite Nat2Z.id. by apply strn_read_exact.
    - apply strn_read_short; [done|lia]. }
  rewrite Hrd.
  set (bytes := map Some t' ++ replicate (Z.to_nat n - length t') (Some NUL)).
  assert (length bytes = Z.to_nat n) as Hbl.
  { unfold bytes. rewrite length_app, length_map, length_replicate. lia. }
  rewrite write_at_0 by lia.
  set (d1 := bytes ++ drop (length bytes) (payload c)).
  assert (length d1 = length (payload c)) as Hl1.
  { unfold d1. rewrite length_app, length_drop. lia. }
  destruct (store_payload_spec h1 L1 p c d1 HI1 Hc Hl1) as (h2 & Hst2 & Hh2 & HI2).
  rewrite Hst2.
  assert (chunks h2 !! p = Some (set_payload d1 c)) as Hc2.
  { rewrite Hh2. cbn. by rewrite lookup_insert_eq. }
  destruct (store_char_spec h2 L1 p (set_payload d1 c) n NUL HI2 Hc2)
    as (h3 & Hst3 & HI3 & Hh3 & Hl3).
  { cbn [payload set_payload]. lia. }
  rewrite Hst3. cbn [payload set_payload] in *.
  set (d2 := take (Z.to_nat n) d1 ++ Some NUL :: drop (S (Z.to_nat n)) d1) in *.
  assert (d2 = bytes ++ [Some NUL] ++ drop (S (Z.to_nat n)) (payload c)) as Hd2.
  { unfold d2, d1. rewrite <- Hbl. rewrite take_app_length.
    replace (S (length bytes)) with (length bytes + 1)%nat by lia.
    rewrite drop_app_add, drop_drop. done. }
  assert (chunks h3 !! p = Some (set_payload d2 (set_payload d1 c))) as Hc3.
  { rewrite Hh3. cbn. by rewrite lookup_insert_eq. }
  rewrite Hmm.
  eexists h3, L1, p, _, _, (a xs1). split; [done|]. split; [done|].
  split; [done|]. split; [done|]. cbn [payload set_payload].
  split; [by rewrite Hd2; unfold bytes; rewrite <- app_assoc|].
  split; [lia|]. intros Hex.
  eapply (xinv_intro h3 L1 m _ p _ t'); cbn [s len a mm payload set_payload].
  - apply X.
  - rewrite Hh3, Hh2. apply X1.
  - done.
  - by apply (xinv_store _ _ _ _ _ X1).
  - done.
  - cbn [payload set_payload]. rewrite Hd2. unfold bytes, terminated.
    replace (Z.to_nat n - length t')%nat with 0%nat by lia.
    cbn [replicate]. rewrite app_nil_r, <- app_assoc. done.
  - done.
  - done.
  - cbn [payload set_payload]. lia.
Qed.

Lemma xstr_set_format_spec h L m xs t r :
  heap_inv h L → xinv h L m xs t → NUL ∉ r → r ≠ [] →
  fits h L m (Z.of_nat (length r) + 1) →
  ∃ h' L' xs',
    xstr_set_format xs r r h = Ok (h', xs', Z.of_nat (length r)) ∧
    heap_inv h' L' ∧ xinv h' L' m xs' r.
Proof.
  intros HI X Hn Hne Hfit. unfold xstr_set_format.
  destruct (xstr_reserve_spec h L m xs t (Z.of_nat (length r)) HI X ltac:(lia) Hfit)
    as (h1 & L1 & xs1 & p & c & rest & Hr & HI1 & X1 & Hcap & Hlen & Hmm & Hs & Hc & Hp & Hpl).
  rewrite Hr. rsimpl. unfold vsnprintf.
  replace (a xs1 + 1 <=? 0) with false by (symmetry; apply Z.leb_gt; lia).
  unfold load_payload. rsimpl.
  rewrite Hs. unfold get_chunk at 1. rewrite Hc.
  rewrite take_ge by lia.
  destruct (buffer_write_start h1 L1 m xs1 t p c r HI1 X1 Hs Hc Hpl Hn Hcap)
    as (d' & h2 & Hw & Hst & HI2 & X2).
  rewrite Hw, Hst, Z.eqb_refl.
  assert ((Z.of_nat (length r) >? 0) = true) as ->.
  { destruct r; [done|]. rewrite Z.gtb_ltb. apply Z.ltb_lt. cbn [length]. lia. }
  eexists _, _, _. split; [done|]. split; done.
Qed.

Lemma xstr_append_format_spec h L m xs t r :
  heap_inv h L → xinv h L m xs t → NUL ∉ r →
  fits h L m (len xs + Z.of_nat (length r) + 1) →
  ∃ h' L' xs',
    xstr_append_format xs r r h = Ok (h', xs', Z.of_nat (length r)) ∧
    heap_inv h' L' ∧ xinv h' L' m xs' (t ++ r).
Proof.
  intros HI X Hn Hfit. unfold xstr_append_format.
  pose proof (xi_len _ _ _ _ _ X) as Hlt.
  destruct (xstr_reserve_spec h L m xs t (len xs + Z.of_nat (length r)) HI X
              ltac:(lia) Hfit)
    as (h1 & L1 & xs1 & p & c & rest & Hr & HI1 & X1 & Hcap & Hlen & Hmm & Hs & Hc & Hp & Hpl).
  rewrite Hr. rsimpl. unfold vsnprintf.
  replace (a xs1 - len xs1 + 1 <=? 0) with false by (symmetry; apply Z.leb_gt; lia).
  unfold load_payload. rsimpl.
  rewrite Hs. unfold get_chunk at 1. rewrite Hc.
  rewrite take_ge by lia.
  destruct (buffer_write_end h1 L1 m xs1 t p c rest r HI1 X1 Hs Hc Hp Hpl Hn)
    as (d' & h2 & Hw & Hst & HI2 & X2); [lia|].
  rewrite Hlen, Hlt, Hw, Hst, Z.eqb_refl.
  destruct r as [|r0 r].
  - change (Z.of_nat (length (@nil ascii))) with 0 in *.
    change (0 >? 0) with false. cbn iota. rewrite app_nil_r in *.
    eexists _, _, _. split; [done|]. split; [done|].
    destruct X2 as [? ? Hl2 ? Hs2]. destruct X1 as [? ? Hl1 ? Hs1].
    split; try done. cbn [s a len] in *. by rewrite Hs.
  - assert ((Z.of_nat (length (r0 :: r)) >? 0) = true) as ->
      by (rewrite Z.gtb_ltb; apply Z.ltb_lt; cbn [length]; lia).
    rewrite Hlen, Hlt in X2.
    eexists _, _, _. split; [done|]. split; done.
Qed.

Lemma xstr_create_spec h L m t junk :
  heap_inv h L → is_manager h (Some m) = true → NUL ∉ t → 0 ≤ sizeof_xstr →
  fits h L m (sizeof_xstr + Z.of_nat (length t) + 1) →
  ∃ h' L' new xs',
    xstr_create (Some (t ++ NUL :: junk)) (Some m) h = Ok (h', new, xs') ∧
    heap_inv h' L' ∧ xinv h' L' m xs' t.
Proof.
  intros HI Hm Hn Hsz Hfit. unfold xstr_create, mmatic_alloc.
  pose proof (is_manager_Some _ _ Hm) as (m0 & M & [= <-] & HM & HMt).
  pose proof (owner_of_mgr _ _ _ HM HMt) as Hres.
  destruct (mmatic_allocate_spec h L sizeof_xstr (Some m) false false m HI Hsz Hres)
    as (h1 & cb & Hal1 & Hbfresh & Hcb & Hsh & Hasz & Hpl & HI1 & Hdata1 & Hmt1 & Hbrk1).
  { unfold fits in Hfit. lia. }
  rewrite Hal1. rsimpl.
  destruct (resolve_owner_mgr_frame _ _ _ Hm Hmt1) as (Hmgr1 & _ & Hm1).
  destruct (xstr_init_val_spec h1 _ m t junk HI1 Hmgr1 Hn) as (h2 & L2 & xs2 & Hi & HI2 & X2).
  { unfold fits in *. rewrite upd_live_eq, sum_alloc_app. cbn [sum_alloc].
    unfold alloc_at at 1. rewrite Hcb, Hasz.
    rewrite (sum_alloc_same_data (chunks h)); [lia|].
    intros x Hx. apply Hdata1. intros ->.
    destruct (hi_mgrs _ _ HI m ltac:(eauto)) as (M0 & f & _ & W).
    destruct (wf_live _ _ _ _ _ W _ Hx) as (c0 & Hc0 & _). congruence. }
  rewrite Hi. eexists _, _, _, _. split; [done|]. split; done.
Qed.

(** ** [xstr_strip] *)

Lemma skip_ungraph_split t : ∃ pre, t = pre ++ skip_ungraph t.
Proof.
  induction t as [|c t [pre IH]]; simpl.
  - by exists [].
  - destruct (isgraph c); [by exists []|]. exists (c :: pre). simpl. by f_equal.
Qed.

Lemma keep_prefix z : ∃ tr, z = rev (skip_ungraph (rev z)) ++ tr.
Proof.
  destruct (skip_ungraph_split (rev z)) as [pre Hpre].
  exists (rev pre). rewrite <- rev_app_distr, <- Hpre. by rewrite rev_involutive.
Qed.

Lemma read_at_cells (w : list ascii) rest k c :
  w !! k = Some c → read_at (Z.of_nat k) (map Some w ++ rest) = Ok c.
Proof.
  intros Hk. unfold read_at. rewrite (proj2 (Z.ltb_ge _ 0)) by lia.
  rewrite Nat2Z.id, lookup_app_l.
  - change (map Some w) with (Some <$> w). by rewrite list_lookup_fmap, Hk.
  - rewrite length_map. by eapply lookup_lt_Some.
Qed.

Lemma load_char_cells h p c (w : list ascii) rest k x :
  chunks h !! p = Some c → payload c = map Some w ++ rest → w !! k = Some x →
  load_char (Some p) (Z.of_nat k) h = Ok x.
Proof.
  intros Hc Hp Hk. unfold load_char, load_payload. rsimpl.
  unfold get_chunk. rewrite Hc, Hp. by apply read_at_cells.
Qed.

Lemma strip_fwd_spec h p c rest u : ∀ pre,
  chunks h !! p = Some c → payload c = map Some (pre ++ u) ++ rest →
  strip_fwd (length u) (Z.of_nat (length pre)) (Some p) h =
    Ok (Z.of_nat (length pre) + Z.of_nat (length u) - Z.of_nat (length (skip_ungraph u))).
Proof.
  induction u as [|x u IH]; intros pre Hc Hp; cbn [strip_fwd length skip_ungraph].
  - f_equal. lia.
  - rewrite (load_char_cells h p c (pre ++ x :: u) rest (length pre) x Hc Hp)
      by (by apply list_lookup_middle).
    rsimpl. destruct (isgraph x); [f_equal; cbn [length]; lia|].
    specialize (IH (pre ++ [x]) Hc). rewrite length_app in IH. cbn [length] in IH.
    replace (Z.of_nat (length pre) + 1) with (Z.of_nat (length pre + 1)) by lia.
    rewrite IH by (by rewrite <- app_assoc). f_equal. lia.
Qed.

Lemma strip_bwd_spec h p c rest pre z : ∀ post,
  chunks h !! p = Some c → payload c = map Some (pre ++ z ++ post) ++ rest →
  strip_bwd (length z) (Z.of_nat (length pre) + Z.of_nat (length z) - 1) (Some p) h =
    Ok (Z.of_nat (length pre) + Z.of_nat (length (rev (skip_ungraph (rev z)))) - 1).
Proof.
  induction z as [|x z IH] using rev_ind; intros post Hc Hp.
  - cbn. done.
  - rewrite length_app. cbn [length]. rewrite Nat.add_1_r. cbn [strip_bwd].
    replace (Z.of_nat (length pre) + Z.of_nat (S (length z)) - 1)
      with (Z.of_nat (length pre + length z)) by lia.
    rewrite (load_char_cells h p c _ rest (length pre + length z) x Hc Hp).
    2:{ rewrite <- (app_assoc z), app_assoc. apply list_lookup_middle.
        by rewrite length_app. }
    rsimpl. rewrite rev_app_distr. cbn [rev app skip_ungraph].
    destruct (isgraph x).
    + f_equal. cbn [rev]. rewrite length_app, !length_rev. cbn [length]. lia.
    + replace (Z.of_nat (length pre + length z) - 1)
        with (Z.of_nat (length pre) + Z.of_nat (length z) - 1) by lia.
      apply (IH (x :: post)); [done|]. by rewrite <- app_assoc in Hp.
Qed.

Lemma strip_copy_spec L p ret cp rest v : ∀ h pre post done_ cr extra,
  heap_inv h L → p ≠ ret →
  chunks h !! p = Some cp → payload cp = map Some (pre ++ v ++ post) ++ rest →
  chunks h !! ret = Some cr →
  payload cr = done_ ++ replicate (length v + extra) None →
  ∃ h' cr',
    strip_copy (length v) (Z.of_nat (length pre)) (Z.of_nat (length done_))
               (Some p) (Some ret) h
      = Ok (h', Z.of_nat (length done_ + length v)) ∧
    heap_inv h' L ∧ chunks h' !! ret = Some cr' ∧
    payload cr' = done_ ++ map Some v ++ replicate extra None ∧
    (∀ x, x ≠ ret → chunks h' !! x = chunks h !! x) ∧
    mgrs h' = mgrs h ∧ brk h' = brk h.
Proof.
  induction v as [|x v IH]; intros h pre post done_ cr extra HI Hne Hcp Hp Hcr Hr.
  - exists h, cr. cbn [strip_copy length]. rewrite Nat.add_0_r.
    do 3 (split; [done|]). split; [done|]. done.
  - cbn [strip_copy length]. unfold load_payload. rsimpl.
    unfold get_chunk at 1. rewrite Hcp.
    rewrite (proj2 (Z.ltb_ge _ 0)) by lia. rewrite Nat2Z.id, Hp.
    rewrite lookup_app_l
      by (rewrite length_map, !length_app; cbn [length]; lia).
    change (map Some (pre ++ (x :: v) ++ post)) with (Some <$> (pre ++ (x :: v) ++ post)).
    rewrite list_lookup_fmap.
    rewrite (list_lookup_middle pre (v ++ post) x) by done. cbn [fmap option_fmap option_map].
    unfold get_chunk at 1. rewrite Hcr, Hr.
    cbn [length Nat.add replicate].
    rewrite (write_at_app done_ (None :: replicate (length v + extra) None) [Some x])
      by (cbn [length]; lia).
    cbn [length drop]. rewrite drop_0.
    set (d1 := done_ ++ [Some x] ++ replicate (length v + extra) None).
    destruct (store_payload_spec h L ret cr d1 HI Hcr) as (h1 & Hst & Hh1 & HI1).
    { unfold d1. rewrite Hr, !length_app. cbn [length]. rewrite !length_replicate.
      lia. }
    rewrite Hst.
    assert (chunks h1 !! ret = Some (set_payload d1 cr)) as Hcr1.
    { rewrite Hh1. cbn. by rewrite lookup_insert_eq. }
    assert (chunks h1 !! p = Some cp) as Hcp1.
    { rewrite Hh1. cbn. by rewrite lookup_insert_ne. }
    destruct (IH h1 (pre ++ [x]) post (done_ ++ [Some x]) (set_payload d1 cr) extra
                HI1 Hne Hcp1) as (h' & cr' & Hcopy & HI' & Hcr' & Hp' & Hfr & Hmg & Hbrk);
      [by rewrite <- !app_assoc| done | |].
    { cbn [payload set_payload]. unfold d1. by rewrite <- app_assoc. }
    rewrite !length_app in Hcopy. cbn [length] in Hcopy.
    replace (Z.of_nat (length pre) + 1) with (Z.of_nat (length pre + 1)) by lia.
    replace (Z.of_nat (length done_) + 1) with (Z.of_nat (length done_ + 1)) by lia.
    rewrite Hcopy.
    exists h', cr'. split; [f_equal; f_equal; lia|]. split; [done|].
    split; [done|]. split.
    { rewrite Hp'. rewrite <- !app_assoc. done. }
    split; [|by rewrite Hmg, Hbrk, Hh1].
    intros y Hy. rewrite Hfr by done. rewrite Hh1. cbn. by rewrite lookup_insert_ne.
Qed.

Lemma keep_NUL u :
  rev (skip_ungraph (rev (u ++ [NUL]))) = rev (skip_ungraph (rev u)).
Proof. rewrite rev_app_distr. done. Qed.

Lemma xstr_strip_spec h L m xs t p :
  heap_inv h L → xinv h L m xs t → s xs = Some p →
  fits h L m (Z.of_nat (length (stripped t)) + 1) →
  let ret := brk h in
  let L' := upd_live m (L m ++ [ret]) L in
  ∃ h' c,
    xstr_strip xs h = Ok (h', Some ret) ∧
    chunks h !! ret = None ∧ chunks h' !! ret = Some c ∧
    payload c = terminated (stripped t) ∧
    heap_inv h' L' ∧ xinv h' L' m xs t.
Proof.
  intros HI X Hs Hfit ret L'.
  pose proof X as [Hmm Hmgr Hlen Hnul Hst]. rewrite Hs in Hst.
  destruct Hst as (Hin & c & rest & Hc & Hp & Hpl).
  destruct (skip_ungraph_split t) as [pre Ht].
  set (u := skip_ungraph t) in *.
  destruct (keep_prefix u) as [tr Hu].
  set (v := stripped t) in *. change (rev (skip_ungraph (rev u))) with v in Hu.
  assert (length t = (length pre + length u)%nat) as Hlt
    by (rewrite Ht at 1; by rewrite length_app).
  assert (length u = (length v + length tr)%nat) as Hlu
    by (rewrite Hu at 1; by rewrite length_app).
  assert (payload c = map Some ([] ++ t) ++ (Some NUL :: rest)) as Hp0.
  { rewrite Hp. unfold terminated. by rewrite <- app_assoc. }
  assert (payload c = map Some (pre ++ (u ++ [NUL]) ++ []) ++ rest) as Hp1.
  { rewrite Hp. unfold terminated. rewrite app_nil_r, app_assoc, <- Ht.
    by rewrite map_app. }
  assert (payload c = map Some (pre ++ v ++ (tr ++ [NUL])) ++ rest) as Hp2.
  { rewrite Hp1. rewrite app_nil_r. rewrite Hu at 1. by rewrite <- !app_assoc. }
  unfold xstr_strip. rewrite Hs, Hlen, Nat2Z.id.
  pose proof (strip_fwd_spec h p c _ t [] Hc Hp0) as Hf.
  cbn [length] in Hf. change (Z.of_nat 0) with 0 in Hf. rewrite Hf. clear Hf. rsimpl.
  fold u.
  replace (0 + Z.of_nat (length t) - Z.of_nat (length u)) with (Z.of_nat (length pre))
    by lia.
  replace (Z.to_nat (Z.of_nat (length t) - Z.of_nat (length pre) + 1))
    with (length (u ++ [NUL])) by (rewrite length_app; cbn [length]; lia).
  pose proof (strip_bwd_spec h p c rest pre (u ++ [NUL]) [] Hc Hp1) as Hb.
  rewrite keep_NUL in Hb. change (rev (skip_ungraph (rev u))) with v in Hb.
  replace (Z.of_nat (length pre) + Z.of_nat (length (u ++ [NUL])) - 1)
    with (Z.of_nat (length t)) in Hb by (rewrite length_app; cbn [length]; lia).
  rewrite Hb. clear Hb.
  replace (Z.of_nat (length pre) + Z.of_nat (length v) - 1 - Z.of_nat (length pre) + 2)
    with (Z.of_nat (length v) + 1) by lia.
  replace (Z.to_nat (Z.of_nat (length pre) + Z.of_nat (length v) - 1 + 1 -
                     Z.of_nat (length pre))) with (length v) by lia.
  pose proof (is_manager_Some _ _ Hmgr) as (m0 & M & [= <-] & HM & HMt).
  pose proof (owner_of_mgr _ _ _ HM HMt) as Hres.
  destruct (mmatic_allocate_spec h L (Z.of_nat (length v) + 1) (Some m) false false m
              HI ltac:(lia) Hres Hfit)
    as (h1 & cb & Hal1 & Hbfresh & Hcb & Hsh & Hasz & Hpl1 & HI1 & Hdata1 & Hmt1 & Hbrk1).
  fold ret in Hal1, Hbfresh, Hcb, HI1, Hdata1, Hbrk1. fold L' in HI1.
  unfold mmatic_alloc. rewrite Hmm, Hal1.
  assert (p ≠ ret) as Hpr by congruence.
  destruct (same_data_Some _ _ _ _ (Hdata1 p Hpr) Hc)
    as (c1 & Hc1 & Ht1 & Hs1 & Ha1 & Hm1 & Hp1').
  destruct (strip_copy_spec L' p ret c1 rest v h1 pre (tr ++ [NUL]) [] cb 1
              HI1 Hpr Hc1) as (h2 & cr2 & Hcopy & HI2 & Hcr2 & Hpay2 & Hfr2 & Hmg2 & Hbrk2);
    [by rewrite Hp1', Hp2|done| |].
  { rewrite Hpl1. cbn [app]. f_equal. lia. }
  cbn [length app] in Hcopy, Hpay2. change (Z.of_nat 0) with 0 in Hcopy.
  rewrite Hcopy. cbn [Nat.add].
  destruct (store_char_spec h2 L' ret cr2 (Z.of_nat (length v)) NUL HI2 Hcr2)
    as (h3 & Hst3 & HI3 & Hh3 & Hl3).
  { rewrite Hpay2, length_app, length_map, length_replicate. lia. }
  rewrite Hst3.
  eexists h3, _. split; [done|]. split; [done|]. split.
  { rewrite Hh3. cbn. by rewrite lookup_insert_eq. }
  split.
  { cbn [payload set_payload]. rewrite Hpay2, Nat2Z.id.
    rewrite take_app_length' by (by rewrite length_map).
    replace (S (length v)) with (length v + 1)%nat by lia.
    rewrite drop_app_add' by (by rewrite length_map). done. }
  split; [done|].
  assert (chunks h3 !! p = Some c1) as Hc3.
  { rewrite Hh3. cbn. rewrite lookup_insert_ne by done. by rewrite Hfr2. }
  eapply (xinv_intro h3 L' m xs p c1 t rest); try done.
  - destruct (resolve_owner_mgr_frame h h3 m Hmgr) as (? & _); [|done].
    intros x. rewrite Hh3. cbn. rewrite Hmg2. apply Hmt1.
  - unfold L'. rewrite upd_live_eq. apply elem_of_app. by left.
  - by rewrite Hp1'.
  - by rewrite Hp1'.
Qed.

(** ** Properties of the string buffer *)

Lemma xinv_content h L m xs t :
  xinv h L m xs t → is_Some (s xs) → xstr_content h xs = Ok t.
Proof.
  intros [_ _ _ Hn Hst] [p Hs]. rewrite Hs in Hst.
  destruct Hst as (_ & c & rest & Hc & Hp & _).
  unfold xstr_content, load_payload. rsimpl. rewrite Hs. unfold get_chunk.
  rewrite Hc, Hp. by apply cstr_terminated.
Qed.

Lemma xinv_ok h L m xs t : xinv h L m xs t → xstr_ok h xs.
Proof.
  intros X. split; [by eapply xinv_a_nonneg|].
  destruct (s xs) as [p|] eqn:Hs; [|done].
  exists t. split; [|symmetry; apply X].
  eapply xinv_content; [done|]. rewrite Hs. eauto.
Qed.

(** C3, as the code has it.  Starting from a buffer in good order, every
    operation of the buffer API leaves a buffer in good order, for which
    capacity ≥ length holds and whose storage, when non-null, holds exactly
    [len] characters and a terminator: init and create for a manager
    handle; reserve; set; append; appendChar; free; setSized and appendSized
    when the source has [n] characters before any NUL; appendFormat when the
    two passes agree on a rendering that has no NUL byte; setFormat when
    they agree on such a rendering that is not empty.  The running total of
    the manager stays within the range of its counter. *)
Theorem buffer_invariant :
  (∀ h L m xs t, buffer_state h L m xs t → xstr_ok h xs) ∧
  (∀ h L m t junk,
     heap_inv h L → is_manager h (Some m) = true → NUL ∉ t →
     (fits h L m (Z.of_nat (length t) + 1) →
      ∃ h' L' xs', xstr_init_val (Some (t ++ NUL :: junk)) (Some m) h = Ok (h', xs') ∧
                   buffer_state h' L' m xs' t) ∧
     (fits h L m 1 →
      ∃ h' L' xs', xstr_init (Some m) h = Ok (h', xs') ∧ buffer_state h' L' m xs' []) ∧
     (0 ≤ sizeof_xstr → fits h L m (sizeof_xstr + Z.of_nat (length t) + 1) →
      ∃ h' L' new xs', xstr_create (Some (t ++ NUL :: junk)) (Some m) h = Ok (h', new, xs') ∧
                       buffer_state h' L' m xs' t)) ∧
  (∀ h L m xs t, buffer_state h L m xs t →
     (∀ l, 0 ≤ l → fits h L m (l + 1) →
        ∃ h' L' xs', xstr_reserve xs l h = Ok (h', xs') ∧ l ≤ a xs' ∧
                     buffer_state h' L' m xs' t) ∧
     (∀ t' junk, NUL ∉ t' → fits h L m (Z.of_nat (length t') + 1) →
        ∃ h' L' xs', xstr_set xs (Some (t' ++ NUL :: junk)) h = Ok (h', xs') ∧
                     buffer_state h' L' m xs' t') ∧
     (∀ t' junk, NUL ∉ t' → fits h L m (Z.of_nat (length t') + 1) →
        ∃ h' L' xs', xstr_set_size xs (Some (t' ++ junk)) (Z.of_nat (length t')) h
                       = Ok (h', xs') ∧
                     buffer_state h' L' m xs' t') ∧
     (∀ t' junk, NUL ∉ t' → fits h L m (Z.of_nat (length t') + len xs + 1) →
        ∃ h' L' xs', xstr_append xs (Some (t' ++ NUL :: junk)) h = Ok (h', xs') ∧
                     buffer_state h' L' m xs' (t ++ t')) ∧
     xstr_append xs None h = Ok (h, xs) ∧
     (∀ t' junk, NUL ∉ t' → fits h L m (len xs + Z.of_nat (length t') + 1) →
        ∃ h' L' xs', xstr_append_size xs (Some (t' ++ junk)) (Z.of_nat (length t')) h
                       = Ok (h', xs') ∧
                     buffer_state h' L' m xs' (t ++ t')) ∧
     (∀ n, xstr_append_size xs None n h = Ok (h, xs)) ∧
     (∀ c, fits h L m (grow_target (len xs) + 1) →
        ∃ h' L' xs', xstr_append_char xs c h = Ok (h', xs') ∧
                     buffer_state h' L' m xs' (if decide (c = NUL) then t else t ++ [c])) ∧
     (∀ r, NUL ∉ r → r ≠ [] → fits h L m (Z.of_nat (length r) + 1) →
        ∃ h' L' xs', xstr_set_format xs r r h = Ok (h', xs', Z.of_nat (length r)) ∧
                     buffer_state h' L' m xs' r) ∧
     (∀ r, NUL ∉ r → fits h L m (len xs + Z.of_nat (length r) + 1) →
        ∃ h' L' xs', xstr_append_format xs r r h = Ok (h', xs', Z.of_nat (length r)) ∧
                     buffer_state h' L' m xs' (t ++ r)) ∧
     (∃ h' L' xs', xstr_free xs h = Ok (h', xs') ∧ s xs' = None ∧
                   buffer_state h' L' m xs' [])).
Proof.
  unfold buffer_state. split; [|split].
  - intros h L m xs t [_ X]. by eapply xinv_ok.
  - intros h L m t junk HI Hm Hn. split; [|split].
    + intros Hfit. destruct (xstr_init_val_spec h L m t junk HI Hm Hn Hfit)
        as (h' & L' & xs' & ? & ? & ?). by exists h', L', xs'.
    + intros Hfit. destruct (xstr_init_spec h L m HI Hm Hfit)
        as (h' & L' & xs' & ? & ? & ?). by exists h', L', xs'.
    + intros Hsz Hfit. destruct (xstr_create_spec h L m t junk HI Hm Hn Hsz Hfit)
        as (h' & L' & new & xs' & ? & ? & ?). by exists h', L', new, xs'.
  - intros h L m xs t [HI X].
    split; [|split; [|split; [|split; [|split; [|split; [|split; [|split; [|split; [|split]]]]]]]]].
    + intros l Hl Hfit. destruct (xstr_reserve_spec h L m xs t l HI X Hl Hfit)
        as (h' & L' & xs' & p & c & rest & ? & ? & ? & ? & _). by exists h', L', xs'.
    + intros t' junk Hn Hfit. destruct (xstr_set_spec h L m xs t t' junk HI X Hn Hfit)
        as (h' & L' & xs' & ? & ? & ?). by exists h', L', xs'.
    + intros t' junk Hn Hfit.
      destruct (xstr_set_size_spec h L m xs t t' junk (Z.of_nat (length t')) HI X Hn
                  ltac:(by left) Hfit)
        as (h' & L' & p & c & rest & a' & ? & ? & _ & _ & _ & _ & HX).
      eexists h', L', _. split; [done|]. split; [done|]. by apply HX.
    + intros t' junk Hn Hfit. destruct t' as [|c0 t'].
      * rewrite app_nil_r. cbn [app]. unfold xstr_append, strlen, src_cells. rsimpl.
        cbn [map cstr]. destruct (decide (NUL = NUL)); [|done]. cbn.
        by exists h, L, xs.
      * destruct (xstr_append_spec h L m xs t (c0 :: t') junk HI X Hn ltac:(done) Hfit)
          as (h' & L' & xs' & ? & ? & ?). by exists h', L', xs'.
    + done.
    + intros t' junk Hn Hfit. destruct t' as [|c0 t'].
      * rewrite app_nil_r. cbn [app length]. change (Z.of_nat 0) with 0.
        unfold xstr_append_size. cbn. by exists h, L, xs.
      * destruct (xstr_append_size_spec h L m xs t (c0 :: t') junk HI X Hn
                    ltac:(done) Hfit) as (h' & L' & xs' & ? & ? & ?).
        by exists h', L', xs'.
    + intros n. done.
    + intros c Hfit. destruct (decide (c = NUL)) as [->|Hc].
      * unfold xstr_append_char. rewrite decide_True by done. by exists h, L, xs.
      * destruct (xstr_append_char_spec h L m xs t c HI X Hc Hfit)
          as (h' & L' & xs' & ? & ? & ? & _). by exists h', L', xs'.
    + intros r Hn Hne Hfit. destruct (xstr_set_format_spec h L m xs t r HI X Hn Hne Hfit)
        as (h' & L' & xs' & ? & ? & ?). by exists h', L', xs'.
    + intros r Hn Hfit. destruct (xstr_append_format_spec h L m xs t r HI X Hn Hfit)
        as (h' & L' & xs' & ? & ? & ?). by exists h', L', xs'.
    + destruct (s xs) as [p|] eqn:Hs.
      * destruct (xstr_free_spec h L m xs t p HI X Hs) as (h' & ? & ? & ? & _).
        by eexists h', _, _.
      * rewrite xstr_free_released by done. exists h, L, xs.
        split; [done|]. split; [done|]. split; [done|].
        pose proof X as [_ _ _ _ Hst]. rewrite Hs in Hst. by destruct Hst as [-> _].
Qed.

(** C5, as the code has it.  [reserve(buffer, minLength)] changes nothing when
    the capacity is greater than [minLength]; otherwise (capacity equal to
    or below [minLength]) it allocates a new backing chunk of
    [minLength + 1] bytes that receives the content and its terminator, the
    old backing chunk is released, and the capacity becomes [minLength]. *)
Theorem reserve_behaviour h L m xs t l :
  buffer_state h L m xs t → 0 ≤ l →
  (l < a xs → xstr_reserve xs l h = Ok (h, xs)) ∧
  (a xs ≤ l → fits h L m (l + 1) →
   ∃ h' L' c,
     xstr_reserve xs l h = Ok (h', MkXstr (Some (brk h)) (len xs) l (mm xs)) ∧
     chunks h !! brk h = None ∧
     chunks h' !! brk h = Some c ∧ alloc c = l + 1 ∧
     payload c = terminated t ++ replicate (Z.to_nat (l - len xs)) None ∧
     (∀ p, s xs = Some p → chunks h' !! p = None) ∧
     buffer_state h' L' m (MkXstr (Some (brk h)) (len xs) l (mm xs)) t).
Proof.
  intros [HI X] Hl. split.
  - intros Hlt. by apply xstr_reserve_keep.
  - intros Hle Hfit.
    destruct (xstr_reserve_grow h L m xs t l HI X Hle Hfit)
      as (h' & c & Hr & HI' & X' & _ & Hfresh & Hold & Hc & Hal & Hp & _).
    eexists h', _, c. do 5 (split; [done|]). split; [|done].
    intros p Hs. by rewrite Hs in Hold.
Qed.

(** C6, as the code has it.  [setSized(buffer, s, n)] copies the bytes of
    [s] that come before its first NUL among the first [n] (all [n] of them
    when there is none), fills up to [n] bytes with NULs, writes a
    terminator after them and sets the length to [n]. *)
Theorem set_size_copies_up_to_nul h L m xs t t' junk n :
  buffer_state h L m xs t → NUL ∉ t' →
  (Z.of_nat (length t') = n ∨ (Z.of_nat (length t') < n ∧ ∃ j, junk = NUL :: j)) →
  fits h L m (n + 1) →
  ∃ h' L' p c rest a',
    xstr_set_size xs (Some (t' ++ junk)) n h = Ok (h', MkXstr (Some p) n a' (mm xs)) ∧
    heap_inv h' L' ∧ chunks h' !! p = Some c ∧ n ≤ a' ∧
    payload c = map Some t' ++ replicate (Z.to_nat n - length t') (Some NUL) ++
                [Some NUL] ++ rest.
Proof.
  intros [HI X] Hn Hsrc Hfit.
  destruct (xstr_set_size_spec h L m xs t t' junk n HI X Hn Hsrc Hfit)
    as (h' & L' & p & c & rest & a' & ? & ? & ? & ? & ? & _).
  by exists h', L', p, c, rest, a'.
Qed.

(** C7, as the code has it.  [append] leaves the buffer as it is when the
    input is null or the empty string; [appendSized] does so when the input
    is null or the count is 0. *)
Theorem append_nothing xs h :
  xstr_append xs None h = Ok (h, xs) ∧
  (∀ junk, xstr_append xs (Some (NUL :: junk)) h = Ok (h, xs)) ∧
  (∀ n, xstr_append_size xs None n h = Ok (h, xs)) ∧
  (∀ str, xstr_append_size xs str 0 h = Ok (h, xs)).
Proof.
  split; [done|]. split; [|split].
  - intros junk. unfold xstr_append, strlen, src_cells. rsimpl. cbn [map cstr].
    by destruct (decide (NUL = NUL)).
  - done.
  - intros [bytes|]; done.
Qed.



(** C10, as the code has it.  After [free] the buffer has length 0,
    capacity 0 and no storage, and is in good order.  A second [free]
    changes nothing.  Every mutator then works on it and gives it storage:
    set, append and appendChar; setSized and appendSized for a source that
    has the [n] characters before any NUL; setFormat and appendFormat when
    the writing pass renders what the measuring pass measured and the
    rendering has no NUL byte (for setFormat: a rendering that is not
    empty). *)
Theorem free_then_reuse h L m xs t :
  buffer_state h L m xs t →
  let xs0 := MkXstr None 0 0 (Some m) in
  let L' := match s xs with
            | Some p => upd_live m (remove_addr p (L m)) L
            | None => L
            end in
  ∃ h',
    xstr_free xs h = Ok (h', xs0) ∧ buffer_state h' L' m xs0 [] ∧
    xstr_free xs0 h' = Ok (h', xs0) ∧
    (∀ t' junk, NUL ∉ t' → fits h' L' m (Z.of_nat (length t') + 1) →
       ∃ h2 L2 xs2, xstr_set xs0 (Some (t' ++ NUL :: junk)) h' = Ok (h2, xs2) ∧
                    is_Some (s xs2) ∧ buffer_state h2 L2 m xs2 t') ∧
    (∀ t' junk, NUL ∉ t' → fits h' L' m (Z.of_nat (length t') + 1) →
       ∃ h2 L2 xs2, xstr_set_size xs0 (Some (t' ++ junk)) (Z.of_nat (length t')) h'
                      = Ok (h2, xs2) ∧
                    is_Some (s xs2) ∧ buffer_state h2 L2 m xs2 t') ∧
    (∀ t' junk, NUL ∉ t' → t' ≠ [] → fits h' L' m (Z.of_nat (length t') + 1) →
       ∃ h2 L2 xs2, xstr_append xs0 (Some (t' ++ NUL :: junk)) h' = Ok (h2, xs2) ∧
                    is_Some (s xs2) ∧ buffer_state h2 L2 m xs2 t') ∧
    (∀ t' junk, NUL ∉ t' → t' ≠ [] → fits h' L' m (Z.of_nat (length t') + 1) →
       ∃ h2 L2 xs2, xstr_append_size xs0 (Some (t' ++ junk)) (Z.of_nat (length t')) h'
                      = Ok (h2, xs2) ∧
                    is_Some (s xs2) ∧ buffer_state h2 L2 m xs2 t') ∧
    (∀ c, c ≠ NUL → fits h' L' m 3 →
       ∃ h2 L2 xs2, xstr_append_char xs0 c h' = Ok (h2, xs2) ∧
                    is_Some (s xs2) ∧ buffer_state h2 L2 m xs2 [c]) ∧
    (∀ r, NUL ∉ r → r ≠ [] → fits h' L' m (Z.of_nat (length r) + 1) →
       ∃ h2 L2 xs2, xstr_set_format xs0 r r h' = Ok (h2, xs2, Z.of_nat (length r)) ∧
                    is_Some (s xs2) ∧ buffer_state h2 L2 m xs2 r) ∧
    (∀ r, NUL ∉ r → fits h' L' m (Z.of_nat (length r) + 1) →
       ∃ h2 L2 xs2, xstr_append_format xs0 r r h' = Ok (h2, xs2, Z.of_nat (length r)) ∧
                    is_Some (s xs2) ∧ buffer_state h2 L2 m xs2 r).
Proof.
  intros [HI X] xs0 L'.
  assert (∃ h', xstr_free xs h = Ok (h', xs0) ∧ heap_inv h' L' ∧ xinv h' L' m xs0 [])
    as (h' & Hfree & HI' & X').
  { pose proof (xi_mm _ _ _ _ _ X) as Hmm. unfold L'.
    destruct (s xs) as [p|] eqn:Hs.
    - destruct (xstr_free_spec h L m xs t p HI X Hs) as (h' & Hf & ? & ? & _).
      rewrite Hmm in *. by exists h'.
    - rewrite xstr_free_released by done. exists h.
      pose proof X as [_ _ Hlen _ Hst]. rewrite Hs in Hst. destruct Hst as [-> Ha].
      assert (xs = xs0) as ->; [|done].
      destruct xs as [s0 l0 a0 m0]. cbn in *. unfold xs0.
      change (Z.of_nat 0) with 0 in Hlen. congruence. }
  assert (∀ h2 L2 xs2 t2, xinv h2 L2 m xs2 t2 → len xs2 ≠ 0 ∨ a xs2 ≠ 0 → is_Some (s xs2))
    as Hstore.
  { intros h2 L2 xs2 t2 [_ _ Hl _ Hst] Hnz. destruct (s xs2); [eauto|].
    destruct Hst as [-> ?]. cbn in Hl. lia. }
  exists h'. unfold buffer_state.
  split; [done|]. split; [done|]. split; [done|].
  split; [|split; [|split; [|split; [|split; [|split]]]]].
  - intros t' junk Hn Hfit. unfold xstr_set. rewrite strlen_src by done. rsimpl.
    destruct (xstr_reserve_grow h' L' m xs0 [] (Z.of_nat (length t')) HI' X'
                ltac:(cbn; lia) Hfit)
      as (h1 & c & Hr & HI1 & X1 & _ & _ & _ & Hc & _ & Hp & _).
    rewrite Hr. cbn [src_cells]. unfold strcpy_cells. rsimpl.
    rewrite src_cstr by done. unfold load_payload. rsimpl. cbn [s].
    unfold get_chunk at 1. rewrite Hc.
    pose proof X1 as [_ _ _ _ Hst]. cbn [s a] in Hst.
    destruct Hst as (_ & c' & rest & Hc' & _ & Hpl). assert (c' = c) as -> by congruence.
    destruct (buffer_write_start h1 _ m _ [] (brk h') c t' HI1 X1 eq_refl Hc Hpl Hn)
      as (d' & h2 & Hw & Hst & HI2 & X2); [cbn; lia|].
    rewrite Hw, Hst. eexists _, _, _. split; [done|]. split; [by eexists|]. done.
  - intros t' junk Hn Hfit.
    destruct (xstr_set_size_spec h' L' m xs0 [] t' junk (Z.of_nat (length t')) HI' X' Hn
                ltac:(by left) Hfit)
      as (h2 & L2 & p & c & rest & a' & Hs2 & ? & _ & _ & _ & _ & HX).
    eexists h2, L2, _. split; [done|]. split; [by eexists|]. split; [done|]. by apply HX.
  - intros t' junk Hn Hne Hfit.
    destruct (xstr_append_spec h' L' m xs0 [] t' junk HI' X' Hn Hne)
      as (h2 & L2 & xs2 & ? & ? & X2); [by rewrite Z.add_0_r|].
    exists h2, L2, xs2. split; [done|]. split; [|done].
    eapply Hstore; [done|]. left. rewrite (xi_len _ _ _ _ _ X2).
    destruct t'; [done|]. cbn. lia.
  - intros t' junk Hn Hne Hfit.
    destruct (xstr_append_size_spec h' L' m xs0 [] t' junk HI' X' Hn Hne)
      as (h2 & L2 & xs2 & ? & ? & X2); [by rewrite Z.add_0_l|].
    exists h2, L2, xs2. split; [done|]. split; [|done].
    eapply Hstore; [done|]. left. rewrite (xi_len _ _ _ _ _ X2).
    destruct t'; [done|]. cbn. lia.
  - intros c Hc Hfit.
    destruct (xstr_append_char_spec h' L' m xs0 [] c HI' X' Hc Hfit)
      as (h2 & L2 & xs2 & ? & ? & X2 & _).
    exists h2, L2, xs2. split; [done|]. split; [|done].
    eapply Hstore; [done|]. left. rewrite (xi_len _ _ _ _ _ X2). cbn. lia.
  - intros r Hn Hne Hfit.
    destruct (xstr_set_format_spec h' L' m xs0 [] r HI' X' Hn Hne Hfit)
      as (h2 & L2 & xs2 & ? & ? & X2).
    exists h2, L2, xs2. split; [done|]. split; [|done].
    eapply Hstore; [done|]. left. rewrite (xi_len _ _ _ _ _ X2).
    destruct r; [done|]. cbn. lia.
  - intros r Hn Hfit. unfold xstr_append_format.
    destruct (xstr_reserve_grow h' L' m xs0 [] (len xs0 + Z.of_nat (length r)) HI' X'
                ltac:(cbn; lia) ltac:(by rewrite Z.add_0_l))
      as (h1 & c & Hr & _).
    destruct (xstr_append_format_spec h' L' m xs0 [] r HI' X' Hn)
      as (h2 & L2 & xs2 & Haf & ? & X2); [by rewrite Z.add_0_l|].
    exists h2, L2, xs2. split; [done|]. split; [|done].
    unfold xstr_append_format in Haf. rewrite Hr in Haf. rsimpl.
    destruct (vsnprintf _ _ _ _ _) as [[h3 n3]|]; [|done].
    injection Haf as _ <- _. destruct (_ >? 0); cbn; eauto.
Qed.

(** [stripped] removes exactly the leading and the trailing characters
    that are not printable. *)
Lemma skip_ungraph_prefix t :
  ∃ pre, t = pre ++ skip_ungraph t ∧ Forall (fun c => isgraph c = false) pre.
Proof.
  induction t as [|c t (pre & IH & Hpre)]; simpl.
  - by exists [].
  - destruct (isgraph c) eqn:Hc; [by exists []|]. exists (c :: pre).
    split; [simpl; by f_equal|]. by constructor.
Qed.

Lemma skip_ungraph_head t c : head (skip_ungraph t) = Some c → isgraph c = true.
Proof.
  induction t as [|x t IH]; simpl; [done|].
  destruct (isgraph x) eqn:Hx; [|done]. simpl. by intros [= <-].
Qed.

Lemma stripped_spec t :
  ∃ pre post,
    t = pre ++ stripped t ++ post ∧
    Forall (fun c => isgraph c = false) pre ∧
    Forall (fun c => isgraph c = false) post ∧
    (∀ c, head (stripped t) = Some c → isgraph c = true) ∧
    (∀ c, list.last (stripped t) = Some c → isgraph c = true).
Proof.
  destruct (skip_ungraph_prefix t) as (pre & Ht & Hpre).
  destruct (skip_ungraph_prefix (rev (skip_ungraph t))) as (tr & Hu & Htr).
  fold (stripped t) in *.
  assert (skip_ungraph t = stripped t ++ rev tr) as Hu'.
  { unfold stripped. rewrite <- rev_app_distr, <- Hu. by rewrite rev_involutive. }
  exists pre, (rev tr). split; [by rewrite <- Hu'|]. split; [done|].
  split; [by apply Forall_rev|]. split.
  - intros c Hc. apply (skip_ungraph_head t). rewrite Hu'.
    destruct (stripped t); [done|]. done.
  - intros c Hc. apply (skip_ungraph_head (rev (skip_ungraph t))).
    unfold stripped in Hc. rewrite rev_alt in Hc.
    change (rev_append ?l []) with (reverse l) in Hc. by rewrite last_reverse in Hc.
Qed.

(** C8, as the code has it.  [strip] of a buffer in good order (its
    length field is the length of its content) that has storage returns a
    newly allocated string: the content without its leading and trailing
    characters that are not printable ([isgraph]); the buffer keeps its
    content, length and capacity; the result is empty when the content is
    empty or no character of it is printable. *)
Theorem strip_returns_stripped_copy h L m xs t p :
  buffer_state h L m xs t → s xs = Some p →
  fits h L m (Z.of_nat (length (stripped t)) + 1) →
  ∃ h' L' c,
    xstr_strip xs h = Ok (h', Some (brk h)) ∧ chunks h !! brk h = None ∧
    chunks h' !! brk h = Some c ∧ payload c = terminated (stripped t) ∧
    buffer_state h' L' m xs t ∧ xstr_content h' xs = Ok t ∧
    (∃ pre post,
       t = pre ++ stripped t ++ post ∧
       Forall (fun x => isgraph x = false) pre ∧
       Forall (fun x => isgraph x = false) post ∧
       (∀ x, head (stripped t) = Some x → isgraph x = true) ∧
       (∀ x, list.last (stripped t) = Some x → isgraph x = true)) ∧
    (Forall (fun x => isgraph x = false) t → stripped t = []).
Proof.
  intros [HI X] Hs Hfit.
  destruct (xstr_strip_spec h L m xs t p HI X Hs Hfit)
    as (h' & c & Hst & Hfresh & Hc & Hp & HI' & X').
  eexists h', _, c. do 4 (split; [done|]). split; [done|].
  split; [eapply xinv_content; [done|rewrite Hs; eauto]|].
  pose proof (stripped_spec t) as (pre & post & Ht & Hpre & Hpost & Hhd & Hlast).
  split; [by exists pre, post|].
  intros Hall. destruct (stripped t) as [|x st] eqn:E; [done|].
  specialize (Hhd x eq_refl).
  assert (x ∈ t) as Hx by (rewrite Ht; set_solver).
  rewrite Forall_forall in Hall. rewrite (Hall x Hx) in Hhd. done.
Qed.

(** Each call of [xstr_append_char] in a loop allocates: the capacity it
    leaves is the target of the call before, which the next target
    exceeds. *)
Lemma grow_target_mono n n' : n ≤ n' → grow_target n ≤ grow_target n'.
Proof. unfold grow_target. intros H. assert (3 * n / 2 ≤ 3 * n' / 2) by (apply Z.div_le_mono; lia). lia. Qed.

Lemma append_chars_reserve_each cs : ∀ h L m xs t,
  heap_inv h L → xinv h L m xs t → is_Some (s xs) →
  a xs ≤ grow_target (len xs) → NUL ∉ cs →
  sum_alloc (chunks h) (L m) - a xs +
    2 * grow_target (len xs + Z.of_nat (length cs)) + 2 < totalloc_mod →
  ∃ h' L' xs',
    append_chars xs cs h = Ok (h', xs') ∧ buffer_state h' L' m xs' (t ++ cs) ∧
    allocations h h' = Z.of_nat (length cs).
Proof.
  induction cs as [|c cs IH]; intros h L m xs t HI X Hs Hcap Hn Hsum.
  - exists h, L, xs. cbn [append_chars]. rewrite app_nil_r.
    split; [done|]. split; [done|]. unfold allocations. cbn. lia.
  - cbn [append_chars]. cbn [length] in Hsum.
    pose proof (xi_len _ _ _ _ _ X) as Hlen.
    pose proof (grow_target_mono (len xs) (len xs + Z.of_nat (S (length cs)))
                  ltac:(lia)) as Hmono.
    destruct (xstr_append_char_spec h L m xs t c HI X) as
      (h1 & L1 & xs1 & Hac & HI1 & X1 & _ & Hgrow); [set_solver| |].
    { unfold fits. lia. }
    destruct (Hgrow Hcap) as (Ha1 & Hs1 & Hbrk1 & Hsum1).
    rewrite Hac. rsimpl.
    pose proof (xi_len _ _ _ _ _ X1) as Hlen1.
    rewrite length_app in Hlen1. cbn [length] in Hlen1.
    destruct Hs as [p Hs]. rewrite Hs in Hsum1.
    destruct (IH h1 L1 m xs1 (t ++ [c]) HI1 X1) as (h' & L' & xs' & Hrec & HB & Hcount).
    + rewrite Hs1. eauto.
    + rewrite Ha1. apply grow_target_mono. lia.
    + set_solver.
    + rewrite Hsum1, Ha1.
      replace (len xs1 + Z.of_nat (length cs))
        with (len xs + Z.of_nat (S (length cs))) by lia. lia.
    + exists h', L', xs'. rewrite Hrec. split; [done|].
      rewrite <- app_assoc in HB. split; [done|].
      unfold allocations in *. rewrite Hbrk1 in Hcount. cbn [length]. lia.
Qed.

(** ** The sample runs are in good order *)

Lemma xinv_ext h L L' m xs t : (∀ x, L x = L' x) → xinv h L m xs t → xinv h L' m xs t.
Proof.
  intros HL [H1 H2 H3 H4 H5]. split; try done.
  destruct (s xs); [|done]. by rewrite <- HL.
Qed.

Lemma fresh_mgr_spec :
  ∃ h, fresh_mgr = (h, Some 1%positive) ∧ brk h = 3%positive ∧
       heap_inv h (upd_live 1%positive [] (fun _ => [])) ∧
       is_manager h (Some 1%positive) = true.
Proof.
  destruct (mmatic_create_spec empty_heap _ heap_inv_empty) as (h & Hc & _ & HI & Hres & _).
  exists h. cbn [brk empty_heap] in *. split; [done|].
  injection Hc as <-. split; [done|]. split; [done|].
  unfold is_manager. cbn [mgrs malloc]. by rewrite lookup_insert_eq.
Qed.

Lemma buffer_of_spec str :
  NUL ∉ list_ascii_of_string str →
  Z.of_nat (length (list_ascii_of_string str)) + 1 < totalloc_mod →
  ∃ h xs,
    buffer_of str = Ok (h, xs) ∧ s xs = Some 3%positive ∧
    buffer_state h sample_live 1%positive xs (list_ascii_of_string str).
Proof.
  intros Hn Hfit. set (t := list_ascii_of_string str) in *.
  destruct fresh_mgr_spec as (h0 & Hf & Hbrk & HI0 & Hm0).
  unfold buffer_of. rewrite Hf. cbn [fst snd]. fold t.
  change (t ++ [NUL]) with (t ++ NUL :: []).
  unfold xstr_init_val, xstr_set. rewrite strlen_src by done. rsimpl.
  pose proof (xinv_released h0 (upd_live 1%positive [] (fun _ => [])) _ Hm0) as X0.
  destruct (xstr_reserve_grow h0 _ 1%positive _ [] (Z.of_nat (length t)) HI0 X0)
    as (h1 & c & Hr & HI1 & X1 & _ & _ & _ & Hc & _ & Hp & _); [cbn; lia| |].
  { unfold fits. rewrite upd_live_eq. cbn. lia. }
  rewrite Hr. cbn [src_cells]. unfold strcpy_cells. rsimpl.
  rewrite src_cstr by done. unfold load_payload. rsimpl. cbn [s].
  unfold get_chunk at 1. rewrite Hc.
  pose proof X1 as [_ _ _ _ Hst]. cbn [s a] in Hst.
  destruct Hst as (_ & c' & rest & Hc' & _ & Hpl). assert (c' = c) as -> by congruence.
  destruct (buffer_write_start h1 _ 1%positive _ [] (brk h0) c t HI1 X1 eq_refl Hc Hpl Hn)
    as (d' & h2 & Hw & Hst & HI2 & X2); [cbn; lia|].
  rewrite Hw, Hst, Hbrk. rewrite Hbrk in *.
  eexists _, _. split; [done|]. split; [done|]. cbn [s] in *.
  assert (∀ x, upd_live 1%positive ([] ++ [3%positive]) (upd_live 1%positive [] (fun _ => [])) x
               = sample_live x) as HL.
  { intros x. unfold upd_live, sample_live. by destruct (decide (x = 1%positive)). }
  split; [by eapply heap_inv_ext|by eapply xinv_ext].
Qed.

(** * The rest of the allocator *)

(** ** [mmatic_free_] *)

Lemma free_chain_none fuel (cs : gmap addr mmchunk) : free_chain fuel None cs = cs.
Proof. by destruct fuel. Qed.

Lemma free_chain_dll l : ∀ cs p prv fuel,
  dll cs p prv l → NoDup (p :: l) → (length (p :: l) ≤ fuel)%nat →
  ∀ x, free_chain fuel (Some p) cs !! x =
       if decide (x ∈ p :: l) then None else cs !! x.
Proof.
  induction l as [|q l IH]; intros cs p prv fuel Hd Hnd Hfuel x; cbn [dll] in Hd.
  - destruct Hd as (c & Hc & _ & Hn).
    destruct fuel as [|k]; [cbn in Hfuel; lia|]. cbn [free_chain].
    rewrite Hc, Hn, free_chain_none.
    destruct (decide (x ∈ [p])) as [->%list_elem_of_singleton|Hx].
    + by rewrite lookup_delete_eq.
    + rewrite lookup_delete_ne; [done|]. set_solver.
  - destruct Hd as (c & Hc & _ & Hn & Hd).
    destruct fuel as [|k]; [cbn in Hfuel; lia|]. cbn [free_chain].
    rewrite Hc, Hn. apply NoDup_cons in Hnd as [Hp Hnd].
    rewrite (IH (delete p cs) q (Some p) k); [| |done|cbn in *; lia].
    + destruct (decide (x ∈ q :: l)) as [Hx|Hx].
      * rewrite decide_True by set_solver. done.
      * destruct (decide (x = p)) as [->|Hxp].
        -- rewrite decide_True by set_solver. by rewrite lookup_delete_eq.
        -- rewrite decide_False by set_solver. by rewrite lookup_delete_ne.
    + eapply dll_ext; [|done]. intros y Hy. rewrite lookup_delete_ne; [done|].
      intros ->. done.
Qed.

Lemma mmatic_free_spec h L o m :
  heap_inv h L → owner_of h o m →
  ∃ h',
    mmatic_free_ o h = Ok h' ∧
    mgrs h' = delete m (mgrs h) ∧ brk h' = brk h ∧
    (∀ x, chunks h' !! x =
          match chunks h !! x with
          | Some c => if decide (mgr c = Some m) then None else Some c
          | None => None
          end) ∧
    heap_inv h' L.
Proof.
  intros HI Hres.
  destruct (owner_of_live _ _ _ _ HI Hres) as (M & f & HM & W).
  assert (is_manager h (Some m) = true) as Hm.
  { unfold is_manager. rewrite HM, (wf_tag _ _ _ _ _ W). done. }
  pose proof (wf_nodup _ _ _ _ _ W) as Hnd.
  pose proof (wf_dll _ _ _ _ _ W) as Hd.
  assert (length (f :: L m) ≤ size (chunks h))%nat as Hfuel.
  { apply length_le_size; [done|]. intros x Hx. by eapply dll_lookup. }
  pose proof (free_chain_dll _ _ _ _ _ Hd Hnd Hfuel) as Hfc.
  assert (∀ x, free_chain (size (chunks h)) (Some f) (chunks h) !! x =
               match chunks h !! x with
               | Some c => if decide (mgr c = Some m) then None else Some c
               | None => None
               end) as Hlook.
  { intros x. rewrite Hfc. destruct (decide (x ∈ f :: L m)) as [Hx|Hx].
    - apply (wf_owner _ _ _ _ _ W) in Hx as (c & Hc & Hmc).
      rewrite Hc. by rewrite decide_True.
    - destruct (chunks h !! x) as [c|] eqn:Hc; [|done].
      rewrite decide_False; [done|]. intros Hmc. apply Hx.
      apply (wf_owner _ _ _ _ _ W). eauto. }
  eexists. split.
  { unfold mmatic_free_. rewrite (proj1 Hres). rsimpl.
    rewrite (is_manager_IS_MGR _ _ Hm). cbn [negb].
    unfold get_mgr. rewrite HM. rewrite (wf_first _ _ _ _ _ W). done. }
  cbn [chunks mgrs brk]. split; [done|]. split; [done|]. split; [done|].
  split; cbn [chunks mgrs brk].
  - intros m' [M' HM']. destruct (decide (m' = m)) as [->|Hne].
    { by rewrite lookup_delete_eq in HM'. }
    rewrite lookup_delete_ne in HM' by done.
    destruct (hi_mgrs _ _ HI m' ltac:(eauto)) as (M1 & f1 & HM1 & W1).
    exists M1, f1. cbn [mgrs]. rewrite lookup_delete_ne by done. split; [done|].
    eapply mgr_wf_frame; [done| |]; cbn [chunks].
    + intros x Hx. rewrite Hlook.
      apply (wf_owner _ _ _ _ _ W1) in Hx as (c & Hc & Hmc). rewrite Hc.
      rewrite decide_False by congruence. apply (same_header_refl (Some c)).
    + intros x c' Hc' Hmc. rewrite Hlook in Hc'.
      destruct (chunks h !! x) as [c|]; [|done].
      destruct (decide (mgr c = Some m)); [done|]. injection Hc' as <-. eauto.
  - intros x [c' Hc']. rewrite Hlook in Hc'. apply (hi_chunks_fresh _ _ HI).
    destruct (chunks h !! x); [eauto|done].
  - intros x [M' HM']. apply (hi_mgrs_fresh _ _ HI).
    destruct (decide (x = m)) as [->|?]; [eauto|].
    rewrite lookup_delete_ne in HM' by done. eauto.
  - intros x c' Hc'. rewrite Hlook in Hc'.
    destruct (chunks h !! x) as [c|] eqn:Hc; [|done].
    destruct (decide (mgr c = Some m)) as [|Hmc]; [done|]. injection Hc' as <-.
    destruct (hi_owned _ _ HI _ _ Hc) as (m0 & Hm0 & Hl0).
    exists m0. split; [done|]. rewrite lookup_delete_ne; [done|]. congruence.
Qed.

(** X1.  [freeAll], given an owner that stands for manager [m] (the
    handle of [m], or a payload pointer of one of its chunks whose first
    bytes can be read and are not the manager tag), releases the sentinel
    and every chunk of [m] and the manager itself; the chunks and the lists
    of all other managers are as before. *)
Theorem free_all_releases_manager h L o m :
  heap_inv h L → owner_of h o m →
  ∃ h',
    mmatic_free_ o h = Ok h' ∧
    mgrs h' !! m = None ∧
    (∀ x c, chunks h !! x = Some c → mgr c = Some m → chunks h' !! x = None) ∧
    (∀ x, x ∈ L m → chunks h' !! x = None) ∧
    (∀ x c, chunks h !! x = Some c → mgr c ≠ Some m → chunks h' !! x = Some c) ∧
    (∀ m', m' ≠ m → mgrs h' !! m' = mgrs h !! m') ∧
    (∀ m', is_Some (mgrs h' !! m') → mmatic_summary h' m' = L m') ∧
    heap_inv h' L.
Proof.
  intros HI Hres.
  destruct (owner_of_live _ _ _ _ HI Hres) as (M & f & HM & W).
  destruct (mmatic_free_spec h L o m HI Hres) as (h' & Hf & Hmg & _ & Hlook & HI').
  exists h'. split; [done|]. split; [by rewrite Hmg, lookup_delete_eq|].
  split; [|split; [|split; [|split; [|split]]]]; try done.
  - intros x c Hc Hmc. rewrite Hlook, Hc. by rewrite decide_True.
  - intros x Hx. assert (x ∈ f :: L m) as Hx' by by right.
    apply (wf_owner _ _ _ _ _ W) in Hx' as (c & Hc & Hmc).
    rewrite Hlook, Hc. by rewrite decide_True.
  - intros x c Hc Hmc. rewrite Hlook, Hc. by rewrite decide_False.
  - intros m' Hne. by rewrite Hmg, lookup_delete_ne.
  - intros m' Hm'. by apply mmatic_summary_spec.
Qed.

(** X2.  [create] followed at once by [freeAll] leaves the chunks and the
    managers of the store exactly as they were. *)
Theorem create_then_free_all_restores h L :
  heap_inv h L →
  ∃ h1 mgr_ h2,
    mmatic_create h = (h1, mgr_) ∧ mmatic_free_ mgr_ h1 = Ok h2 ∧
    chunks h2 = chunks h ∧ mgrs h2 = mgrs h.
Proof.
  intros HI.
  destruct (mmatic_create_spec h L HI) as (h1 & Hc & Hfresh & HI1 & Hres & _).
  destruct (mmatic_free_spec h1 _ _ _ HI1 Hres) as (h2 & Hf & Hmg & _ & Hlook & _).
  exists h1, (Some (brk h)), h2. split; [done|]. split; [done|].
  injection Hc as <-. cbn [chunks mgrs malloc brk] in *.
  assert (chunks h !! Pos.succ (brk h) = None) as Hs.
  { destruct (chunks h !! Pos.succ (brk h)) eqn:E; [|done].
    pose proof (hi_chunks_fresh _ _ HI (Pos.succ (brk h)) ltac:(eauto)). lia. }
  split.
  - apply map_eq. intros x. rewrite Hlook.
    destruct (decide (x = Pos.succ (brk h))) as [->|Hx].
    + rewrite lookup_insert_eq. cbn. by rewrite decide_True.
    + rewrite lookup_insert_ne by done.
      destruct (chunks h !! x) as [c|] eqn:Hc; [|done].
      rewrite decide_False; [done|]. intros Hmc.
      destruct (hi_owned _ _ HI _ _ Hc) as (m0 & Hm0 & [M0 HM0]). congruence.
  - rewrite Hmg. by apply delete_insert_id.
Qed.

(** X3.  [allocate] for an owner that stands for a manager, followed by
    [freeOne] of the pointer it returned, leaves the chunks and the
    managers of the store exactly as they were: links, tail reference and
    running total are back. *)
Theorem allocate_then_free_one_restores h L size o zero sh m :
  heap_inv h L → 0 ≤ size → owner_of h o m →
  sum_alloc (chunks h) (L m) + size < totalloc_mod →
  ∃ h1 p h2,
    mmatic_allocate size o zero sh h = Ok (h1, p) ∧ p = Some (brk h) ∧
    mmatic_freeptr_ p h1 = Ok h2 ∧
    chunks h2 = chunks h ∧ mgrs h2 = mgrs h.
Proof.
  intros HI Hsz Hres Hfit.
  destruct (owner_of_live _ _ _ _ HI Hres) as (M & f & HM & W).
  pose proof (wf_total_nonneg _ _ _ _ _ W) as Htot.
  pose proof (wf_total _ _ _ _ _ W) as Htotal.
  pose proof (wf_last _ _ _ _ _ W) as Hlast.
  destruct (dll_last _ _ _ _ (wf_dll _ _ _ _ _ W)) as (lc & Hlc & Hlcn).
  set (b := brk h). set (la := List.last (L m) f) in *.
  assert (chunks h !! b = None) as Hbfresh.
  { destruct (chunks h !! b) eqn:E; [|done].
    pose proof (hi_chunks_fresh _ _ HI b ltac:(eauto)). unfold b in *. lia. }
  assert (la ≠ b) as Hla by congruence.
  set (chunk := MkChunk TAG_CHUNK sh size None (Some la) (Some m)
                  (replicate (Z.to_nat size) (if zero then Some NUL else None))).
  set (cs1 := <[la := set_next (Some b) lc]> (<[b := chunk]> (chunks h))).
  set (M1 := set_totalloc (wrap (totalloc M + size)) (set_last (Some b) M)).
  assert (mmatic_allocate size o zero sh h =
          Ok (MkHeap cs1 (<[m := M1]> (mgrs h)) (Pos.succ b), Some b)) as Hal.
  { unfold mmatic_allocate. rewrite (proj1 Hres). rsimpl. unfold get_mgr. rewrite HM.
    cbn [malloc]. rewrite Hlast. unfold get_chunk. rewrite Hlc. done. }
  eexists _, _, _. split; [exact Hal|]. split; [done|].
  assert (cs1 !! b = Some chunk) as Hb1.
  { unfold cs1. by rewrite lookup_insert_ne, lookup_insert_eq. }
  assert (cs1 !! la = Some (set_next (Some b) lc)) as Hla1.
  { unfold cs1. by rewrite lookup_insert_eq. }
  unfold mmatic_freeptr_, IS_CHUNK. cbn [chunks mgrs brk]. rewrite Hb1.
  cbn [tag chunk]. rewrite Z.eqb_refl. cbn [negb]. rsimpl.
  unfold get_chunk at 1. cbn [chunks]. rewrite Hb1. cbn [prev next mgr chunk].
  unfold get_chunk at 1. cbn [chunks]. rewrite Hla1.
  unfold get_mgr. cbn [mgrs chunks brk]. rewrite !lookup_insert_eq.
  cbn [mgrs chunks brk]. rewrite !lookup_insert_eq.
  split; [reflexivity|]. cbn [chunks mgrs]. split.
  - apply map_eq. intros x. destruct (decide (x = b)) as [->|Hxb].
    { by rewrite lookup_delete_eq. }
    rewrite lookup_delete_ne by done.
    destruct (decide (x = la)) as [->|Hxl].
    + rewrite lookup_insert_eq, Hlc. f_equal. destruct lc. cbn in *. by subst.
    + unfold cs1. by rewrite !lookup_insert_ne.
  - rewrite !insert_insert_eq. apply insert_id. rewrite HM. f_equal.
    unfold M1, set_totalloc, set_last, wrap. cbn [mtag first last totalloc].
    rewrite (Z.mod_small (totalloc M + size)) by lia.
    change (alloc chunk) with size.
    replace (totalloc M + size - size) with (totalloc M) by lia.
    rewrite Z.mod_small by (pose proof (wf_range _ _ _ _ _ W); lia).
    destruct M. cbn in *. by subst.
Qed.

(** ** Owners, frames and totals *)

Lemma resolve_owner_chunk h L m a :
  heap_inv h L → is_Some (mgrs h !! m) → a ∈ L m → IS_MGR h (Some a) = Ok false →
  owner_of h (Some a) m.
Proof.
  intros HI Hm Ha Hnm. destruct (hi_mgrs _ _ HI m Hm) as (M & f & HM & W).
  destruct (wf_live _ _ _ _ _ W a Ha) as (c & Hc & Htag & _).
  assert (a ∈ f :: L m) as Hin by by right.
  apply (wf_owner _ _ _ _ _ W) in Hin as (c' & Hc' & Hmc).
  assert (c' = c) as -> by congruence.
  split; [|done].
  unfold resolve_owner. rewrite Hnm. rsimpl. rewrite (IS_CHUNK_live _ _ _ Hc Htag).
  rsimpl. unfold get_chunk. rewrite Hc. by rewrite Hmc.
Qed.

(** X4.  [allocate] with a live payload pointer as owner, when the tag
    test on it reads the first bytes of the payload and finds them not to
    be the manager tag, allocates in the manager of that pointer's chunk:
    the new chunk is at an address that was not live, belongs to that
    manager, is last in its traversal, has exactly [size] payload bytes
    (zeroed when asked for), and no other chunk changes in tag, kind, size,
    owner or bytes.  A size of 0 is served like any other. *)
Theorem allocate_by_payload_pointer h L m a size zero sh :
  heap_inv h L → is_Some (mgrs h !! m) → a ∈ L m → IS_MGR h (Some a) = Ok false →
  0 ≤ size → sum_alloc (chunks h) (L m) + size < totalloc_mod →
  ∃ h' c,
    mmatic_allocate size (Some a) zero sh h = Ok (h', Some (brk h)) ∧
    chunks h !! brk h = None ∧ chunks h' !! brk h = Some c ∧
    mgr c = Some m ∧ shared c = sh ∧ alloc c = size ∧
    payload c = replicate (Z.to_nat size) (if zero then Some NUL else None) ∧
    mmatic_summary h' m = L m ++ [brk h] ∧
    (∀ x, x ≠ brk h → same_data (chunks h !! x) (chunks h' !! x)).
Proof.
  intros HI Hm Ha Hnm Hsz Hfit.
  pose proof (resolve_owner_chunk h L m a HI Hm Ha Hnm) as Hres.
  destruct (mmatic_allocate_spec h L size (Some a) zero sh m HI Hsz Hres Hfit)
    as (h' & c & Hal & Hfresh & Hc & Hsh & Hasz & Hpl & HI' & Hdata & Hmt & _).
  exists h', c. do 3 (split; [done|]).
  assert (is_Some (mgrs h' !! m)) as Hm'.
  { specialize (Hmt m). destruct Hm as [M HM]. rewrite HM in Hmt.
    destruct (mgrs h' !! m); [eauto|done]. }
  destruct (hi_mgrs _ _ HI' m Hm') as (M' & f' & HM' & W').
  rewrite upd_live_eq in W'. split.
  { assert (brk h ∈ f' :: L m ++ [brk h]) as Hin by set_solver.
    apply (wf_owner _ _ _ _ _ W') in Hin as (c' & Hc' & Hmc). congruence. }
  do 3 (split; [done|]). split; [|done].
  rewrite (mmatic_summary_spec h' _ m HI' Hm'). apply upd_live_eq.
Qed.

(** X5.  [freeOne] of a live chunk subtracts exactly that chunk's size
    from the running total of its manager, takes the chunk out of the
    traversal, and leaves every other chunk's tag, kind, size, owner and
    bytes as they were. *)
Theorem free_one_frame_and_total h L m a c :
  heap_inv h L → is_Some (mgrs h !! m) → a ∈ L m → chunks h !! a = Some c →
  ∃ h' M M',
    mmatic_freeptrs (Some a) h = Ok h' ∧
    mgrs h !! m = Some M ∧ mgrs h' !! m = Some M' ∧
    totalloc M' = totalloc M - alloc c ∧
    chunks h' !! a = None ∧
    mmatic_summary h' m = remove_addr a (L m) ∧
    (∀ x, x ≠ a → same_data (chunks h !! x) (chunks h' !! x)).
Proof.
  intros HI Hm Ha Hc.
  destruct (mmatic_freeptr_spec h L m a HI Hm Ha)
    as (h' & Hf & Hgone & _ & HI' & Hdata & Hmt).
  destruct (hi_mgrs _ _ HI m Hm) as (M & f & HM & W).
  assert (is_Some (mgrs h' !! m)) as Hm'.
  { specialize (Hmt m). rewrite HM in Hmt. destruct (mgrs h' !! m); [eauto|done]. }
  destruct (hi_mgrs _ _ HI' m Hm') as (M' & f' & HM' & W').
  rewrite upd_live_eq in W'.
  exists h', M, M'. do 3 (split; [done|]). split.
  { rewrite (wf_total _ _ _ _ _ W'), (wf_total _ _ _ _ _ W).
    pose proof (wf_nodup _ _ _ _ _ W) as Hnd. apply NoDup_cons in Hnd as [_ Hnd].
    rewrite (sum_alloc_remove (chunks h)); try done.
    - unfold alloc_at. by rewrite Hc.
    - intros x _ Hx. by apply same_data_alloc, Hdata. }
  split; [done|]. split; [|done].
  rewrite (mmatic_summary_spec h' _ m HI' Hm'). apply upd_live_eq.
Qed.

(** X6.  [reallocate] with an owner that stands for another manager
    moves the allocation: the old chunk leaves the traversal of its
    manager, the new chunk is last in the traversal of the owner's manager,
    keeps the backing kind, and starts with the old bytes ([newSize] 0 or
    at least the old size). *)
Theorem realloc_moves_between_managers h L m a size o m' :
  heap_inv h L → is_Some (mgrs h !! m) → a ∈ L m →
  owner_of h o m' → m' ≠ m → o ≠ None →
  let N := alloc_at (chunks h) a in
  let newsize := if size =? 0 then N else size in
  N ≤ newsize →
  sum_alloc (chunks h) (L m') + newsize < totalloc_mod →
  ∃ h' c c',
    mmatic_realloc_ (Some a) size o h = Ok (h', Some (brk h)) ∧
    chunks h !! a = Some c ∧ chunks h' !! a = None ∧
    chunks h' !! brk h = Some c' ∧ mgr c' = Some m' ∧
    shared c' = shared c ∧ alloc c' = newsize ∧
    take (Z.to_nat N) (payload c') = payload c ∧
    mmatic_summary h' m = remove_addr a (L m) ∧
    mmatic_summary h' m' = L m' ++ [brk h].
Proof.
  intros HI Hm Ha Hres Hne Ho N newsize HN Hfit.
  assert (match o with None => m' = m | Some _ => owner_of h o m' end)
    as Ho' by (by destruct o).
  destruct (mmatic_realloc_spec h L m a size o m' HI Hm Ha Ho' HN Hfit)
    as (h' & c & c' & Hr & Hc & Hgone & Hc' & Hsh & Hal & Hp & HI' & _ & Hmt).
  destruct (owner_of_live _ _ _ _ HI Hres) as (M0 & f0 & HM0 & _).
  assert (∀ x, is_Some (mgrs h !! x) → is_Some (mgrs h' !! x)) as Hlive.
  { intros x [Mx HMx]. specialize (Hmt x). rewrite HMx in Hmt.
    destruct (mgrs h' !! x); [eauto|done]. }
  pose proof (Hlive m Hm) as Hm1. pose proof (Hlive m' ltac:(eauto)) as Hm1'.
  exists h', c, c'. do 4 (split; [done|]).
  assert (∀ l, upd_live m l (upd_live m' (L m' ++ [brk h]) L) m' = L m' ++ [brk h]) as E1.
  { intros l. unfold upd_live. rewrite decide_False by done. by rewrite decide_True. }
  assert (upd_live m' (L m' ++ [brk h]) L m = L m) as E2.
  { unfold upd_live. by rewrite decide_False. }
  split.
  { destruct (hi_mgrs _ _ HI' m' Hm1') as (M' & f' & HM' & W'). rewrite E1 in W'.
    assert (brk h ∈ f' :: L m' ++ [brk h]) as Hin by set_solver.
    apply (wf_owner _ _ _ _ _ W') in Hin as (c2 & Hc2 & Hmc). congruence. }
  do 3 (split; [done|]). split.
  - rewrite (mmatic_summary_spec h' _ m HI' Hm1). rewrite upd_live_eq. by rewrite E2.
  - rewrite (mmatic_summary_spec h' _ m' HI' Hm1'). apply E1.
Qed.

(** ** Copies of strings *)

Lemma write_fresh (t : list ascii) n :
  (S (length t) ≤ n)%nat →
  write_at 0 (terminated t) (replicate n None) =
    Ok (terminated t ++ replicate (n - S (length t)) None).
Proof.
  intros Hle. rewrite write_at_0 by (rewrite length_terminated, length_replicate; lia).
  by rewrite drop_replicate, length_terminated.
Qed.

Lemma store_fresh_string h L b cb n t :
  heap_inv h L → chunks h !! b = Some cb → payload cb = replicate n None →
  (S (length t) ≤ n)%nat →
  ∃ d' h',
    write_at 0 (terminated t) (payload cb) = Ok d' ∧
    d' = terminated t ++ replicate (n - S (length t)) None ∧
    store_payload (Some b) d' h = Ok h' ∧ heap_inv h' L ∧
    h' = upd_chunks (<[b := set_payload d' cb]>) h.
Proof.
  intros HI Hcb Hp Hle. rewrite Hp, write_fresh by done.
  destruct (store_payload_spec h L b cb (terminated t ++ replicate (n - S (length t)) None)
              HI Hcb) as (h' & Hst & Hh' & HI').
  { rewrite Hp, length_app, length_terminated, !length_replicate. lia. }
  eexists _, h'. done.
Qed.

(** X8.  [duplicateString] of NULL returns NULL and leaves the store as it
    is; of a string, for an owner that stands for a manager, it returns a
    new chunk of exactly [length + 1] bytes that holds the string and its
    terminator, last in the traversal of that manager, all other chunks
    unchanged. *)
Theorem strdup_copies_string h L o m t junk :
  heap_inv h L → owner_of h o m → NUL ∉ t →
  sum_alloc (chunks h) (L m) + (Z.of_nat (length t) + 1) < totalloc_mod →
  mmatic_strdup_ None o h = Ok (h, None) ∧
  ∃ h' c,
    mmatic_strdup_ (Some (t ++ NUL :: junk)) o h = Ok (h', Some (brk h)) ∧
    chunks h !! brk h = None ∧ chunks h' !! brk h = Some c ∧
    alloc c = Z.of_nat (length t) + 1 ∧ payload c = terminated t ∧
    mmatic_summary h' m = L m ++ [brk h] ∧
    (∀ x, x ≠ brk h → same_data (chunks h !! x) (chunks h' !! x)).
Proof.
  intros HI Hres Hn Hfit. split; [done|].
  destruct (mmatic_allocate_spec h L (Z.of_nat (length t) + 1) o false false m HI
              ltac:(lia) Hres Hfit)
    as (h1 & cb & Hal & Hfresh & Hcb & _ & Hasz & Hpl & HI1 & Hdata & Hmt & _).
  destruct (store_fresh_string h1 _ (brk h) cb _ t HI1 Hcb Hpl ltac:(lia))
    as (d' & h2 & Hw & Hd' & Hst & HI2 & Hh2).
  replace (Z.to_nat (Z.of_nat (length t) + 1) - S (length t))%nat with 0%nat in Hd' by lia.
  cbn [replicate] in Hd'. rewrite app_nil_r in Hd'. subst d'.
  exists h2, (set_payload (terminated t) cb). split.
  { unfold mmatic_strdup_. rewrite strlen_src by done. rsimpl. rewrite Hal.
    cbn [src_cells]. unfold strcpy_cells. rsimpl. rewrite src_cstr by done.
    unfold load_payload. rsimpl. unfold get_chunk at 1. rewrite Hcb, Hw, Hst. done. }
  split; [done|]. split; [rewrite Hh2; cbn; by rewrite lookup_insert_eq|].
  split; [done|]. split; [done|]. split.
  - destruct (owner_of_live _ _ _ _ HI Hres) as (M & f & HM & _).
    assert (is_Some (mgrs h2 !! m)) as Hm2.
    { rewrite Hh2. cbn. specialize (Hmt m). rewrite HM in Hmt.
      destruct (mgrs h1 !! m); [eauto|done]. }
    rewrite (mmatic_summary_spec h2 _ m HI2 Hm2). apply upd_live_eq.
  - intros x Hx. rewrite Hh2. cbn. rewrite lookup_insert_ne by done. by apply Hdata.
Qed.

(** X9.  [xstr_dup] of a buffer that has storage, for an owner that
    stands for a manager (not necessarily the buffer's), returns a new
    chunk of [len + 1] bytes in that manager, holding the buffer's content
    and terminator; the buffer keeps its storage and content. *)
Theorem xstr_dup_copies_content h L m xs t p o m' :
  buffer_state h L m xs t → s xs = Some p →
  owner_of h o m' →
  sum_alloc (chunks h) (L m') + (len xs + 1) < totalloc_mod →
  let L' := upd_live m' (L m' ++ [brk h]) L in
  ∃ h' c,
    xstr_dup xs o h = Ok (h', Some (brk h)) ∧
    chunks h !! brk h = None ∧ chunks h' !! brk h = Some c ∧
    alloc c = len xs + 1 ∧ payload c = terminated t ∧
    mmatic_summary h' m' = L m' ++ [brk h] ∧
    buffer_state h' L' m xs t ∧ xstr_to_char xs = Some p.
Proof.
  intros [HI X] Hs Hres Hfit L'.
  pose proof X as [Hmm Hmgr Hlen Hnul Hst]. rewrite Hs in Hst.
  destruct Hst as (Hin & c & rest & Hc & Hp & Hpl).
  destruct (mmatic_allocate_spec h L (len xs + 1) o false false m' HI ltac:(lia) Hres Hfit)
    as (h1 & cb & Hal & Hfresh & Hcb & _ & Hasz & Hpl1 & HI1 & Hdata & Hmt & _).
  fold L' in HI1.
  assert (p ≠ brk h) as Hpb by congruence.
  destruct (same_data_Some _ _ _ _ (Hdata p Hpb) Hc) as (c1 & Hc1 & _ & _ & _ & _ & Hp1).
  destruct (store_fresh_string h1 _ (brk h) cb _ t HI1 Hcb Hpl1 ltac:(lia))
    as (d' & h2 & Hw & Hd' & Hst & HI2 & Hh2).
  replace (Z.to_nat (len xs + 1) - S (length t))%nat with 0%nat in Hd' by lia.
  cbn [replicate] in Hd'. rewrite app_nil_r in Hd'. subst d'.
  exists h2, (set_payload (terminated t) cb). split.
  { unfold xstr_dup, mmalloc, mmatic_alloc. rewrite Hal. rsimpl. rewrite Hs.
    unfold load_payload at 1. rsimpl. unfold get_chunk at 1. rewrite Hc1.
    unfold strcpy_cells. rsimpl. rewrite Hp1, Hp, cstr_terminated by done.
    unfold load_payload. rsimpl. unfold get_chunk at 1. rewrite Hcb, Hw, Hst. done. }
  split; [done|]. split; [rewrite Hh2; cbn; by rewrite lookup_insert_eq|].
  split; [done|]. split; [done|].
  assert (∀ x, mtag <$> mgrs h2 !! x = mtag <$> mgrs h !! x) as Hmt2.
  { intros x. rewrite Hh2. cbn. apply Hmt. }
  split.
  { destruct (owner_of_live _ _ _ _ HI Hres) as (M & f & HM & _).
    assert (is_Some (mgrs h2 !! m')) as Hm2.
    { specialize (Hmt2 m'). rewrite HM in Hmt2. destruct (mgrs h2 !! m'); [eauto|done]. }
    rewrite (mmatic_summary_spec h2 _ m' HI2 Hm2). apply upd_live_eq. }
  split; [|done]. split; [done|].
  eapply (xinv_intro h2 L' m xs p c1 t rest); try done.
  - by destruct (resolve_owner_mgr_frame _ _ _ Hmgr Hmt2) as (? & _).
  - unfold L', upd_live. destruct (decide (m = m')) as [->|?]; [|done].
    apply elem_of_app. by left.
  - rewrite Hh2. cbn. by rewrite lookup_insert_ne.
  - by rewrite Hp1.
  - by rewrite Hp1.
Qed.

(** X10.  [mmatic_printf_], for an owner that stands for a manager,
    always allocates [BUFSIZ] bytes, whatever the length of the output, and
    the chunk holds the first [BUFSIZ - 1] bytes of the rendering followed
    by a terminator: a longer output is cut, and nothing is written past
    the chunk.  Read as a C string the chunk is the rendering so cut, when
    the rendering has no NUL byte. *)
Theorem printf_fills_one_buffer h L o m r :
  heap_inv h L → owner_of h o m → 0 < BUFSIZ →
  sum_alloc (chunks h) (L m) + BUFSIZ < totalloc_mod →
  ∃ h' c rest,
    mmatic_printf_ o r h = Ok (h', Some (brk h)) ∧
    chunks h' !! brk h = Some c ∧ alloc c = BUFSIZ ∧
    Z.of_nat (length (payload c)) = BUFSIZ ∧
    payload c = terminated (take (Z.to_nat (BUFSIZ - 1)) r) ++ rest ∧
    (NUL ∉ r → cstr (payload c) = Ok (take (Z.to_nat (BUFSIZ - 1)) r)) ∧
    (NUL ∉ r → Z.of_nat (length r) < BUFSIZ → cstr (payload c) = Ok r) ∧
    mmatic_summary h' m = L m ++ [brk h].
Proof.
  intros HI Hres Hpos Hfit.
  destruct (mmatic_allocate_spec h L BUFSIZ o false false m HI ltac:(lia) Hres Hfit)
    as (h1 & cb & Hal & Hfresh & Hcb & _ & Hasz & Hpl & HI1 & Hdata & Hmt & _).
  set (t := take (Z.to_nat (BUFSIZ - 1)) r).
  assert (length t ≤ Z.to_nat (BUFSIZ - 1))%nat as Hlt by (unfold t; rewrite length_take; lia).
  destruct (store_fresh_string h1 _ (brk h) cb _ t HI1 Hcb Hpl ltac:(lia))
    as (d' & h2 & Hw & Hd' & Hst & HI2 & Hh2).
  assert (NUL ∉ r → NUL ∉ t) as Hnt.
  { intros Hn Hin. apply Hn. rewrite <- (take_drop (Z.to_nat (BUFSIZ - 1)) r).
    apply elem_of_app. by left. }
  exists h2, (set_payload d' cb), (replicate (Z.to_nat BUFSIZ - S (length t)) None).
  split.
  { unfold mmatic_printf_, mmalloc, mmatic_alloc. rewrite Hal. rsimpl.
    unfold vsnprintf. replace (BUFSIZ <=? 0) with false by (symmetry; apply Z.leb_gt; lia).
    unfold load_payload. rsimpl. unfold get_chunk at 1. rewrite Hcb. fold t.
    rewrite Hw, Hst. done. }
  split; [rewrite Hh2; cbn; by rewrite lookup_insert_eq|]. split; [done|].
  cbn [payload set_payload]. split.
  { rewrite Hd', length_app, length_terminated, length_replicate. lia. }
  split; [done|]. split; [intros Hn; rewrite Hd'; by apply cstr_terminated, Hnt|]. split.
  { intros Hn Hshort. rewrite Hd', cstr_terminated by (by apply Hnt). f_equal.
    unfold t. apply take_ge. lia. }
  destruct (owner_of_live _ _ _ _ HI Hres) as (M & f & HM & _).
  assert (is_Some (mgrs h2 !! m)) as Hm2.
  { rewrite Hh2. cbn. specialize (Hmt m). rewrite HM in Hmt.
    destruct (mgrs h1 !! m); [eauto|done]. }
  rewrite (mmatic_summary_spec h2 _ m HI2 Hm2). apply upd_live_eq.
Qed.

(** X11.  A released buffer has no storage to read: [xstr_to_char] gives
    NULL, [xstr_strip] dereferences NULL on its first look at the
    terminator, and [xstr_dup] never returns a copy. *)
Theorem released_buffer_cannot_be_read h mm_ o :
  let xs0 := MkXstr None 0 0 mm_ in
  xstr_to_char xs0 = None ∧
  xstr_strip xs0 h = Err NullDeref ∧
  is_ok (xstr_dup xs0 o h) = false ∧
  (is_ok (mmalloc 1 o h) = true → xstr_dup xs0 o h = Err NullDeref).
Proof.
  intros xs0. split; [done|]. split; [done|].
  unfold xstr_dup. cbn [len s xs0]. change (0 + 1) with 1.
  destruct (mmalloc 1 o h) as [[h1 ret]|f]; cbn; done.
Qed.

(** ** Strip in one call *)

Lemma live_below_brk h L m x :
  heap_inv h L → is_Some (mgrs h !! m) → x ∈ L m → (x < brk h)%positive.
Proof.
  intros HI Hm Hx. destruct (hi_mgrs _ _ HI m Hm) as (M & f & HM & W).
  destruct (wf_live _ _ _ _ _ W x Hx) as (c & Hc & _).
  apply (hi_chunks_fresh _ _ HI). by rewrite Hc.
Qed.

(** [xstr_set] with a string that does not fit the capacity: the storage
    is replaced by the next chunk of the system allocator. *)
Lemma xstr_set_grow h L m xs t t' junk :
  heap_inv h L → xinv h L m xs t → NUL ∉ t' →
  a xs ≤ Z.of_nat (length t') → fits h L m (Z.of_nat (length t') + 1) →
  let b := brk h in
  let xs' := MkXstr (Some b) (Z.of_nat (length t')) (Z.of_nat (length t')) (mm xs) in
  let L' := upd_live m (match s xs with
                        | Some p => remove_addr p (L m ++ [b])
                        | None => L m ++ [b]
                        end) L in
  ∃ h',
    xstr_set xs (Some (t' ++ NUL :: junk)) h = Ok (h', xs') ∧
    heap_inv h' L' ∧ xinv h' L' m xs' t' ∧ brk h' = Pos.succ b ∧
    sum_alloc (chunks h') (L' m) =
      sum_alloc (chunks h) (L m) + (Z.of_nat (length t') + 1) -
      match s xs with Some p => a xs + 1 | None => 0 end.
Proof.
  intros HI X Hn Hcap Hfit b xs' L'.
  destruct (xstr_reserve_grow h L m xs t (Z.of_nat (length t')) HI X Hcap Hfit)
    as (h1 & c & Hr & HI1 & X1 & Hbrk & _ & _ & Hc & _ & Hp & Hsum).
  fold b in Hr, HI1, X1, Hbrk, Hc. fold L' in HI1, X1, Hsum.
  unfold xstr_set. rewrite strlen_src by done. rsimpl. rewrite Hr.
  cbn [src_cells]. unfold strcpy_cells. rsimpl.
  rewrite src_cstr by done. unfold load_payload. rsimpl. cbn [s].
  unfold get_chunk at 1. rewrite Hc.
  pose proof X1 as [_ _ _ _ Hst]. cbn [s a] in Hst.
  destruct Hst as (_ & c' & rest & Hc' & _ & Hpl). assert (c' = c) as -> by congruence.
  destruct (buffer_write_start h1 L' m _ t b c t' HI1 X1 eq_refl Hc Hpl Hn)
    as (d' & h2 & Hw & Hst & HI2 & X2); [cbn; lia|].
  rewrite Hw, Hst. cbn [s a mm] in *.
  exists h2. split; [done|]. split; [done|]. split; [done|].
  unfold store_payload in Hst. rsimpl. unfold get_chunk in Hst. rewrite Hc in Hst.
  injection Hst as <-. cbn [brk chunks upd_chunks]. split; [done|].
  rewrite <- Hsum. apply sum_alloc_ext. intros x _. unfold alloc_at.
  destruct (decide (x = b)) as [->|Hx].
  - by rewrite lookup_insert_eq, Hc.
  - by rewrite lookup_insert_ne.
Qed.

Lemma stripped_length t : (length (stripped t) ≤ length t)%nat.
Proof.
  destruct (stripped_spec t) as (pre & post & Ht & _).
  rewrite Ht at 2. rewrite !length_app. lia.
Qed.

Lemma skip_ungraph_graph t c :
  head t = Some c → isgraph c = true → skip_ungraph t = t.
Proof. destruct t as [|x t]; [done|]. cbn. intros [= ->] ->. done. Qed.

Lemma stripped_idempotent t : stripped (stripped t) = stripped t.
Proof.
  destruct (stripped_spec t) as (pre & post & _ & _ & _ & Hhd & Hlast).
  generalize dependent (stripped t). intros u Hhd Hlast. unfold stripped.
  destruct u as [|c u'] eqn:Hu; [done|]. rewrite <- Hu in *.
  assert (head u = Some c) as Hc by (by rewrite Hu).
  rewrite (skip_ungraph_graph u c Hc (Hhd c Hc)).
  destruct (list.last u) as [z|] eqn:Hz.
  - rewrite (skip_ungraph_graph (rev u) z).
    + apply rev_involutive.
    + rewrite <- Hz, rev_alt. change (rev_append u []) with (reverse u).
      apply head_reverse.
    + by apply Hlast.
  - apply last_None in Hz. congruence.
Qed.

Lemma store_payload_brk p d h h' : store_payload p d h = Ok h' → brk h' = brk h.
Proof.
  unfold store_payload. rsimpl. destruct (get_chunk h p); [|done].
  destruct p; [|done]. by intros [= <-].
Qed.

Lemma store_char_brk p i c h h' : store_char p i c h = Ok h' → brk h' = brk h.
Proof.
  unfold store_char. rsimpl. destruct (load_payload h p); [|done]. cbn.
  destruct (write_at _ _ _); [|done]. apply store_payload_brk.
Qed.

Lemma strip_copy_brk n : ∀ i b p ret h h' b',
  strip_copy n i b p ret h = Ok (h', b') → brk h' = brk h.
Proof.
  induction n as [|n IH]; intros i b p ret h h' b'; cbn [strip_copy].
  - by intros [= <- _].
  - rsimpl. destruct (load_payload h p) as [d|]; [|done]. cbn.
    destruct (i <? 0); [done|]. destruct (d !! Z.to_nat i); [|done].
    destruct (load_payload h ret); [|done]. cbn.
    destruct (write_at _ _ _); [|done].
    destruct (store_payload ret _ h) as [h1|] eqn:Hst; [|done].
    intros Hrec. apply IH in Hrec. apply store_payload_brk in Hst. congruence.
Qed.

Lemma mmatic_allocate_brk size o zero sh h h' r :
  mmatic_allocate size o zero sh h = Ok (h', r) → brk h' = Pos.succ (brk h).
Proof.
  unfold mmatic_allocate. rsimpl. destruct (resolve_owner h o) as [m|]; [|done]. cbn.
  destruct (get_mgr h m) as [M|]; [|done]. cbn.
  destruct (get_chunk h (last M)); [|done]. cbn.
  destruct m; [|done]. destruct (last M); [|done]. by intros [= <- _].
Qed.

(** [xstr_strip] takes exactly one chunk from the system allocator. *)
Lemma xstr_strip_brk xs h h' r :
  xstr_strip xs h = Ok (h', r) → brk h' = Pos.succ (brk h).
Proof.
  unfold xstr_strip. rsimpl. destruct (strip_fwd _ _ _ _) as [i|]; [|done]. cbn.
  destruct (strip_bwd _ _ _ _) as [j|]; [|done]. cbn.
  destruct (mmatic_alloc _ _ _) as [[h1 ret]|] eqn:Hal; [|done]. cbn.
  destruct (strip_copy _ _ _ _ _ _) as [[h2 b]|] eqn:Hcp; [|done]. cbn.
  destruct (store_char _ _ _ _) as [h3|] eqn:Hsc; [|done]. intros [= <- _].
  apply mmatic_allocate_brk in Hal. apply strip_copy_brk in Hcp.
  apply store_char_brk in Hsc. congruence.
Qed.

(** X12.  [xstr_stripch] of a string returns a new chunk that holds the
    string without its leading and trailing characters that are not
    printable; the result strips to itself.  The temporary buffer is
    released before the return: three chunks are taken from the system
    allocator, and the traversal of the manager has gained the result
    only.  For a NULL string the call dereferences NULL. *)
Theorem stripch_returns_stripped_copy h L m t junk :
  heap_inv h L → is_manager h (Some m) = true → NUL ∉ t →
  sum_alloc (chunks h) (L m) + 2 * Z.of_nat (length t) + 3 < totalloc_mod →
  let ret := Pos.succ (Pos.succ (brk h)) in
  xstr_stripch None (Some m) h = Err NullDeref ∧
  ∃ h' c,
    xstr_stripch (Some (t ++ NUL :: junk)) (Some m) h = Ok (h', Some ret) ∧
    chunks h' !! ret = Some c ∧ payload c = terminated (stripped t) ∧
    cstr (payload c) = Ok (stripped t) ∧ stripped (stripped t) = stripped t ∧
    allocations h h' = 3 ∧
    mmatic_summary h' m = L m ++ [ret] ∧
    heap_inv h' (upd_live m (L m ++ [ret]) L).
Proof.
  intros HI Hm Hn Hfit ret.
  pose proof (is_manager_is_Some _ _ Hm) as HmS.
  pose proof (xinv_released h L m Hm) as X0.
  destruct (xstr_set_grow h L m _ [] [] [] HI X0 ltac:(apply not_elem_of_nil))
    as (h1 & Hi & HI1 & X1 & Hb1 & Hs1); [cbn; lia|unfold fits; cbn; lia|].
  cbn [s a mm length] in Hi, HI1, X1, Hs1. change (Z.of_nat 0) with 0 in *.
  set (b := brk h) in *.
  set (L1 := upd_live m (L m ++ [b]) L) in *.
  assert (xstr_init (Some m) h = Ok (h1, MkXstr (Some b) 0 0 (Some m))) as Hinit by exact Hi.
  split.
  { unfold xstr_stripch. rewrite Hinit. done. }
  destruct (xstr_set_grow h1 L1 m _ [] t junk HI1 X1 Hn)
    as (h2 & Hset & HI2 & X2 & Hb2 & Hs2); [cbn; lia|unfold fits; lia|].
  cbn [s a mm] in Hset, HI2, X2, Hs2. rewrite Hb1 in *.
  set (b1 := Pos.succ b) in *.
  assert (b ∉ L m) as HbL.
  { intros Hin. pose proof (live_below_brk _ _ _ _ HI HmS Hin). unfold b in *. lia. }
  assert (b1 ∉ L m) as Hb1L.
  { intros Hin. pose proof (live_below_brk _ _ _ _ HI HmS Hin). unfold b1, b in *. lia. }
  assert (∀ x, upd_live m (remove_addr b (L1 m ++ [b1])) L1 x = upd_live m (L m ++ [b1]) L x)
    as HL2.
  { intros x. unfold L1, upd_live. destruct (decide (x = m)) as [->|?]; [|done].
    rewrite decide_True by done. rewrite <- app_assoc. cbn [app].
    by rewrite remove_addr_middle. }
  set (L2 := upd_live m (L m ++ [b1]) L).
  assert (sum_alloc (chunks h2) (L2 m) = sum_alloc (chunks h) (L m) + Z.of_nat (length t) + 1)
    as Hsum2.
  { unfold L2. rewrite <- HL2. lia. }
  apply (heap_inv_ext _ _ L2 HL2) in HI2. apply (xinv_ext _ _ L2 _ _ _ HL2) in X2.
  pose proof (stripped_length t) as Hsl.
  destruct (xstr_strip_spec h2 L2 m _ t b1 HI2 X2 eq_refl)
    as (h3 & c & Hstrip & _ & Hc & Hp & HI3 & X3); [unfold fits; lia|].
  pose proof (xstr_strip_brk _ _ _ _ Hstrip) as Hb3.
  rewrite Hb2 in *. fold ret in Hstrip, Hc, HI3, X3.
  set (L3 := upd_live m (L2 m ++ [ret]) L2) in *.
  destruct (mmatic_freeptr_spec h3 L3 m b1 HI3
              (is_manager_is_Some _ _ (xi_mgr _ _ _ _ _ X3))
              (xinv_store _ _ _ _ _ X3 b1 eq_refl))
    as (h4 & Hfree & _ & Hb4 & HI4 & Hdata & Hmt).
  assert (ret ≠ b1) as Hrb by (unfold ret, b1; lia).
  destruct (same_data_Some _ _ _ _ (Hdata ret Hrb) Hc) as (c4 & Hc4 & _ & _ & _ & _ & Hp4).
  assert (∀ x, upd_live m (remove_addr b1 (L3 m)) L3 x = upd_live m (L m ++ [ret]) L x)
    as HL4.
  { intros x. unfold L3, L2, upd_live. destruct (decide (x = m)) as [->|?]; [|done].
    rewrite !decide_True by done. rewrite <- app_assoc. cbn [app].
    by rewrite remove_addr_middle. }
  apply (heap_inv_ext _ _ _ HL4) in HI4.
  exists h4, c4. split.
  { unfold xstr_stripch. rewrite Hinit. rsimpl. rewrite Hset. rsimpl.
    rewrite Hstrip. rsimpl. unfold xstr_free, mmfreeptr. cbn [s]. rewrite Hfree. done. }
  split; [done|]. split; [congruence|]. split.
  { rewrite Hp4, Hp, <- (app_nil_r (terminated _)). apply cstr_terminated.
    destruct (stripped_spec t) as (pre & post & Ht & _).
    intros Hin. apply Hn. rewrite Ht. set_solver. }
  split; [apply stripped_idempotent|]. split.
  { unfold allocations. rewrite Hb4, Hb3. unfold ret, b1, b in *. lia. }
  split; [|done].
  rewrite (mmatic_summary_spec h4 _ m HI4); [apply upd_live_eq|].
  specialize (Hmt m). pose proof (is_manager_is_Some _ _ (xi_mgr _ _ _ _ _ X3)) as [M3 HM3].
  rewrite HM3 in Hmt. destruct (mgrs h4 !! m); [eauto|done].
Qed.

(** ** Formatting and loops *)

(** X13.  [xstr_set_format] updates the length field only when the result
    is positive.  When the rendering is empty, or the writing pass renders
    to another length than the measuring pass (the result is then -1), the
    storage has been overwritten with the rendering of the writing pass,
    cut to the capacity, while the length field still has its old value. *)
Theorem set_format_keeps_stale_length h L m xs t r1 r2 :
  buffer_state h L m xs t → NUL ∉ r2 →
  fits h L m (Z.of_nat (length r1) + 1) →
  r1 = [] ∨ length r2 ≠ length r1 →
  ∃ h' L' xs',
    xstr_set_format xs r1 r2 h =
      Ok (h', xs', if decide (length r2 = length r1) then 0 else -1) ∧
    heap_inv h' L' ∧ len xs' = len xs ∧ Z.of_nat (length r1) ≤ a xs' ∧
    xstr_content h' xs' = Ok (take (Z.to_nat (a xs')) r2).
Proof.
  intros [HI X] Hn Hfit Hcase. unfold xstr_set_format.
  destruct (xstr_reserve_spec h L m xs t (Z.of_nat (length r1)) HI X ltac:(lia) Hfit)
    as (h1 & L1 & xs1 & p & c & rest & Hr & HI1 & X1 & Hcap & Hlen & Hmm & Hs & Hc & Hp & Hpl).
  rewrite Hr. rsimpl. unfold vsnprintf.
  replace (a xs1 + 1 <=? 0) with false by (symmetry; apply Z.leb_gt; lia).
  unfold load_payload. rsimpl.
  rewrite Hs. unfold get_chunk at 1. rewrite Hc.
  replace (a xs1 + 1 - 1) with (a xs1) by lia.
  set (t' := take (Z.to_nat (a xs1)) r2).
  assert (NUL ∉ t') as Hn'.
  { intros Hin. apply Hn. rewrite <- (take_drop (Z.to_nat (a xs1)) r2).
    apply elem_of_app. by left. }
  destruct (buffer_write_start h1 L1 m xs1 t p c t' HI1 X1 Hs Hc Hpl Hn')
    as (d' & h2 & Hw & Hst & HI2 & X2).
  { unfold t'. rewrite length_take. lia. }
  rewrite Hw, Hst.
  assert ((if Z.of_nat (length r2) =? Z.of_nat (length r1)
           then Z.of_nat (length r1) else -1)
          = if decide (length r2 = length r1) then 0 else -1) as Hret.
  { destruct (decide (length r2 = length r1)) as [He|Hne].
    - rewrite He, Z.eqb_refl. destruct Hcase as [->|]; [done|congruence].
    - rewrite (proj2 (Z.eqb_neq _ _)) by lia. done. }
  rewrite Hret.
  assert (((if decide (length r2 = length r1) then 0 else -1) >? 0) = false) as Hpos
    by (by destruct (decide _)).
  rewrite Hpos.
  exists h2, L1, xs1. split; [done|]. split; [done|]. split; [done|]. split; [done|].
  pose proof (xinv_content _ _ _ _ _ X2 ltac:(by eexists)) as Hcont.
  unfold xstr_content in *. cbn [s] in Hcont. by rewrite Hs.
Qed.

(** X14.  A loop of [xstr_append_char] over characters that are not NUL,
    on a buffer whose capacity is at most what the first call reserves,
    extends the content by these characters in order, and takes one chunk
    from the system allocator for each character. *)
Theorem append_chars_extends_content cs h L m xs t :
  buffer_state h L m xs t → is_Some (s xs) →
  a xs ≤ grow_target (len xs) → NUL ∉ cs →
  sum_alloc (chunks h) (L m) - a xs +
    2 * grow_target (len xs + Z.of_nat (length cs)) + 2 < totalloc_mod →
  ∃ h' L' xs',
    append_chars xs cs h = Ok (h', xs') ∧ buffer_state h' L' m xs' (t ++ cs) ∧
    len xs' = len xs + Z.of_nat (length cs) ∧
    xstr_content h' xs' = Ok (t ++ cs) ∧
    allocations h h' = Z.of_nat (length cs).
Proof.
  intros [HI X] Hs Hcap Hn Hsum.
  destruct (append_chars_reserve_each cs h L m xs t HI X Hs Hcap Hn Hsum)
    as (h' & L' & xs' & Hrun & [HI' X'] & Hcount).
  exists h', L', xs'. split; [done|]. split; [done|]. split.
  { rewrite (xi_len _ _ _ _ _ X'), (xi_len _ _ _ _ _ X), length_app. lia. }
  split; [|done]. apply (xinv_content _ _ _ _ _ X').
  destruct cs as [|c cs].
  - cbn in Hrun. by injection Hrun as <- <-.
  - pose proof X' as [_ _ Hl _ Hst]. destruct (s xs'); [done|].
    destruct Hst as [Ht _]. by destruct t.
Qed.

(** ** Reallocation within one manager *)



End Libpjf.

(** * Sample runs with a 32-bit counter *)

Lemma word32_pos : 0 < word32.
Proof. reflexivity. Qed.

(** Evaluate the call under the outermost [holds_after]. *)
Ltac run_call :=
  lazymatch goal with
  | |- holds_after ?r ?P =>
      let v := eval vm_compute in r in
      change (holds_after v P); unfold holds_after at 1; cbv beta iota
  end.

(** Name the store a call returned by evaluating the call. *)
Ltac evaluated H := vm_compute in H; injection H as <-.

(** An owner of a sample run stands for its manager. *)
Ltac owns := split; [reflexivity|by eexists].

(** The sample manager with one block of [n] bytes: the manager is at 1,
    its sentinel at 2 and the block at 3. *)
Lemma block_of_spec n :
  0 ≤ n < word32 →
  ∃ h, block_of word32 n = Ok (h, Some 3%positive) ∧
       heap_inv word32 h (upd_live 1%positive [3%positive] (fun _ => [])).
Proof.
  intros Hn. destruct (fresh_mgr_spec word32 word32_pos) as (h0 & Hf & Hbrk & HI0 & Hm0).
  unfold block_of. rewrite Hf. cbn [fst snd]. evaluated Hf.
  destruct (mmatic_allocate_spec word32 word32_pos _ _ n (Some 1%positive) true false
              1%positive HI0) as (h1 & c & Hal & _ & _ & _ & _ & _ & HI1 & _);
    [lia|owns|rewrite upd_live_eq; cbn; lia|].
  rewrite Hal. exists h1. split; [done|].
  eapply heap_inv_ext; [|exact HI1].
  intros x. unfold upd_live. by destruct (decide (x = 1%positive)).
Qed.

(** C1, on a run: a manager is created on the empty store, 8 and then 4
    bytes are allocated, the first allocation is released; the traversal
    from the sentinel then visits the second chunk only, which is the
    one live chunk. *)
Lemma chunk_list_invariant_witness :
  0 < word32 ∧
  holds_after (block_of word32 8) (fun '(h1, p1) =>
    holds_after (mmatic_allocate word32 4 (Some 1%positive) false false h1) (fun '(h2, p2) =>
      holds_after (mmatic_freeptr_ word32 p1 h2) (fun h3 =>
        p1 = Some 3%positive ∧ p2 = Some 4%positive ∧
        mmatic_summary h3 1%positive = [4%positive] ∧
        ∃ L, heap_inv word32 h3 L ∧ L 1%positive = [4%positive]))).
Proof.
  split; [reflexivity|].
  destruct (chunk_list_invariant word32 word32_pos)
    as (Hsum & Hempty & Hcreate & Halloc & Hfree & _).
  destruct (Hcreate _ _ Hempty) as (h0 & Hc & _ & HI0).
  evaluated Hc.
  destruct (Halloc _ _ 8 (Some 1%positive) true false 1%positive HI0)
    as (h1 & Ha1 & _ & _ & HI1); [lia|owns|reflexivity|].
  evaluated Ha1.
  destruct (Halloc _ _ 4 (Some 1%positive) false false 1%positive HI1)
    as (h2 & Ha2 & _ & _ & HI2); [lia|owns|reflexivity|].
  evaluated Ha2.
  destruct (Hfree _ _ 1%positive [] 3%positive [4%positive] HI2)
    as (h3 & Hf & _ & HI3); [by eexists|reflexivity|].
  evaluated Hf.
  do 3 run_call.
  split; [reflexivity|]. split; [reflexivity|]. split; [reflexivity|].
  eexists. split; [exact HI3|reflexivity].
Defined.

(** The first four bytes of this string are the manager tag as it lies in
    memory. *)
Lemma tag_string_spells_mgr_tag :
  payload_tag (map Some ["w"; "167"; "187"; "186"; NUL]%char) = Ok TAG_MGR.
Proof. reflexivity. Qed.

(** C1 fails for an owner whose payload starts with the bytes of the
    manager tag.  The string is duplicated into the sample manager, which
    leaves the store in good order; the tag test then takes the payload
    for a manager record, and [allocate] and [reallocate] with that owner
    do not return: the code goes on to use the string as a record. *)
Lemma allocate_with_tag_spelling_owner_faults :
  holds_after (mmatic_strdup_ word32 (Some ["w"; "167"; "187"; "186"; NUL]%char)
                 (snd fresh_mgr) (fst fresh_mgr)) (fun '(h, p) =>
    (∃ L, heap_inv word32 h L ∧ L 1%positive = [3%positive]) ∧
    p = Some 3%positive ∧
    IS_MGR h p = Ok true ∧ is_manager h p = false ∧
    mmatic_allocate word32 4 p false false h = Err Confused ∧
    mmatic_realloc_ word32 p 0 p h = Err Confused).
Proof.
  destruct (fresh_mgr_spec word32 word32_pos) as (h0 & Hf & Hbrk & HI0 & Hm0).
  rewrite Hf. cbn [fst snd]. evaluated Hf.
  destruct (mmatic_allocate_spec word32 word32_pos _ _ 5 (Some 1%positive) false false
              1%positive HI0) as (h1 & c & Hal & _ & Hc & _ & _ & Hpl & HI1 & _);
    [lia|owns|reflexivity|].
  evaluated Hal.
  destruct (store_fresh_string word32 _ _ 3%positive c 5%nat ["w"; "167"; "187"; "186"]%char
              HI1 Hc Hpl) as (d' & h2 & _ & Hd' & Hst & HI2 & _); [cbn; lia|].
  subst d'. evaluated Hst.
  run_call. split; [eexists; split; [exact HI2|reflexivity]|].
  repeat split; reflexivity.
Qed.

Ltac evaluated2 H := vm_compute in H; injection H as <- <-.

Ltac no_nul :=
  cbn [list_ascii_of_string];
  repeat (apply not_elem_of_cons; split; [discriminate|]); apply not_elem_of_nil.

(** C2 on two runs.  Appending 64 characters one by one to an empty buffer
    allocates 64 times; and with length 7 and capacity 10, where three
    bytes are free, one more character still replaces the backing chunk
    (the capacity stays 10). *)
Lemma append_char_reserves_on_every_call :
  holds_after (buffer_of word32 "") (fun '(h, xs) =>
    holds_after (append_chars word32 xs (repeat "a"%char 64) h) (fun '(h', xs') =>
      len xs' = 64 ∧ allocations h h' = 64)) ∧
  holds_after (buffer_of word32 "abcdefg") (fun '(h, xs) =>
    holds_after (xstr_reserve word32 xs 10 h) (fun '(h1, xs1) =>
      holds_after (xstr_append_char word32 xs1 "h" h1) (fun '(h2, xs2) =>
        len xs1 = 7 ∧ a xs1 = 10 ∧ a xs2 = 10 ∧ s xs2 ≠ s xs1 ∧
        allocations h1 h2 = 1))).
Proof.
  split.
  - do 2 run_call. split; reflexivity.
  - do 3 run_call. repeat split; try reflexivity. cbn. congruence.
Qed.

(** The same for every length: [n] appended characters cost [n]
    allocations. *)
Lemma append_chars_allocations (cs : list ascii) :
  NUL ∉ cs → 2 * grow_target (Z.of_nat (length cs)) + 3 < word32 →
  holds_after (buffer_of word32 "") (fun '(h, xs) =>
    holds_after (append_chars word32 xs cs h) (fun '(h', xs') =>
      len xs' = Z.of_nat (length cs) ∧ allocations h h' = Z.of_nat (length cs))).
Proof.
  intros Hn Hfit.
  destruct (buffer_of_spec word32 word32_pos "") as (h & xs & Heq & Hs & [HI X]);
    [no_nul|reflexivity|].
  rewrite Heq. evaluated2 Heq. unfold holds_after at 1. cbv beta iota.
  destruct (append_chars_reserve_each word32 word32_pos cs _ _ _ _ _ HI X)
    as (h' & L' & xs' & Hrun & [_ X'] & Hcount); [by eexists|by vm_compute|done| |].
  { change (sum_alloc _ _) with 1. cbn [len a]. rewrite Z.add_0_l. lia. }
  rewrite Hrun. unfold holds_after. split; [|done].
  by rewrite (xi_len _ _ _ _ _ X').
Qed.

(** C3 fails on [appendSized] with a count beyond the source: "a" appended
    with count 5 to an empty buffer sets the length to 5 over a storage that
    holds the one-character string "a". *)
Lemma append_size_past_source_breaks_invariant :
  holds_after (buffer_of word32 "") (fun '(h, xs) =>
    xstr_ok h xs ∧
    holds_after (xstr_append_size word32 xs (Some ["a"; NUL]%char) 5 h) (fun '(h', xs') =>
      len xs' = 5 ∧ xstr_content h' xs' = Ok ["a"%char] ∧ ¬ xstr_ok h' xs')).
Proof.
  run_call. split.
  - split; [done|]. exists []. split; reflexivity.
  - run_call. split; [reflexivity|]. split; [reflexivity|].
    intros [_ (t & Ht & Hl)]. vm_compute in Ht. injection Ht as <-. discriminate Hl.
Qed.

(** [setFormat] with an empty rendering leaves the old length over an
    empty string. *)
Lemma set_format_empty_keeps_length :
  holds_after (buffer_of word32 "abc") (fun '(h, xs) =>
    holds_after (xstr_set_format word32 xs [] [] h) (fun '(h', xs', n) =>
      n = 0 ∧ len xs' = 3 ∧ xstr_content h' xs' = Ok [])).
Proof. do 2 run_call. repeat split; reflexivity. Qed.

(** C3 as amended, on a run: a buffer that holds "abc" is in good order,
    and so is the buffer after 'd' is appended. *)
Lemma buffer_invariant_witness :
  0 < word32 ∧
  holds_after (buffer_of word32 "abc") (fun '(h, xs) =>
    xstr_ok h xs ∧
    ∃ h' L' xs',
      xstr_append_char word32 xs "d" h = Ok (h', xs') ∧
      buffer_state word32 h' L' 1%positive xs' ["a"; "b"; "c"; "d"]%char ∧
      xstr_ok h' xs').
Proof.
  split; [reflexivity|].
  destruct (buffer_of_spec word32 word32_pos "abc") as (h & xs & Heq & Hs & HB);
    [no_nul|reflexivity|].
  rewrite Heq. evaluated2 Heq. unfold holds_after. cbv beta iota.
  destruct (buffer_invariant word32 24 word32_pos) as (Hok & _ & Hops).
  split; [by eapply Hok|].
  destruct (Hops _ _ _ _ _ HB) as (_ & _ & _ & _ & _ & _ & _ & Hchar & _).
  destruct (Hchar "d"%char) as (h' & L' & xs' & Hrun & HB'); [reflexivity|].
  exists h', L', xs'. split; [done|]. split; [done|]. by eapply Hok.
Defined.



(** [reallocate] to a smaller size, on a run: 8 zeroed bytes are
    allocated.  Reallocating them to 12 or to 0 (keep the size) returns;
    reallocating them to 4 stops at the copy of the old 8 bytes, which
    overruns the 4-byte payload. *)
Lemma realloc_to_smaller_size_faults :
  holds_after (block_of word32 8) (fun '(h, p) =>
    mmatic_realloc_ word32 p 4 None h = Err OutOfBounds ∧
    is_ok (mmatic_realloc_ word32 p 12 None h) = true ∧
    is_ok (mmatic_realloc_ word32 p 0 None h) = true).
Proof. run_call. repeat split; reflexivity. Qed.

(** C9 on the same run, step by step: the old chunk has 8 payload bytes,
    the chunk allocated for the new size has 4, and the copy is made with
    the old size. *)
Lemma realloc_copy_exceeds_new_payload :
  holds_after (block_of word32 8) (fun '(h, p) =>
    holds_after (mmatic_allocate word32 4 (Some 1%positive) false false h) (fun '(h1, q) =>
      holds_after (get_chunk h1 p) (fun old =>
        holds_after (get_chunk h1 q) (fun new =>
          alloc old = 8 ∧ alloc new = 4 ∧ length (payload new) = 4%nat ∧
          memcpy q p (alloc old) h1 = Err OutOfBounds)))).
Proof. do 4 run_call. repeat split; reflexivity. Qed.

(** C5 fails at equal capacity: a buffer that holds "abc" has capacity 3,
    and reserving 3 replaces its backing chunk. *)
Lemma reserve_at_capacity_reallocates :
  holds_after (buffer_of word32 "abc") (fun '(h, xs) =>
    a xs = 3 ∧ xstr_reserve word32 xs 3 h ≠ Ok (h, xs) ∧
    holds_after (xstr_reserve word32 xs 3 h) (fun '(h', xs') =>
      s xs' ≠ s xs ∧ get_chunk h' (s xs) = Err Dangling)).
Proof.
  run_call. split; [reflexivity|]. split.
  - intros H. vm_compute in H. congruence.
  - run_call. split; [cbn; congruence|reflexivity].
Qed.

(** C5 as amended, on the same buffer: reserving 2 changes nothing;
    reserving 3 moves the content to a new chunk of 4 bytes and releases
    the old one. *)
Lemma reserve_behaviour_witness :
  holds_after (buffer_of word32 "abc") (fun '(h, xs) =>
    xstr_reserve word32 xs 2 h = Ok (h, xs) ∧
    ∃ h' c,
      xstr_reserve word32 xs 3 h = Ok (h', MkXstr (Some (brk h)) (len xs) 3 (mm xs)) ∧
      chunks h' !! brk h = Some c ∧ alloc c = 4 ∧
      payload c = terminated (list_ascii_of_string "abc") ++ replicate 0 None ∧
      get_chunk h' (s xs) = Err Dangling).
Proof.
  destruct (buffer_of_spec word32 word32_pos "abc") as (h & xs & Heq & Hs & HB);
    [no_nul|reflexivity|].
  rewrite Heq. evaluated2 Heq. unfold holds_after. cbv beta iota.
  split.
  - apply (reserve_behaviour word32 word32_pos _ _ _ _ _ 2 HB); [lia|]. by vm_compute.
  - destruct (reserve_behaviour word32 word32_pos _ _ _ _ _ 3 HB ltac:(lia)) as [_ Hgrow].
    destruct Hgrow as (h' & L' & c & Hr & _ & Hc & Hal & Hp & Hold & _);
      [by vm_compute|reflexivity|].
    exists h', c. do 4 (split; [done|]).
    unfold get_chunk. cbn [s]. by rewrite (Hold 3%positive eq_refl).
Defined.

(** C6 fails on a source with an embedded NUL: of "a\0b" with count 3 the
    buffer receives 'a' and NULs, not the 'b'. *)
Lemma set_size_stops_at_embedded_nul :
  holds_after (buffer_of word32 "") (fun '(h, xs) =>
    holds_after (xstr_set_size word32 xs (Some ["a"; NUL; "b"; NUL]%char) 3 h) (fun '(h', xs') =>
      holds_after (load_payload h' (s xs')) (fun d =>
        len xs' = 3 ∧ d = [Some "a"; Some NUL; Some NUL; Some NUL]%char ∧
        take 3 d ≠ map Some (take 3 ["a"; NUL; "b"; NUL]%char)))).
Proof. do 3 run_call. split; [reflexivity|]. split; [reflexivity|]. cbn. congruence. Qed.

(** C6 as amended, on that source. *)
Lemma set_size_copies_up_to_nul_witness :
  holds_after (buffer_of word32 "") (fun '(h, xs) =>
    ∃ h' L' p c rest a',
      xstr_set_size word32 xs (Some (["a"] ++ [NUL; "b"; NUL])%char) 3 h
        = Ok (h', MkXstr (Some p) 3 a' (mm xs)) ∧
      heap_inv word32 h' L' ∧ chunks h' !! p = Some c ∧ 3 ≤ a' ∧
      payload c = map Some ["a"%char] ++ replicate (Z.to_nat 3 - 1) (Some NUL) ++
                  [Some NUL] ++ rest).
Proof.
  destruct (buffer_of_spec word32 word32_pos "") as (h & xs & Heq & Hs & HB);
    [no_nul|reflexivity|].
  rewrite Heq. evaluated2 Heq. unfold holds_after. cbv beta iota.
  apply (set_size_copies_up_to_nul word32 word32_pos _ _ _ _ _ ["a"%char] _ 3 HB).
  - no_nul.
  - right. split; [cbn; lia|]. by eexists.
  - reflexivity.
Defined.

(** C7 fails on [appendSized] with the empty string and a count: the
    length grows by the count. *)
Lemma append_size_of_empty_string_grows_length :
  holds_after (buffer_of word32 "abc") (fun '(h, xs) =>
    holds_after (xstr_append_size word32 xs (Some [NUL]) 3 h) (fun '(h', xs') =>
      len xs = 3 ∧ len xs' = 6 ∧ (h', xs') ≠ (h, xs))).
Proof. do 2 run_call. split; [reflexivity|]. split; [reflexivity|]. congruence. Qed.

(** C8 on the spec's example. *)
Lemma strip_hello_witness :
  stripped (list_ascii_of_string "  hello  ") = list_ascii_of_string "hello" ∧
  holds_after (buffer_of word32 "  hello  ") (fun '(h, xs) =>
    ∃ h' c,
      xstr_strip word32 xs h = Ok (h', Some (brk h)) ∧
      chunks h' !! brk h = Some c ∧
      payload c = terminated (list_ascii_of_string "hello") ∧
      xstr_content h' xs = Ok (list_ascii_of_string "  hello  ")).
Proof.
  split; [reflexivity|].
  destruct (buffer_of_spec word32 word32_pos "  hello  ") as (h & xs & Heq & Hs & HB);
    [no_nul|reflexivity|].
  rewrite Heq. evaluated2 Heq. unfold holds_after. cbv beta iota.
  destruct (strip_returns_stripped_copy word32 word32_pos _ _ _ _ _ 3%positive HB eq_refl)
    as (h' & L' & c & Hrun & _ & Hc & Hp & _ & Hcont & _); [reflexivity|].
  by exists h', c.
Defined.

(** C8 fails outside the buffers in good order that have storage.  A
    buffer holds " abc".  Once released it has no storage, and [strip]
    dereferences NULL.  And once [setFormat] has been given an empty
    rendering its content is empty while its length is still 4, and
    [strip] returns "abc". *)
Lemma strip_outside_good_order :
  holds_after (buffer_of word32 " abc") (fun '(h, xs) =>
    holds_after (xstr_free word32 xs h) (fun '(h1, xs1) =>
      s xs1 = None ∧ len xs1 = 0 ∧ xstr_strip word32 xs1 h1 = Err NullDeref) ∧
    holds_after (xstr_set_format word32 xs [] [] h) (fun '(h2, xs2, n) =>
      n = 0 ∧ xstr_content h2 xs2 = Ok [] ∧
      holds_after (xstr_strip word32 xs2 h2) (fun '(h3, ret) =>
        load_payload h3 ret = Ok (terminated ["a"; "b"; "c"]%char)))).
Proof.
  run_call. split.
  - run_call. repeat split; reflexivity.
  - run_call. split; [reflexivity|]. split; [reflexivity|]. run_call. reflexivity.
Qed.

(** [strip] of an empty buffer and of a buffer of blanks. *)
Lemma strip_of_nothing_printable :
  holds_after (buffer_of word32 "") (fun '(h, xs) =>
    holds_after (xstr_strip word32 xs h) (fun '(h', ret) =>
      load_payload h' ret = Ok [Some NUL])) ∧
  holds_after (buffer_of word32 "   ") (fun '(h, xs) =>
    holds_after (xstr_strip word32 xs h) (fun '(h', ret) =>
      load_payload h' ret = Ok [Some NUL])).
Proof. split; do 2 run_call; reflexivity. Qed.

(** C10 on a run: a buffer that holds "abc" is released, released again,
    and then receives a character. *)
Lemma free_then_reuse_witness :
  holds_after (buffer_of word32 "abc") (fun '(h, xs) =>
    let xs0 := MkXstr None 0 0 (Some 1%positive) in
    ∃ h',
      xstr_free word32 xs h = Ok (h', xs0) ∧
      xstr_free word32 xs0 h' = Ok (h', xs0) ∧
      ∃ h2 L2 xs2,
        xstr_append_char word32 xs0 "x" h' = Ok (h2, xs2) ∧
        is_Some (s xs2) ∧ buffer_state word32 h2 L2 1%positive xs2 ["x"%char]).
Proof.
  destruct (buffer_of_spec word32 word32_pos "abc") as (h & xs & Heq & Hs & HB);
    [no_nul|reflexivity|].
  rewrite Heq. evaluated2 Heq. unfold holds_after. cbv beta iota zeta.
  destruct (free_then_reuse word32 word32_pos _ _ _ _ _ HB)
    as (h' & Hfree & _ & Hagain & _ & _ & _ & _ & Hchar & _).
  exists h'. split; [done|]. split; [done|].
  pose proof Hfree as Hf. evaluated Hf.
  apply Hchar; [discriminate|reflexivity].
Defined.

(** C10 fails in its first part: a released buffer is told apart from a
    freshly initialised one.  Both have length 0 and capacity 0, but the
    fresh buffer has storage (one byte, the terminator) and the released
    one has none: [xstr_to_char] gives a string for the first and NULL for
    the second, and [strip] returns for the first and dereferences NULL for
    the second. *)
Lemma released_buffer_differs_from_fresh :
  holds_after (xstr_init word32 (snd fresh_mgr) (fst fresh_mgr)) (fun '(h, fresh) =>
    len fresh = 0 ∧ a fresh = 0 ∧ xstr_to_char fresh = Some 3%positive ∧
    xstr_content h fresh = Ok [] ∧
    is_ok (xstr_strip word32 fresh h) = true ∧
    holds_after (xstr_free word32 fresh h) (fun '(h', freed) =>
      len freed = 0 ∧ a freed = 0 ∧ xstr_to_char freed = None ∧
      xstr_content h' freed = Err NullDeref ∧
      xstr_strip word32 freed h' = Err NullDeref)).
Proof. run_call. do 5 (split; [reflexivity|]). run_call. repeat split; reflexivity. Qed.


(** * Sample runs for the rest of the code *)

(** X1 on a run: the sample manager has a block of 8 bytes; freeing
    through the pointer to that block releases the manager and the
    block. *)
Lemma free_all_releases_manager_witness :
  0 < word32 ∧
  holds_after (block_of word32 8) (fun '(h1, p1) =>
    ∃ h', mmatic_free_ p1 h1 = Ok h' ∧ mgrs h' !! 1%positive = None ∧
          chunks h' !! 3%positive = None).
Proof.
  split; [reflexivity|].
  destruct (block_of_spec 8) as (h1 & Hb & HI1); [done|].
  rewrite Hb. evaluated Hb. unfold holds_after.
  destruct (free_all_releases_manager word32 word32_pos _ _ (Some 3%positive) 1%positive HI1)
    as (h' & Hfree & Hm & _ & Hgone & _); [owns|].
  exists h'. split; [done|]. split; [done|]. apply Hgone. rewrite upd_live_eq. set_solver.
Defined.

(** X2 on a run: a manager created on the empty store and freed at once
    leaves the empty store. *)
Lemma create_then_free_all_restores_witness :
  0 < word32 ∧
  ∃ h1 mgr_ h2,
    mmatic_create empty_heap = (h1, mgr_) ∧ mmatic_free_ mgr_ h1 = Ok h2 ∧
    chunks h2 = chunks empty_heap ∧ mgrs h2 = mgrs empty_heap.
Proof.
  split; [reflexivity|].
  exact (create_then_free_all_restores word32 word32_pos empty_heap _ (heap_inv_empty word32)).
Defined.

(** X3 on a run: 8 bytes allocated from the sample manager and released
    leave the chunks and the manager as they were. *)
Lemma allocate_then_free_one_restores_witness :
  0 ≤ 8 ∧
  ∃ h1 p h2,
    mmatic_allocate word32 8 (Some 1%positive) false false (fst fresh_mgr) = Ok (h1, p) ∧
    p = Some 3%positive ∧ mmatic_freeptr_ word32 p h1 = Ok h2 ∧
    chunks h2 = chunks (fst fresh_mgr) ∧ mgrs h2 = mgrs (fst fresh_mgr).
Proof.
  split; [lia|].
  destruct (fresh_mgr_spec word32 word32_pos) as (h0 & Hf & Hbrk & HI0 & Hm0).
  rewrite Hf. cbn [fst]. evaluated Hf.
  apply (allocate_then_free_one_restores word32 _ _ 8 (Some 1%positive) false false
           1%positive HI0); [lia|owns|reflexivity].
Defined.

(** X4 on a run: 4 bytes allocated with the pointer to the block of the
    sample manager as owner belong to that manager and come second in its
    traversal. *)
Lemma allocate_by_payload_pointer_witness :
  0 < word32 ∧
  holds_after (block_of word32 8) (fun '(h1, p1) =>
    ∃ h' c,
      mmatic_allocate word32 4 p1 false false h1 = Ok (h', Some 4%positive) ∧
      chunks h' !! 4%positive = Some c ∧ mgr c = Some 1%positive ∧
      mmatic_summary h' 1%positive = [3%positive; 4%positive]).
Proof.
  split; [reflexivity|].
  destruct (block_of_spec 8) as (h1 & Hb & HI1); [done|].
  rewrite Hb. evaluated Hb. unfold holds_after.
  destruct (allocate_by_payload_pointer word32 word32_pos _ _ 1%positive 3%positive 4
              false false HI1)
    as (h' & c & Hal & _ & Hc & Hm & _ & _ & _ & Hsum & _);
    [by eexists|rewrite upd_live_eq; set_solver|reflexivity|lia|reflexivity|].
  exists h', c. done.
Defined.

(** X5 on a run: releasing the block of 8 bytes of the sample manager
    takes the counter of the manager from 8 to 0 and empties the
    traversal. *)
Lemma free_one_frame_and_total_witness :
  0 < word32 ∧
  holds_after (block_of word32 8) (fun '(h1, p1) =>
    ∃ h' M M',
      mmatic_freeptrs word32 p1 h1 = Ok h' ∧
      mgrs h1 !! 1%positive = Some M ∧ totalloc M = 8 ∧
      mgrs h' !! 1%positive = Some M' ∧ totalloc M' = 0 ∧
      mmatic_summary h' 1%positive = []).
Proof.
  split; [reflexivity|].
  destruct (block_of_spec 8) as (h1 & Hb & HI1); [done|].
  rewrite Hb. evaluated Hb. unfold holds_after.
  destruct (free_one_frame_and_total word32 word32_pos _ _ 1%positive 3%positive
              (MkChunk TAG_CHUNK false 8 None (Some 2%positive) (Some 1%positive)
                       (replicate 8 (Some NUL))) HI1)
    as (h' & M & M' & Hfree & HM & HM' & Htot & _ & Hsum & _);
    [by eexists|rewrite upd_live_eq; set_solver|reflexivity|].
  exists h', M, M'. split; [done|]. split; [done|].
  assert (totalloc M = 8) as HM8 by (vm_compute in HM; by injection HM as <-).
  split; [done|]. split; [done|]. split; [|done].
  rewrite Htot, HM8. reflexivity.
Defined.

(** X6 on a run: the sample manager has a block of 8 bytes; a second
    manager is created (at 4, its sentinel at 5), and the block is
    reallocated to 12 bytes with the second manager as owner.  The first
    manager is left without chunks, the second has the new chunk (at 6). *)
Lemma realloc_moves_between_managers_witness :
  0 < word32 ∧
  holds_after (block_of word32 8) (fun '(h1, p1) =>
    let '(h2, m2) := mmatic_create h1 in
    ∃ h' c',
      mmatic_realloc_ word32 p1 12 m2 h2 = Ok (h', Some 6%positive) ∧
      chunks h' !! 3%positive = None ∧ chunks h' !! 6%positive = Some c' ∧
      mgr c' = Some 4%positive ∧ alloc c' = 12 ∧
      mmatic_summary h' 1%positive = [] ∧
      mmatic_summary h' 4%positive = [6%positive]).
Proof.
  split; [reflexivity|].
  destruct (block_of_spec 8) as (h1 & Hb & HI1); [done|].
  rewrite Hb. evaluated Hb. unfold holds_after.
  destruct (mmatic_create_spec word32 word32_pos _ _ HI1) as (h2 & Hc & _ & HI2 & _).
  rewrite Hc. evaluated Hc.
  destruct (realloc_moves_between_managers word32 word32_pos _ _ 1%positive 3%positive 12
              (Some 4%positive) 4%positive HI2)
    as (h' & c & c' & Hr & _ & Hgone & Hc' & Hm & _ & Hal & _ & Hs1 & Hs4);
    [by eexists|vm_compute; set_solver|owns|done|done|vm_compute; discriminate
    |reflexivity|].
  exists h', c'. done.
Defined.

(** X8 on a run: the copy of "hi" in the sample manager is a chunk of
    three bytes. *)
Lemma strdup_copies_string_witness :
  0 < word32 ∧
  ∃ h' c,
    mmatic_strdup_ word32 (Some ["h"; "i"; NUL]%char) (Some 1%positive) (fst fresh_mgr)
      = Ok (h', Some 3%positive) ∧
    chunks h' !! 3%positive = Some c ∧ alloc c = 3 ∧
    payload c = [Some "h"; Some "i"; Some NUL]%char ∧
    mmatic_summary h' 1%positive = [3%positive].
Proof.
  split; [reflexivity|].
  destruct (fresh_mgr_spec word32 word32_pos) as (h0 & Hf & Hbrk & HI0 & Hm0).
  rewrite Hf. cbn [fst]. evaluated Hf.
  destruct (strdup_copies_string word32 word32_pos _ _ (Some 1%positive) 1%positive
              ["h"; "i"]%char [] HI0)
    as (_ & h' & c & Hd & _ & Hc & Hal & Hp & Hsum & _);
    [owns|no_nul|reflexivity|].
  exists h', c. done.
Defined.

(** X9 on a run: the copy of a buffer that holds "abc" is a chunk of four
    bytes, and the buffer still holds "abc". *)
Lemma xstr_dup_copies_content_witness :
  0 < word32 ∧
  holds_after (buffer_of word32 "abc") (fun '(h, xs) =>
    ∃ h' c,
      xstr_dup word32 xs (Some 1%positive) h = Ok (h', Some 4%positive) ∧
      chunks h' !! 4%positive = Some c ∧ alloc c = 4 ∧
      payload c = [Some "a"; Some "b"; Some "c"; Some NUL]%char ∧
      xstr_content h' xs = Ok ["a"; "b"; "c"]%char).
Proof.
  split; [reflexivity|].
  destruct (buffer_of_spec word32 word32_pos "abc") as (h & xs & Heq & Hs & HB);
    [no_nul|reflexivity|].
  rewrite Heq. evaluated2 Heq. unfold holds_after.
  destruct (xstr_dup_copies_content word32 word32_pos _ _ _ _ _ 3%positive
              (Some 1%positive) 1%positive HB)
    as (h' & c & Hd & _ & Hc & Hal & Hp & _ & [_ X'] & _);
    [reflexivity|owns|reflexivity|].
  exists h', c. do 4 (split; [done|]).
  eapply (xinv_content word32 word32_pos); [exact X'|by eexists].
Defined.

(** X10 on a run: with a [BUFSIZ] of 8, ten digits are cut to seven. *)
Lemma printf_fills_one_buffer_witness :
  0 < word32 ∧ 0 < 8 ∧
  ∃ h' c,
    mmatic_printf_ word32 8 (Some 1%positive)
      (list_ascii_of_string "0123456789") (fst fresh_mgr) = Ok (h', Some 3%positive) ∧
    chunks h' !! 3%positive = Some c ∧ alloc c = 8 ∧
    cstr (payload c) = Ok (list_ascii_of_string "0123456").
Proof.
  split; [reflexivity|]. split; [reflexivity|].
  destruct (fresh_mgr_spec word32 word32_pos) as (h0 & Hf & Hbrk & HI0 & Hm0).
  rewrite Hf. cbn [fst]. evaluated Hf.
  destruct (printf_fills_one_buffer word32 8 word32_pos _ _ (Some 1%positive) 1%positive
              (list_ascii_of_string "0123456789") HI0)
    as (h' & c & rest & Hpr & Hc & Hal & _ & _ & Hs & _);
    [owns|reflexivity|reflexivity|].
  exists h', c. do 3 (split; [done|]). apply Hs. no_nul.
Defined.

(** X11 on a run: a copy of a released buffer of the sample manager is
    a NULL dereference. *)
Lemma released_buffer_cannot_be_read_witness :
  is_ok (mmalloc word32 1 (Some 1%positive) (fst fresh_mgr)) = true ∧
  xstr_dup word32 (MkXstr None 0 0 (Some 1%positive)) (Some 1%positive) (fst fresh_mgr)
    = Err NullDeref.
Proof.
  split; [reflexivity|].
  destruct (released_buffer_cannot_be_read word32 (fst fresh_mgr) (Some 1%positive)
              (Some 1%positive)) as (_ & _ & _ & Hdup).
  apply Hdup. reflexivity.
Defined.

(** X12 on a run: " hi " strips to "hi"; the result is the third chunk
    taken since the call (at 5), and the only chunk of the sample manager
    afterwards. *)
Lemma stripch_returns_stripped_copy_witness :
  0 < word32 ∧
  ∃ h' c,
    xstr_stripch word32 (Some [" "; "h"; "i"; " "; NUL]%char) (Some 1%positive)
      (fst fresh_mgr) = Ok (h', Some 5%positive) ∧
    chunks h' !! 5%positive = Some c ∧
    payload c = [Some "h"; Some "i"; Some NUL]%char ∧
    mmatic_summary h' 1%positive = [5%positive].
Proof.
  split; [reflexivity|].
  destruct (fresh_mgr_spec word32 word32_pos) as (h0 & Hf & Hbrk & HI0 & Hm0).
  rewrite Hf. cbn [fst]. evaluated Hf.
  destruct (stripch_returns_stripped_copy word32 word32_pos _ _ 1%positive
              [" "; "h"; "i"; " "]%char [] HI0)
    as (_ & h' & c & Hrun & Hc & Hp & _ & _ & _ & Hsum & _);
    [vm_compute; reflexivity|no_nul|vm_compute; reflexivity|].
  exists h', c. split; [exact Hrun|]. split; [exact Hc|].
  split; [rewrite Hp; vm_compute; reflexivity|exact Hsum].
Defined.

(** X13 on a run: [setFormat] with an empty rendering on a buffer that
    holds "abc" returns 0 and leaves length 3 over an empty string. *)
Lemma set_format_keeps_stale_length_witness :
  0 < word32 ∧
  holds_after (buffer_of word32 "abc") (fun '(h, xs) =>
    ∃ h' xs',
      xstr_set_format word32 xs [] [] h = Ok (h', xs', 0) ∧
      len xs' = 3 ∧ xstr_content h' xs' = Ok []).
Proof.
  split; [reflexivity|].
  destruct (buffer_of_spec word32 word32_pos "abc") as (h & xs & Heq & Hs & HB);
    [no_nul|reflexivity|].
  rewrite Heq. evaluated2 Heq. unfold holds_after.
  destruct (set_format_keeps_stale_length word32 word32_pos _ _ _ _ _ [] [] HB)
    as (h' & L' & xs' & Hrun & _ & Hlen & _ & Hcont);
    [apply not_elem_of_nil|reflexivity|by left|].
  exists h', xs'. split; [done|]. split; [done|]. by rewrite take_nil in Hcont.
Defined.

(** X14 on a run: 'a' and then 'b' appended to an empty buffer give "ab"
    and take two chunks from the system allocator. *)
Lemma append_chars_extends_content_witness :
  0 < word32 ∧
  holds_after (buffer_of word32 "") (fun '(h, xs) =>
    ∃ h' xs',
      append_chars word32 xs ["a"; "b"]%char h = Ok (h', xs') ∧
      len xs' = 2 ∧ xstr_content h' xs' = Ok ["a"; "b"]%char ∧
      allocations h h' = 2).
Proof.
  split; [reflexivity|].
  destruct (buffer_of_spec word32 word32_pos "") as (h & xs & Heq & Hs & HB);
    [no_nul|reflexivity|].
  rewrite Heq. evaluated2 Heq. unfold holds_after.
  destruct (append_chars_extends_content word32 word32_pos ["a"; "b"]%char _ _ _ _ _ HB)
    as (h' & L' & xs' & Hrun & _ & Hlen & Hcont & Hcount);
    [by eexists|by vm_compute|no_nul|vm_compute; reflexivity|].
  exists h', xs'. split; [exact Hrun|]. split; [exact Hlen|].
  split; [exact Hcont|exact Hcount].
Defined.

